(** * Verification of the Arweave latency and read benchmarks

    Shallow embedding of [arweave_latency.js] (upload test),
    [arweave_read.js] (read test) and [run_tests.sh] (test driver).

    Conventions of the embedding.
    - JavaScript strings are [string]; only code units below 256 occur in
      the inputs that matter here (digits, unit letters, white space).
    - A JavaScript number that holds an integer is an [Int z]; [NaN] is
      kept as a value of its own because [parseInt] can produce it and
      every comparison with it is false.  Numbers are IEEE doubles: an
      integer below 2^53 is held exactly, a larger one is rounded to the
      nearest double ([to_double]), by [parseInt] and by every product.
      The model has no [Infinity]: values beyond the largest finite
      double (digit runs of more than 308 digits) are outside it, and so
      are throughput figures (true floating point).
    - Buffers are lists of bytes.
    - An awaited promise either resolves or rejects: [Outcome].
    - The outside world (argv, file system, network, clocks) is an
      environment record of outcomes; a run is a function of it. *)

From Stdlib Require Import List String Ascii ZArith NArith Lia Bool Arith.
From Stdlib Require Import DecimalString DecimalPos.
From Stdlib.Strings Require Import Byte.
From Equations Require Import Equations.
From Equations.Prop Require Import Logic.
Import ListNotations.
Local Open Scope string_scope.
Local Open Scope Z_scope.

Set Implicit Arguments.
Unset Equations With Funext.

(* ===================================================================== *)
(** * JavaScript values shared by the two scripts *)
(* ===================================================================== *)

Module Js.

(** ** Numbers *)

Inductive Num : Type :=
| NaN
| Int (z : Z).

(** Below this bound every integer is a double. *)
Definition safe_bound : Z := 2 ^ 53.

(** The double nearest to a natural number [m]: below 2^53 the number
    itself; above, its 53 leading bits, rounded to nearest with ties to
    even, scaled back. *)
Definition round53 (m : Z) : Z :=
  if m <? safe_bound then m
  else
    let e := Z.log2 m - 52 in
    let q := m / 2 ^ e in
    let r := m mod 2 ^ e in
    let half := 2 ^ (e - 1) in
    (if (half <? r) || ((r =? half) && Z.odd q) then q + 1 else q) * 2 ^ e.

(** The double nearest to an integer. *)
Definition to_double (z : Z) : Z :=
  if z <? 0 then - round53 (- z) else round53 z.

(** [a * b]: the product, rounded as every arithmetic result is. *)
Definition num_mul (a b : Num) : Num :=
  match a, b with
  | Int x, Int y => Int (to_double (x * y))
  | _, _ => NaN
  end.

(** [a > b] on numbers: false as soon as one side is [NaN]. *)
Definition num_gtb (a b : Num) : bool :=
  match a, b with
  | Int x, Int y => y <? x
  | _, _ => false
  end.

(** [a === b] on numbers: [NaN] is different from everything. *)
Definition num_eqb (a b : Num) : bool :=
  match a, b with
  | Int x, Int y => x =? y
  | _, _ => false
  end.

(** ** Characters and strings *)

Definition code (c : ascii) : N := N_of_ascii c.

(** [\d] *)
Definition is_digit (c : ascii) : bool :=
  ((48 <=? code c) && (code c <=? 57))%N.

Definition digit_val (c : ascii) : Z := Z.of_N (code c) - 48.

(** White space skipped by [parseInt] (the code units below 256). *)
Definition is_space (c : ascii) : bool :=
  (((9 <=? code c) && (code c <=? 13)) || (code c =? 32) || (code c =? 160))%N.

Definition upper_char (c : ascii) : ascii :=
  if ((97 <=? code c) && (code c <=? 122))%N
  then ascii_of_N (code c - 32)
  else c.

(** [String.prototype.toUpperCase] on the ASCII range. *)
Fixpoint toUpperCase (s : string) : string :=
  match s with
  | EmptyString => EmptyString
  | String c r => String (upper_char c) (toUpperCase r)
  end.

(** Longest prefix of characters satisfying [p], and the rest. *)
Fixpoint span (p : ascii -> bool) (s : string) : string * string :=
  match s with
  | EmptyString => (EmptyString, EmptyString)
  | String c r =>
      if p c
      then let '(a, b) := span p r in (String c a, b)
      else (EmptyString, s)
  end.

Fixpoint all_chars (p : ascii -> bool) (s : string) : bool :=
  match s with
  | EmptyString => true
  | String c r => p c && all_chars p r
  end.

Fixpoint drop_while (p : ascii -> bool) (s : string) : string :=
  match s with
  | EmptyString => EmptyString
  | String c r => if p c then drop_while p r else s
  end.

(** Value of a run of decimal digits, most significant first. *)
Fixpoint digits_value (acc : Z) (s : string) : Z :=
  match s with
  | EmptyString => acc
  | String c r => digits_value (acc * 10 + digit_val c) r
  end.

(** [parseInt(s, 10)]: skip white space, read an optional sign, then the
    longest run of digits; [NaN] when that run is empty, and otherwise
    the double nearest to the value of the run, with its sign. *)
Definition parseInt10 (s : string) : Num :=
  let s1 := drop_while is_space s in
  let '(neg, s2) :=
    match s1 with
    | String "-" r => (true, r)
    | String "+" r => (false, r)
    | _ => (false, s1)
    end in
  let '(ds, _) := span is_digit s2 in
  match ds with
  | EmptyString => NaN
  | _ =>
      let v := to_double (digits_value 0 ds) in
      Int (if neg then - v else v)
  end.

(** Decimal rendering of an integer inside a template string. *)
Definition show_Z (z : Z) : string := NilZero.string_of_int (Z.to_int z).

(** [s.replace(/\/$/, empty)]: drop one slash at the very end. *)
Fixpoint strip_trailing_slash (s : string) : string :=
  match s with
  | EmptyString => EmptyString
  | String c r =>
      match r with
      | EmptyString => if Ascii.eqb c "/" then EmptyString else s
      | _ => String c (strip_trailing_slash r)
      end
  end.

(** [String.prototype.includes] *)
Fixpoint includes (needle hay : string) : bool :=
  if String.prefix needle hay then true
  else match hay with
       | EmptyString => false
       | String _ r => includes needle r
       end.

(** ** Errors and promises *)

Record Error : Type := mkError {
  name : string;
  message : string;
  stack : string
}.

(** [String(err)], that is [Error.prototype.toString]. *)
Definition error_toString (e : Error) : string :=
  match name e, message e with
  | EmptyString, m => m
  | n, EmptyString => n
  | n, m => n ++ ": " ++ m
  end.

(** [s || d] for a string [s]: the empty string is falsy. *)
Definition or_else (s d : string) : string :=
  match s with
  | EmptyString => d
  | _ => s
  end.

Inductive Outcome (A : Type) : Type :=
| Resolved (a : A)
| Rejected (e : Error).
Arguments Resolved {A} a.
Arguments Rejected {A} e.

(** ** Buffers *)

Definition Buffer : Type := list byte.

(** [Buffer.prototype.equals]: same length and same bytes. *)
Fixpoint buffer_equals (a b : Buffer) : bool :=
  match a, b with
  | [], [] => true
  | x :: a', y :: b' => Byte.eqb x y && buffer_equals a' b'
  | _, _ => false
  end.

Definition buffer_length (b : Buffer) : Z := Z.of_nat (List.length b).

(** ** HTTP responses of [fetch] *)

Record Response : Type := mkResponse {
  resp_status : Z;
  resp_statusText : string;
  resp_header : string -> option string;   (* [headers.get] *)
  resp_body : Outcome Buffer               (* what [arrayBuffer()] gives *)
}.

(** [Response.ok]: the status is in the range 200-299. *)
Definition ok (r : Response) : bool :=
  (200 <=? resp_status r) && (resp_status r <=? 299).

End Js.

(* ===================================================================== *)
(** * The size parser of [arweave_latency.js] *)
(* ===================================================================== *)

Module SizeParser.
Import Js.

(** Result of a call that may throw. *)
Inductive Thrown (A : Type) : Type :=
| Returned (a : A)
| Threw (e : Error).
Arguments Returned {A} a.
Arguments Threw {A} e.

Definition is_KMG (c : ascii) : bool :=
  let u := upper_char c in
  (Ascii.eqb u "K" || Ascii.eqb u "M" || Ascii.eqb u "G")%bool.

Definition is_B (c : ascii) : bool := Ascii.eqb (upper_char c) "B".

(** [str.match(/^(\d+)([KMG]?B?)$/i)]: the two captured groups, or [None]
    for a null match.  The pattern is anchored on both sides and no two
    consecutive parts can start with the same character, so the greedy
    left-to-right reading below is the only possible match
    (see [size_match_spec]). *)
Definition size_match (str : string) : option (string * string) :=
  let '(ds, rest) := span is_digit str in          (* ^(\d+) *)
  match ds with
  | EmptyString => None
  | _ =>
      let r1 := match rest with                     (* [KMG]? *)
                | String c r => if is_KMG c then r else rest
                | EmptyString => rest
                end in
      let r2 := match r1 with                       (* B? *)
                | String c r => if is_B c then r else r1
                | EmptyString => r1
                end in
      match r2 with                                 (* $ *)
      | EmptyString => Some (ds, rest)
      | _ => None
      end
  end.

Definition invalid_size : Error :=
  mkError "Error" "Invalid size, e.g. 512KB, 5MB, 1GB" EmptyString.

Definition parseSize (str : string) : Thrown Num :=
  match size_match str with
  | None => Threw invalid_size
  | Some (m1, m2) =>
      let n := parseInt10 m1 in
      let unit := toUpperCase m2 in
      if String.eqb unit "KB" then Returned (num_mul n (Int 1024))
      else if String.eqb unit "MB"
           then Returned (num_mul (num_mul n (Int 1024)) (Int 1024))
      else if String.eqb unit "GB"
           then Returned
                  (num_mul (num_mul (num_mul n (Int 1024)) (Int 1024)) (Int 1024))
      else Returned n
  end.

(** *** Declarative reading of the pattern *)

(** The language of [[KMG]?B?] under the [i] flag. *)
Inductive unit_lang : string -> Prop :=
| UL_empty : unit_lang EmptyString
| UL_b c : is_B c = true -> unit_lang (String c EmptyString)
| UL_k c : is_KMG c = true -> unit_lang (String c EmptyString)
| UL_kb c d : is_KMG c = true -> is_B d = true ->
              unit_lang (String c (String d EmptyString)).

(** A match of the whole pattern: digits, then a unit. *)
Definition re_match (str ds u : string) : Prop :=
  str = ds ++ u /\ ds <> EmptyString /\ all_chars is_digit ds = true /\ unit_lang u.

(** The units the data model of the specification lists. *)
Definition spec_unit (u : string) : Prop :=
  let v := toUpperCase u in
  v = EmptyString \/ v = "B" \/ v = "KB" \/ v = "MB" \/ v = "GB".

(** The units the pattern of the code accepts. *)
Definition code_unit (u : string) : Prop :=
  let v := toUpperCase u in
  v = EmptyString \/ v = "B" \/ v = "K" \/ v = "M" \/ v = "G" \/
  v = "KB" \/ v = "MB" \/ v = "GB".

Definition multiplier (u : string) : Z :=
  let v := toUpperCase u in
  if String.eqb v "KB" then 1024
  else if String.eqb v "MB" then 1024 * 1024
  else if String.eqb v "GB" then 1024 * 1024 * 1024
  else 1.

(** The unit suffix of a token: what follows its leading digits. *)
Definition digits_of (str : string) : string := fst (span is_digit str).
Definition unit_suffix (str : string) : string := snd (span is_digit str).

End SizeParser.

(* ===================================================================== *)
(** * Runs: a state and error monad over the outside world *)
(* ===================================================================== *)

Module Run.
Import Js.

(** What a run does that can be observed from outside.  [Caught] is a
    ghost event: it marks the entry into a [catch] block. *)
Inductive Event (Line File : Type) : Type :=
| Stdout (l : Line)
| Stderr (l : Line)
| Call (fn : string)
| Fetch (method url : string)
| Sleep (ms : Z)
| WriteFile (path : string) (content : File)
| Caught (handler : string) (e : Error).
Arguments Stdout {Line File} l.
Arguments Stderr {Line File} l.
Arguments Call {Line File} fn.
Arguments Fetch {Line File} method url.
Arguments Sleep {Line File} ms.
Arguments WriteFile {Line File} path content.
Arguments Caught {Line File} handler e.

(** The monotonic clock ([process.hrtime.bigint()], nanoseconds), the
    events so far, and the [let] variables of the script that are assigned
    inside a [try] block and read after it. *)
Record World (Line File Vars : Type) : Type := mkWorld {
  clock : N;
  trace : list (Event Line File);
  vars : Vars
}.

(** How a piece of the script ends: with a value, with an exception on
    its way to the enclosing [catch], or with [process.exit]. *)
Inductive Res (A : Type) : Type :=
| Val (a : A)
| Throw (e : Error)
| Exit (code : Z).
Arguments Val {A} a.
Arguments Throw {A} e.
Arguments Exit {A} code.

Definition M (Line File Vars A : Type) : Type :=
  World Line File Vars -> World Line File Vars * Res A.

Section Ops.
Context {Line File Vars : Type}.
Abbreviation M := (M Line File Vars).
Abbreviation World := (World Line File Vars).

Definition ret {A} (a : A) : M A := fun w => (w, Val a).

Definition bind {A B} (m : M A) (f : A -> M B) : M B :=
  fun w =>
    match m w with
    | (w', Val a) => f a w'
    | (w', Throw e) => (w', Throw e)
    | (w', Exit c) => (w', Exit c)
    end.

Definition throw {A} (e : Error) : M A := fun w => (w, Throw e).

(** [process.exit(code)]: nothing after it runs, no [catch] sees it. *)
Definition exit {A} (code : Z) : M A := fun w => (w, Exit code).

Definition emit (ev : Event Line File) : M unit :=
  fun w => (mkWorld (clock w) (trace w ++ [ev]) (vars w), Val tt).

Definition tick (d : N) : M unit :=
  fun w => (mkWorld (clock w + d)%N (trace w) (vars w), Val tt).

(** Reading and assigning the script's variables. *)
Definition read_vars : M Vars := fun w => (w, Val (vars w)).

Definition assign (f : Vars -> Vars) : M unit :=
  fun w => (mkWorld (clock w) (trace w) (f (vars w)), Val tt).

(** [now()] *)
Definition now : M N := fun w => (w, Val (clock w)).

(** [elapsedMs(start)]: whole milliseconds, BigInt division truncates. *)
Definition elapsedMs (start : N) : M Z :=
  fun w => (w, Val (Z.of_N ((clock w - start) / 1000000)%N)).

(** [Date.now()] for a process started at wall-clock time [epoch]. *)
Definition date_now (epoch : Z) : M Z :=
  fun w => (w, Val (epoch + Z.of_N (clock w / 1000000)%N)).

(** [await p] for a promise that settles after [fst p] nanoseconds. *)
Definition await {A} (p : N * Outcome A) : M A :=
  fun w =>
    let w' := mkWorld (clock w + fst p)%N (trace w) (vars w) in
    match snd p with
    | Resolved a => (w', Val a)
    | Rejected e => (w', Throw e)
    end.

(** A call that settles at once. *)
Definition settle {A} (o : Outcome A) : M A := await (0%N, o).

(** [try { m } catch (e) { k e }] *)
Definition try_catch {A} (handler : string) (m : M A) (k : Error -> M A) : M A :=
  fun w =>
    match m w with
    | (w', Throw e) => bind (emit (Caught handler e)) (fun _ => k e) w'
    | r => r
    end.

End Ops.

(** How many events of a trace satisfy [p]. *)
Definition count {Line File : Type} (p : Event Line File -> bool)
    (tr : list (Event Line File)) : nat :=
  List.length (filter p tr).

(** Exit status of the process for a finished top-level run: a run that
    falls off the end exits with 0, an unhandled rejection with 1. *)
Definition exit_code {A} (r : Res A) : Z :=
  match r with
  | Val _ => 0
  | Throw _ => 1
  | Exit c => c
  end.

End Run.

Declare Scope run_scope.
Delimit Scope run_scope with run.
Notation "x <- m ;; k" := (Run.bind m (fun x => k))
  (at level 61, m at next level, right associativity) : run_scope.
Notation "m ;; k" := (Run.bind m (fun _ => k))
  (at level 61, right associativity) : run_scope.

(* ===================================================================== *)
(** * The upload test, [arweave_latency.js] *)
(* ===================================================================== *)

Module Latency.
Import Js SizeParser Run.
Local Open Scope run_scope.

(** ** Output *)

(** The lines the script prints, one constructor per [console] call
    (the summary block is one constructor).  Throughput figures are
    floating point and carry no data here. *)
Inductive Line : Type :=
| LUsage
| LGenerating (sizeBytes : Num)
| LGateway (gateway : string)
| LTxId (txid : string)
| LUploadLatency (uploadMs : Z)
| LUploadThroughput
| LAvailability (available : bool) (statusText : string)
| LTimeUntil (availabilityMs : Z)
| LStopping
| LUnexpectedStatus (status : Z) (statusText : string)
| LDownloadLatency (downloadMs : Z)
| LDownloadThroughput
| LIntegrity (verdict : string)
| LSummary (uploadMs availabilityMs downloadMs : Z) (txid url : string)
| LSaved (outputFilename : string)
| LError (err : Error)
| LErrorSaved (errorFilename : string)
| LWriteFailed (writeErr : Error).

(** [results] *)
Record Results : Type := mkResults {
  timestamp : Z;
  gateway : string;
  fileSize_bytes : Num;
  fileSize_humanReadable : string;
  upload_latencyMs : Z;
  gatewayAvailability_latencyMs : Z;
  gatewayAvailability_available : bool;
  gatewayAvailability_lastStatus : string;
  download_latencyMs : Z;
  integrityCheck : string;
  transaction_id : string;
  transaction_url : string
}.

(** [errorResults] *)
Record ErrorResults : Type := mkErrorResults {
  error_timestamp : Z;
  error : string;
  error_stack : string
}.

Inductive File : Type :=
| ResultsJson (r : Results)
| ErrorJson (r : ErrorResults).

Abbreviation Event := (Run.Event Line File).
Abbreviation World := (Run.World Line File unit).
Abbreviation M := (Run.M Line File unit).

(** ** The outside world of one run *)

Record Env : Type := mkEnv {
  argv : list string;                       (* [process.argv] from index 2 *)
  epoch : Z;                                (* wall clock at start, ms *)
  readFile : string -> Outcome unit;        (* read and [JSON.parse] the key *)
  randomBytes : Num -> Outcome Buffer;
  createTransaction : Buffer -> Outcome unit;
  sign : Outcome string;                    (* gives the transaction its id *)
  getUploader : Outcome unit;
  uploadChunk : list (N * Outcome unit);    (* one entry per call made *)
  head : nat -> N * Outcome Response;       (* the k-th HEAD probe *)
  sleep_late : nat -> N;                    (* how late the k-th timer fires, ns *)
  get : N * Outcome Response;               (* the download *)
  writeFile : string -> Outcome unit
}.

(** ** The availability poll loop *)

Definition maxWaitMs : Z := 10 * 60 * 1000.
Definition pollIntervalMs : Z := 2000.

(** The variables of the loop; [attempts] and [sleeps] are ghost counters
    of the probes sent and the timers awaited so far. *)
Record PollVars : Type := mkPoll {
  waitedMs : Z;
  statusText : string;
  available : bool;
  attempts : nat;
  sleeps : nat
}.

Definition poll_init : PollVars := mkPoll 0 EmptyString false 0 0.

(** The [try]/[catch] of one iteration; the boolean is [true] when the
    iteration leaves the loop through [break]. *)
Definition attempt (env : Env) (url : string) (v : PollVars) (w : World)
  : bool * PollVars * World :=
  let '(d, o) := head env (attempts v) in
  let w1 := mkWorld (clock w + d)%N (trace w ++ [Fetch "HEAD" url]) tt in
  match o with
  | Resolved hd =>
      let st := show_Z (resp_status hd) ++ " " ++ resp_statusText hd in
      if ok hd
      then (true, mkPoll (waitedMs v) st true (S (attempts v)) (sleeps v), w1)
      else (false, mkPoll (waitedMs v) st (available v) (S (attempts v)) (sleeps v), w1)
  | Rejected e =>
      (false,
       mkPoll (waitedMs v) (or_else (message e) "fetch error") (available v)
              (S (attempts v)) (sleeps v),
       mkWorld (clock w1) (trace w1 ++ [Caught "poll" e]) tt)
  end.

(** [await sleep(pollIntervalMs); waitedMs += pollIntervalMs;] *)
Definition sleep_step (env : Env) (v : PollVars) (w : World) : PollVars * World :=
  (mkPoll (waitedMs v + pollIntervalMs) (statusText v) (available v)
          (attempts v) (S (sleeps v)),
   mkWorld (clock w + Z.to_N pollIntervalMs * 1000000 + sleep_late env (sleeps v))%N
           (trace w ++ [Sleep pollIntervalMs]) tt).

(** The probe leaves [waitedMs] alone, and one more sleep brings the loop
    one step closer to its bound: the two facts behind its termination. *)
Lemma attempt_waitedMs env url v w b v1 w1 :
  attempt env url v w = (b, v1, w1) -> waitedMs v1 = waitedMs v.
Proof.
  unfold attempt. destruct (head env (attempts v)) as [d o].
  destruct o as [hd | e]; [destruct (ok hd) |]; intros H; inversion H; reflexivity.
Qed.

Definition remaining (waited : Z) : nat :=
  Z.to_nat ((maxWaitMs + pollIntervalMs - waited) / pollIntervalMs).

Lemma remaining_decreases (waited : Z) :
  waited <= maxWaitMs ->
  (remaining (waited + pollIntervalMs) < remaining waited)%nat.
Proof.
  unfold remaining, maxWaitMs, pollIntervalMs. intros Hle.
  change (10 * 60 * 1000) with 600000 in *.
  assert (H1 : (600000 + 2000 - (waited + 2000)) / 2000
               = (600000 + 2000 - waited) / 2000 - 1).
  { replace (600000 + 2000 - (waited + 2000))
      with ((600000 + 2000 - waited) + (-1) * 2000) by ring.
    rewrite Z.div_add by lia. ring. }
  assert (H2 : 1 <= (600000 + 2000 - waited) / 2000).
  { apply Z.div_le_lower_bound; lia. }
  rewrite H1. lia.
Qed.

#[local] Opaque maxWaitMs pollIntervalMs remaining.

(** [while (waitedMs <= maxWaitMs) { try { ... } catch { ... } sleep; }] *)
Equations? poll_loop (env : Env) (url : string) (v : PollVars) (w : World)
  : PollVars * World
  by wf (remaining (waitedMs v)) lt :=
  poll_loop env url v w with Z_le_gt_dec (waitedMs v) maxWaitMs => {
    | right _ := (v, w);
    | left Hle with inspect (attempt env url v w) => {
        | exist _ (true, v1, w1) _ := (v1, w1);
        | exist _ (false, v1, w1) Heq :=
            poll_loop env url (fst (sleep_step env v1 w1)) (snd (sleep_step env v1 w1))
      }
  }.
Proof.
  cbn [fst sleep_step waitedMs].
  rewrite (attempt_waitedMs _ _ _ _ Heq).
  apply remaining_decreases, Hle.
Qed.

#[local] Transparent maxWaitMs pollIntervalMs remaining.

(** The whole availability phase as a step of the script: it cannot throw
    (the [catch] swallows every rejected probe) and it cannot exit. *)
Definition poll (env : Env) (url : string) : M PollVars :=
  fun w => let '(v, w') := poll_loop env url poll_init w in (w', Val v).

(** ** The integrity check *)

(** [dlBuf.length === sizeBytes && dlBuf.equals(data)] *)
Definition same (sizeBytes : Num) (data dlBuf : Buffer) : bool :=
  num_eqb (Int (buffer_length dlBuf)) sizeBytes && buffer_equals dlBuf data.

(** [same ? "PASS" : "FAIL"] *)
Definition verdict (b : bool) : string := if b then "PASS" else "FAIL".

(** ** The script *)

(** Truthiness of a command-line argument that may be missing. *)
Definition is_falsy (a : option string) : bool :=
  match a with
  | None => true
  | Some EmptyString => true
  | Some _ => false
  end.

Definition str_of (a : option string) : string :=
  match a with
  | Some s => s
  | None => EmptyString
  end.

Definition call_parseSize (sizeArg : string) : M Num :=
  match parseSize sizeArg with
  | Returned n => ret n
  | Threw e => throw e
  end.

(** [while (!uploader.isComplete) await uploader.uploadChunk();] *)
Fixpoint upload_loop (chunks : list (N * Outcome unit)) : M unit :=
  match chunks with
  | [] => ret tt
  | c :: rest => emit (Call "uploadChunk") ;; await c ;; upload_loop rest
  end.

Definition save_results (env : Env) (r : Results) : M unit :=
  let outputFilename := "arweave-test-" ++ transaction_id r ++ ".json" in
  emit (WriteFile outputFilename (ResultsJson r)) ;;
  settle (writeFile env outputFilename) ;;
  emit (Stdout (LSaved outputFilename)).

(** What the script knows once the upload is done. *)
Record Uploaded : Type := mkUploaded {
  up_gateway : string;
  up_sizeArg : string;
  up_sizeBytes : Num;
  up_data : Buffer;
  up_txid : string;
  up_uploadMs : Z
}.

(** The gateway address of the transaction. *)
Definition url_of (u : Uploaded) : string :=
  strip_trailing_slash (up_gateway u) ++ "/" ++ up_txid u.

(** From the command line to the end of the upload. *)
Definition upload_phase (env : Env) : M Uploaded :=
  let jwkPath := nth_error (argv env) 0 in
  let sizeArg := nth_error (argv env) 1 in
  let gatewayArg := nth_error (argv env) 2 in
  if is_falsy jwkPath || is_falsy sizeArg then
    emit (Stderr LUsage) ;; exit 1
  else
    let gateway := or_else (str_of gatewayArg) "https://arweave.net" in
    sizeBytes <- call_parseSize (str_of sizeArg) ;;
    emit (Call "readFile") ;;
    settle (readFile env (str_of jwkPath)) ;;
    emit (Stdout (LGenerating sizeBytes)) ;;
    emit (Call "randomBytes") ;;
    data <- settle (randomBytes env sizeBytes) ;;
    emit (Stdout (LGateway gateway)) ;;
    (* --- Upload --- *)
    emit (Call "createTransaction") ;;
    settle (createTransaction env data) ;;
    emit (Call "sign") ;;
    txid <- settle (sign env) ;;
    emit (Call "getUploader") ;;
    settle (getUploader env) ;;
    tUploadStart <- now ;;
    upload_loop (uploadChunk env) ;;
    uploadMs <- elapsedMs tUploadStart ;;
    emit (Stdout (LTxId txid)) ;;
    emit (Stdout (LUploadLatency uploadMs)) ;;
    emit (Stdout LUploadThroughput) ;;
    ret (mkUploaded gateway (str_of sizeArg) sizeBytes data txid uploadMs).

(** "Wait until the gateway serves the data": the poll loop between two
    readings of the clock. *)
Definition wait_for_gateway (env : Env) (url : string) : M (PollVars * Z) :=
  tAvailStart <- now ;;
  p <- poll env url ;;
  availabilityMs <- elapsedMs tAvailStart ;;
  ret (p, availabilityMs).

(** Download, integrity check, summary and report. *)
Definition download_phase (env : Env) (u : Uploaded) (p : PollVars)
    (availabilityMs : Z) : M unit :=
  tDlStart <- now ;;
  emit (Fetch "GET" (url_of u)) ;;
  resp <- await (get env) ;;
  if negb (ok resp) then
    emit (Stderr (LUnexpectedStatus (resp_status resp) (resp_statusText resp))) ;;
    exit 1
  else
    dlBuf <- settle (resp_body resp) ;;
    downloadMs <- elapsedMs tDlStart ;;
    let same := same (up_sizeBytes u) (up_data u) dlBuf in
    emit (Stdout (LDownloadLatency downloadMs)) ;;
    emit (Stdout LDownloadThroughput) ;;
    emit (Stdout (LIntegrity (verdict same))) ;;
    emit (Stdout (LSummary (up_uploadMs u) availabilityMs downloadMs
                           (up_txid u) (url_of u))) ;;
    ts <- date_now (epoch env) ;;
    save_results env
      (mkResults ts (up_gateway u) (up_sizeBytes u) (up_sizeArg u) (up_uploadMs u)
                 availabilityMs (available p) (statusText p) downloadMs
                 (verdict same) (up_txid u) (url_of u)).

(** What follows the poll loop: the two status lines, then either the
    early exit or the download. *)
Definition after_poll (env : Env) (u : Uploaded) (p : PollVars)
    (availabilityMs : Z) : M unit :=
  emit (Stdout (LAvailability (available p) (statusText p))) ;;
  emit (Stdout (LTimeUntil availabilityMs)) ;;
  if negb (available p) then
    emit (Stdout LStopping) ;; exit 0
  else
    download_phase env u p availabilityMs.

(** The body of the outer [try]. *)
Definition main_body (env : Env) : M unit :=
  u <- upload_phase env ;;
  r <- wait_for_gateway env (url_of u) ;;
  after_poll env u (fst r) (snd r).

(** The [catch (err)] of the outer [try]. *)
Definition top_catch (env : Env) (err : Error) : M unit :=
  emit (Stderr (LError err)) ;;
  try_catch "writeErr"
    (ts <- date_now (epoch env) ;;
     let errorResults :=
       mkErrorResults ts (or_else (message err) (error_toString err)) (stack err) in
     let errorFilename := "arweave-test-error-" ++ show_Z ts ++ ".json" in
     emit (WriteFile errorFilename (ErrorJson errorResults)) ;;
     settle (writeFile env errorFilename) ;;
     emit (Stderr (LErrorSaved errorFilename)))
    (fun writeErr => emit (Stderr (LWriteFailed writeErr))) ;;
  exit 1.

(** The script: [(async () => { try { ... } catch (err) { ... } })()]. *)
Definition main (env : Env) : M unit :=
  try_catch "top" (main_body env) (top_catch env).

Definition start : World := mkWorld 0 [] tt.

(** A run from a fresh process: its events and its exit status. *)
Definition run (env : Env) : list Event * Z :=
  let '(w, r) := main env start in (trace w, exit_code r).

(** ** Vocabulary of the statements about the poll loop *)

(** The k-th HEAD probe succeeds: it resolves with an ok status.  It
    fails when the status is not ok or the fetch throws. *)
Definition probe_ok (env : Env) (k : nat) : bool :=
  match snd (head env k) with
  | Resolved hd => ok hd
  | Rejected _ => false
  end.

Definition is_probe (ev : Event) : bool :=
  match ev with
  | Fetch method _ => String.eqb method "HEAD"
  | _ => false
  end.

Definition is_sleep (ev : Event) : bool :=
  match ev with
  | Sleep _ => true
  | _ => false
  end.

(** What [n] failed probes, each followed by its sleep, do to the state. *)
Record advanced (env : Env) (n : nat) (v v' : PollVars) (w w' : World) : Prop := {
  adv_waited : waitedMs v' = waitedMs v + Z.of_nat n * pollIntervalMs;
  adv_available : available v' = available v;
  adv_attempts : attempts v' = (attempts v + n)%nat;
  adv_sleeps : sleeps v' = (sleeps v + n)%nat;
  adv_clock : (clock w + N.of_nat n * 2000000000 <= clock w')%N;
  adv_probes : count is_probe (trace w') = (count is_probe (trace w) + n)%nat;
  adv_slept : count is_sleep (trace w') = (count is_sleep (trace w) + n)%nat
}.

(** ** Vocabulary of the statements about whole runs *)

(** Events that belong to the download and integrity phases. *)
Definition download_event (ev : Event) : bool :=
  match ev with
  | Fetch method _ => String.eqb method "GET"
  | WriteFile _ (ResultsJson _) => true
  | Stdout (LDownloadLatency _) => true
  | Stdout LDownloadThroughput => true
  | Stdout (LIntegrity _) => true
  | Stdout (LSummary _ _ _ _ _) => true
  | Stdout (LSaved _) => true
  | Stderr (LUnexpectedStatus _ _) => true
  | _ => false
  end.

(** A property of the reports a run writes, as a property of events. *)
Definition reports (Q : Results -> Prop) (ev : Event) : Prop :=
  match ev with
  | WriteFile _ (ResultsJson r) => Q r
  | _ => True
  end.

(** What a written report says about the integrity check: the verdict
    on the payload that was generated and the body that was downloaded. *)
Definition integrity_reported (env : Env) (r : Results) : Prop :=
  exists data resp dlBuf,
    randomBytes env (fileSize_bytes r) = Resolved data /\
    snd (get env) = Resolved resp /\
    resp_body resp = Resolved dlBuf /\
    integrityCheck r = verdict (same (fileSize_bytes r) data dlBuf).

(** Entries into the top-level [catch]. *)
Definition is_top_catch (ev : Event) : bool :=
  match ev with
  | Caught handler _ => String.eqb handler "top"
  | _ => false
  end.

(** The upload test has no variables shared across [try] blocks. *)
Definition any (_ : unit) : Prop := True.

(** Events outside the download and integrity phases. *)
Definition no_download (ev : Event) : Prop := download_event ev = false.

(** Events other than the entry into the top-level [catch]. *)
Definition no_top_catch (ev : Event) : Prop := is_top_catch ev = false.

(** ** Sample environments *)

Definition response (status : Z) (text : string) (body : Buffer) : Response :=
  mkResponse status text (fun _ => None) (Resolved body).

(** A generator with the contract of [crypto.randomBytes]: as many bytes
    as asked for, an error for a size that is not a length. *)
Definition fill (size : Num) : Outcome Buffer :=
  match size with
  | Int z =>
      if 0 <=? z then Resolved (repeat "x"%byte (Z.to_nat z))
      else Rejected (mkError "RangeError" "The value of size is out of range" EmptyString)
  | NaN => Rejected (mkError "TypeError" "The size argument must be a number" EmptyString)
  end.

Definition payload : Buffer := repeat "x"%byte 3.

(** A gateway that answers the first [n] probes with 404 and then 200,
    and serves [served] as the data. *)
Definition sample_env (args : list string) (n : nat) (served : Buffer) : Env :=
  mkEnv args 1700000000000
        (fun _ => Resolved tt)
        fill
        (fun _ => Resolved tt)
        (Resolved "TXID")
        (Resolved tt)
        [(5000000%N, Resolved tt); (7000000%N, Resolved tt)]
        (fun k => if (k <? n)%nat
                  then (30000000%N, Resolved (response 404 "Not Found" []))
                  else (30000000%N, Resolved (response 200 "OK" [])))
        (fun _ => 1500000%N)
        (90000000%N, Resolved (response 200 "OK" served))
        (fun _ => Resolved tt).

(** A gateway on which every probe throws an error without a message. *)
Definition silent_error : Error := mkError "TypeError" EmptyString EmptyString.

Definition unreachable_env : Env :=
  mkEnv ["key.json"; "3"] 1700000000000
        (fun _ => Resolved tt)
        fill
        (fun _ => Resolved tt)
        (Resolved "TXID")
        (Resolved tt)
        []
        (fun _ => (1000000%N, Rejected silent_error))
        (fun _ => 0%N)
        (0%N, Rejected silent_error)
        (fun _ => Resolved tt).

End Latency.

(* ===================================================================== *)
(** * The read test, [arweave_read.js] *)
(* ===================================================================== *)

Module Read.
Import Js Run.
Local Open Scope run_scope.

(** ** Input data *)

(** One entry of [metadata.tags]: a pair of base64 strings, or a value on
    which [Buffer.from(..., 'base64')] throws. *)
Inductive TagEntry : Type :=
| Tag (name value : string)
| BadTag (e : Error).

(** The JSON document served under [/tx/<txid>].  [data_size] is [None]
    for a falsy field (absent, [null], [0], the empty string) and
    otherwise the string the field converts to; [tags_field] is [None]
    when the field is absent or not an array. *)
Record Metadata : Type := mkMetadata {
  data_size : option string;
  tags_field : option (list TagEntry)
}.

(** The results of the successive [reader.read()] calls on a response
    body: chunks, then the end of the stream or an error; each after a
    delay. *)
Inductive Stream : Type :=
| Done (d : N)
| Failed (d : N) (e : Error)
| Chunk (d : N) (value : Buffer) (rest : Stream).

(** ** Output *)

Inductive Line : Type :=
| LUsage
| LUsageExample
| LReading (txid : string)
| LGateway (gateway : string)
| LRawUrl (rawUrl : string)
| LTxUrl (txUrl : string)
| LBlank
| LFetchingMetadata
| LMetadataRetrieved (metaMs : Z)
| LExpectedSize (expectedSize : Num)
| LContentTypeTag (value : string)
| LCouldNotFetchMetadata (status : Z) (statusText : string)
| LMetadataFailed (message : string)
| LCheckingAvailability
| LNotAvailable (status : Z) (statusText : string)
| LHeadLatency (headMs : Z)
| LPendingNote
| LStatus (status : Z) (statusText : string)
| LResponseContentType (contentType : string)
| LResponseContentLength (contentLength : Num)
| LHeadFailed (message : string)
| LDownloading
| LDownloadFailed (status : Z) (statusText : string)
| LProgress (downloadedBytes : Z) (expectedSize : Num)
| LNewline
| LDownloadComplete
| LDownloadedSize (actualSize : Z)
| LChunksReceived (n : nat)
| LAverageChunkSize
| LDownloadLatency (downloadMs : Z)
| LDownloadThroughput
| LHash (hash : string)
| LSizePass (expectedSize : Num)
| LSizeFail (expectedSize : Num) (actualSize : Z)
| LHtmlWarning
| LSummary (txid : string) (actualSize : Z) (contentTypeTag : option string)
           (contentType : string) (downloadMs : Z) (hash gateway rawUrl : string)
| LSaved (outputFilename : string)
| LDownloadError (message : string)
| LErrorSaved (errorFilename : string)
| LFatal (err : Error).

(** [results] *)
Record Results : Type := mkResults {
  timestamp : Z;
  transaction_id : string;
  transaction_rawUrl : string;
  transaction_txUrl : string;
  transaction_gateway : string;
  metadata_expectedSize : Num;
  metadata_tags : list (string * string);
  metadata_responseContentType : string;
  metadata_responseContentLength : Num;
  download_actualSize : Z;
  download_downloadLatencyMs : Z;
  download_chunks : nat;
  verification_sizeMatch : option bool;      (* [None] is [null] *)
  verification_sha256Hash : string;
  verification_looksLikeHTML : bool;
  fileSize_bytes : Z
}.

(** [errorResults] *)
Record ErrorResults : Type := mkErrorResults {
  error_timestamp : Z;
  error_transaction_id : string;
  error_transaction_rawUrl : string;
  error_transaction_gateway : string;
  error_message : string;
  error_stack : string
}.

Inductive File : Type :=
| ResultsJson (r : Results)
| ErrorJson (r : ErrorResults).

(** ** Variables assigned inside [try] blocks *)

Record Vars : Type := mkVars {
  expectedSize : Num;
  tags : list (string * string);
  contentLength : Num;
  contentType : string;
  downloadedBytes : Z;
  chunkSizes : list Z
}.

Definition vars_init : Vars := mkVars (Int 0) [] (Int 0) EmptyString 0 [].

Definition set_expectedSize (n : Num) (v : Vars) : Vars :=
  mkVars n (tags v) (contentLength v) (contentType v) (downloadedBytes v) (chunkSizes v).

(** The own properties of the object [tags], in the order of their
    creation.  (The order in which [JSON.stringify] lists them differs
    for names that look like array indices; nothing here depends on
    it.) *)
Fixpoint tags_insert (name value : string) (t : list (string * string))
  : list (string * string) :=
  match t with
  | [] => [(name, value)]
  | (k, x) :: r =>
      if String.eqb k name then (k, value) :: r else (k, x) :: tags_insert name value r
  end.

(** [tags[name] = value] for a string [value]: assigning to [__proto__]
    creates no property. *)
Definition tags_put (name value : string) (t : list (string * string))
  : list (string * string) :=
  if String.eqb name "__proto__" then t else tags_insert name value t.

(** [tags[name]], [None] for [undefined] *)
Fixpoint tags_get (name : string) (t : list (string * string)) : option string :=
  match t with
  | [] => None
  | (k, x) :: r => if String.eqb k name then Some x else tags_get name r
  end.

Definition set_tag (name value : string) (v : Vars) : Vars :=
  mkVars (expectedSize v) (tags_put name value (tags v)) (contentLength v)
         (contentType v) (downloadedBytes v) (chunkSizes v).

Definition set_head (len : Num) (type : string) (v : Vars) : Vars :=
  mkVars (expectedSize v) (tags v) len type (downloadedBytes v) (chunkSizes v).

(** [chunkSizes.push(value.length); downloadedBytes += value.length;] *)
Definition add_chunk (len : Z) (v : Vars) : Vars :=
  mkVars (expectedSize v) (tags v) (contentLength v) (contentType v)
         (downloadedBytes v + len) (chunkSizes v ++ [len]).

Abbreviation Event := (Run.Event Line File).
Abbreviation World := (Run.World Line File Vars).
Abbreviation M := (Run.M Line File Vars).

(** ** The outside world of one run *)

Record Env : Type := mkEnv {
  argv : list string;                       (* [process.argv] from index 2 *)
  epoch : Z;
  meta : N * Outcome Response;              (* GET /tx/<txid> *)
  meta_json : Outcome Metadata;             (* [metaResp.json()] *)
  base64 : string -> string;                (* base64 to UTF-8 text *)
  head : N * Outcome Response;              (* HEAD /raw/<txid> *)
  get : N * Outcome Response;               (* GET /raw/<txid> *)
  reads : Stream;                           (* its body *)
  sha256 : Buffer -> string;                (* hex digest *)
  writeFile : string -> Outcome unit
}.

(** ** Verification of the downloaded data *)

(** [expectedSize > 0 ? expectedSize === actualSize : null] *)
Definition sizeMatch (expectedSize : Num) (actualSize : Z) : option bool :=
  if num_gtb expectedSize (Int 0)
  then Some (num_eqb expectedSize (Int actualSize))
  else None.

(** The size verification line, when one is printed. *)
Definition size_verification (expectedSize : Num) (actualSize : Z) : option Line :=
  if num_gtb expectedSize (Int 0)
  then Some (if num_eqb expectedSize (Int actualSize)
             then LSizePass expectedSize
             else LSizeFail expectedSize actualSize)
  else None.

(** The text of the first 1000 bytes.  The two needles searched for are
    ASCII, and ASCII bytes decode to themselves under UTF-8, so the bytes
    are read one character each. *)
Definition first1000 (buffer : Buffer) : string :=
  string_of_list_byte (firstn 1000 buffer).

Definition looksLikeHTML (buffer : Buffer) : bool :=
  includes "<!DOCTYPE" (first1000 buffer) || includes "<html" (first1000 buffer).

(** ** The phases of the script *)

Definition log (l : Line) : M unit := emit (Stdout l).
Definition log_error (l : Line) : M unit := emit (Stderr l).

Definition when (b : bool) (m : M unit) : M unit := if b then m else ret tt.

(** A string that may be [undefined] or [null], as a condition. *)
Definition truthy (a : option string) : bool :=
  match a with
  | None => false
  | Some EmptyString => false
  | Some _ => true
  end.

Definition str_of (a : option string) : string :=
  match a with
  | Some s => s
  | None => EmptyString
  end.

(** [metadata.tags.forEach(tag => { ... })] *)
Fixpoint parse_tags (env : Env) (l : list TagEntry) : M unit :=
  match l with
  | [] => ret tt
  | Tag name value :: rest =>
      assign (set_tag (base64 env name) (base64 env value)) ;;
      parse_tags env rest
  | BadTag e :: _ => throw e
  end.

Definition log_content_type_tag : M unit :=
  v <- read_vars ;;
  when (truthy (tags_get "Content-Type" (tags v)))
       (log (LContentTypeTag (str_of (tags_get "Content-Type" (tags v))))).

(** "First, get transaction metadata": the first inner [try]/[catch]. *)
Definition metadata_phase (env : Env) (gateway txid : string) : M unit :=
  log LFetchingMetadata ;;
  tMetaStart <- now ;;
  try_catch "metadata"
    (let metaUrl := strip_trailing_slash gateway ++ "/tx/" ++ txid in
     emit (Fetch "GET" metaUrl) ;;
     metaResp <- await (meta env) ;;
     if ok metaResp then
       metadata <- settle (meta_json env) ;;
       assign (set_expectedSize
                 (parseInt10 (or_else (str_of (data_size metadata)) "0"))) ;;
       match tags_field metadata with
       | Some l => parse_tags env l
       | None => ret tt
       end ;;
       metaMs <- elapsedMs tMetaStart ;;
       v <- read_vars ;;
       log (LMetadataRetrieved metaMs) ;;
       log (LExpectedSize (expectedSize v)) ;;
       log_content_type_tag ;;
       log LBlank
     else
       log (LCouldNotFetchMetadata (resp_status metaResp) (resp_statusText metaResp)) ;;
       log LBlank)
    (fun err => log (LMetadataFailed (message err)) ;; log LBlank).

(** "Check availability with HEAD request on raw endpoint". *)
Definition head_phase (env : Env) (rawUrl : string) : M unit :=
  log LCheckingAvailability ;;
  tHeadStart <- now ;;
  try_catch "head"
    (emit (Fetch "HEAD" rawUrl) ;;
     hd <- await (head env) ;;
     headMs <- elapsedMs tHeadStart ;;
     if negb (ok hd) then
       log_error (LNotAvailable (resp_status hd) (resp_statusText hd)) ;;
       log_error (LHeadLatency headMs) ;;
       log_error LPendingNote ;;
       exit 1
     else
       assign (set_head
                 (parseInt10 (or_else (str_of (resp_header hd "content-length")) "0"))
                 (or_else (str_of (resp_header hd "content-type")) "unknown")) ;;
       v <- read_vars ;;
       log (LStatus (resp_status hd) (resp_statusText hd)) ;;
       log (LResponseContentType (contentType v)) ;;
       log (LResponseContentLength (contentLength v)) ;;
       log (LHeadLatency headMs) ;;
       log LBlank)
    (fun err => log_error (LHeadFailed (message err)) ;; exit 1).

Definition progress_step : Z := 10 * 1024 * 1024.

(** The body of [if (value) { ... }] for one received chunk. *)
Definition on_chunk (value : Buffer) : M unit :=
  assign (add_chunk (buffer_length value)) ;;
  v <- read_vars ;;
  when (num_gtb (expectedSize v) (Int 0)
        && (downloadedBytes v mod progress_step <? buffer_length value))
       (log (LProgress (downloadedBytes v) (expectedSize v))).

(** [while (!done) { const { value, done: readerDone } = await reader.read(); ... }]
    with [chunks] the array filled so far. *)
Fixpoint read_loop (s : Stream) (chunks : list Buffer) : M (list Buffer) :=
  match s with
  | Done d =>
      emit (Call "read") ;; tick d ;; ret chunks
  | Failed d e =>
      emit (Call "read") ;; tick d ;; throw e
  | Chunk d value rest =>
      emit (Call "read") ;; tick d ;;
      on_chunk value ;;
      read_loop rest (chunks ++ [value])
  end.

(** What the script is asked to read. *)
Record Target : Type := mkTarget {
  txid : string;
  gateway : string;
  rawUrl : string;
  txUrl : string
}.

(** The body of the download [try] once the response is known to be ok. *)
Definition receive (env : Env) (t : Target) (tDownloadStart : N) : M unit :=
  chunks <- read_loop (reads env) [] ;;
  v <- read_vars ;;
  when (num_gtb (expectedSize v) (Int 0)) (log LNewline) ;;
  let buffer : Buffer := List.concat chunks in
  downloadMs <- elapsedMs tDownloadStart ;;
  let actualSize := buffer_length buffer in
  let hash := sha256 env buffer in
  log LDownloadComplete ;;
  log (LDownloadedSize actualSize) ;;
  log (LChunksReceived (List.length chunks)) ;;
  log LAverageChunkSize ;;
  log (LDownloadLatency downloadMs) ;;
  log LDownloadThroughput ;;
  log (LHash hash) ;;
  match size_verification (expectedSize v) actualSize with
  | Some l => log l
  | None => ret tt
  end ;;
  when (looksLikeHTML buffer) (log LHtmlWarning) ;;
  log (LSummary (txid t) actualSize
                (if truthy (tags_get "Content-Type" (tags v))
                 then tags_get "Content-Type" (tags v) else None)
                (contentType v) downloadMs hash (gateway t) (rawUrl t)) ;;
  ts <- date_now (epoch env) ;;
  let results :=
    mkResults ts (txid t) (rawUrl t) (txUrl t) (gateway t)
              (expectedSize v) (tags v) (contentType v) (contentLength v)
              actualSize downloadMs (List.length chunks)
              (sizeMatch (expectedSize v) actualSize) hash (looksLikeHTML buffer)
              actualSize in
  ts' <- date_now (epoch env) ;;
  let outputFilename :=
    "arweave-read-" ++ txid t ++ "-" ++ show_Z ts' ++ ".json" in
  emit (WriteFile outputFilename (ResultsJson results)) ;;
  settle (writeFile env outputFilename) ;;
  log (LSaved outputFilename).

(** The body of the download [try]. *)
Definition download_try (env : Env) (t : Target) (tDownloadStart : N) : M unit :=
  emit (Fetch "GET" (rawUrl t)) ;;
  resp <- await (get env) ;;
  if negb (ok resp) then
    log_error (LDownloadFailed (resp_status resp) (resp_statusText resp)) ;;
    exit 1
  else
    receive env t tDownloadStart.

(** The [catch (err)] of the download [try]; its write is not guarded. *)
Definition download_catch (env : Env) (t : Target) (err : Error) : M unit :=
  log_error (LDownloadError (message err)) ;;
  ts <- date_now (epoch env) ;;
  let errorResults :=
    mkErrorResults ts (txid t) (rawUrl t) (gateway t)
                   (or_else (message err) (error_toString err)) (stack err) in
  ts' <- date_now (epoch env) ;;
  let errorFilename :=
    "arweave-read-error-" ++ txid t ++ "-" ++ show_Z ts' ++ ".json" in
  emit (WriteFile errorFilename (ErrorJson errorResults)) ;;
  settle (writeFile env errorFilename) ;;
  log_error (LErrorSaved errorFilename) ;;
  exit 1.

(** "Now download the full raw data". *)
Definition download_phase (env : Env) (t : Target) : M unit :=
  log LDownloading ;;
  tDownloadStart <- now ;;
  try_catch "download" (download_try env t tDownloadStart) (download_catch env t).

(** The command line and the opening lines. *)
Definition setup (env : Env) : M Target :=
  let txid := nth_error (argv env) 0 in
  let gatewayArg := nth_error (argv env) 1 in
  if negb (truthy txid) then
    log_error LUsage ;; log_error LUsageExample ;; exit 1
  else
    let txid := str_of txid in
    let gateway := or_else (str_of gatewayArg) "https://arweave.net" in
    let rawUrl := strip_trailing_slash gateway ++ "/raw/" ++ txid in
    let txUrl := strip_trailing_slash gateway ++ "/" ++ txid in
    log (LReading txid) ;;
    log (LGateway gateway) ;;
    log (LRawUrl rawUrl) ;;
    log (LTxUrl txUrl) ;;
    log LBlank ;;
    ret (mkTarget txid gateway rawUrl txUrl).

(** Everything before the download. *)
Definition before_download (env : Env) : M Target :=
  t <- setup env ;;
  metadata_phase env (gateway t) (txid t) ;;
  head_phase env (rawUrl t) ;;
  ret t.

(** The body of the outer [try]. *)
Definition main_body (env : Env) : M unit :=
  t <- before_download env ;;
  download_phase env t.

(** The outer [catch (err)]: it only logs. *)
Definition outer_catch (err : Error) : M unit :=
  log_error (LFatal err) ;; exit 1.

Definition main (env : Env) : M unit :=
  try_catch "outer" (main_body env) outer_catch.

Definition start : World := mkWorld 0 [] vars_init.

(** A run from a fresh process: its events and its exit status. *)
Definition run (env : Env) : list Event * Z :=
  let '(w, r) := main env start in (trace w, exit_code r).

(** ** Vocabulary of the statements about the read test *)

(** The chunks a body stream delivers before it ends or fails. *)
Fixpoint received (s : Stream) : list Buffer :=
  match s with
  | Chunk _ value rest => value :: received rest
  | _ => []
  end.

(** The progress policy in the words of the specification: the expected
    size is known and nonzero, and [downloaded mod 10MiB < chunk length]. *)
Definition progress_due (expected : Num) (downloaded len : Z) : Prop :=
  num_gtb expected (Int 0) = true /\ downloaded mod 10485760 < len.

Definition progress_dueb (expected : Num) (downloaded len : Z) : bool :=
  num_gtb expected (Int 0) && (downloaded mod 10485760 <? len).

(** The events that policy asks of a download that has [downloaded] bytes
    so far and receives [chunks]: one read per chunk, followed by a
    progress line exactly when one is due. *)
Fixpoint policy_events (expected : Num) (downloaded : Z) (chunks : list Buffer)
  : list Event :=
  match chunks with
  | [] => []
  | value :: rest =>
      let d := downloaded + buffer_length value in
      Call "read"
        :: (if progress_dueb expected d (buffer_length value)
            then [Stdout (LProgress d expected)] else [])
        ++ policy_events expected d rest
  end.

(** The size the metadata declares, as the script reads it: 0 unless the
    metadata request resolves with an ok status and a JSON document. *)
Definition declared_size (env : Env) : Num :=
  match snd (meta env) with
  | Resolved metaResp =>
      if ok metaResp then
        match meta_json env with
        | Resolved metadata =>
            parseInt10 (or_else (str_of (data_size metadata)) "0")
        | Rejected _ => Int 0
        end
      else Int 0
  | Rejected _ => Int 0
  end.

(** What the reports and the size verification lines of a run say. *)
Definition size_checked (env : Env) (ev : Event) : Prop :=
  match ev with
  | WriteFile _ (ResultsJson r) =>
      (metadata_expectedSize r = Int 0 \/ metadata_expectedSize r = declared_size env)
      /\ verification_sizeMatch r
         = sizeMatch (metadata_expectedSize r) (download_actualSize r)
  | Stdout (LSizePass e) =>
      num_gtb e (Int 0) = true /\ (e = Int 0 \/ e = declared_size env)
  | Stdout (LSizeFail e _) =>
      num_gtb e (Int 0) = true /\ (e = Int 0 \/ e = declared_size env)
  | _ => True
  end.

Definition is_size_line (ev : Event) : bool :=
  match ev with
  | Stdout (LSizePass _) => true
  | Stdout (LSizeFail _ _) => true
  | _ => false
  end.

Definition is_catch (handler : string) (ev : Event) : bool :=
  match ev with
  | Caught h _ => String.eqb h handler
  | _ => false
  end.

(** Bytes delivered by a list of chunks. *)
Fixpoint total (chunks : list Buffer) : Z :=
  match chunks with
  | [] => 0
  | value :: rest => buffer_length value + total rest
  end.

(** The invariant of [expectedSize]: still 0, or the declared size. *)
Definition size_known (env : Env) (v : Vars) : Prop :=
  expectedSize v = Int 0 \/ expectedSize v = declared_size env.

(** The metadata gives no usable size. *)
Definition no_declared_size (env : Env) : Prop :=
  (exists e, snd (meta env) = Rejected e) \/
  (exists metaResp, snd (meta env) = Resolved metaResp /\ ok metaResp = false) \/
  (exists metaResp e,
      snd (meta env) = Resolved metaResp /\ ok metaResp = true /\
      meta_json env = Rejected e) \/
  (exists metaResp metadata,
      snd (meta env) = Resolved metaResp /\ ok metaResp = true /\
      meta_json env = Resolved metadata /\
      parseInt10 (or_else (str_of (data_size metadata)) "0") = Int 0).

(** A script that cannot end with an exception. *)
Definition never_throws {A} (m : M A) : Prop :=
  forall w w' e, m w <> (w', Throw e).

(** A script that cannot end with [process.exit]. *)
Definition never_exits {A} (m : M A) : Prop :=
  forall w w' c, m w <> (w', Exit c).

(** Events other than an attempt to write a file. *)
Definition is_write (ev : Event) : bool :=
  match ev with
  | WriteFile _ _ => true
  | _ => false
  end.

Definition no_write (ev : Event) : Prop := is_write ev = false.

(** No condition on the variables. *)
Definition any (_ : Vars) : Prop := True.

(** Events other than the entries into the download and outer [catch]. *)
Definition inner (ev : Event) : Prop :=
  is_catch "download" ev = false /\ is_catch "outer" ev = false.

(** The state in which the download [try] is entered. *)
Definition downloading (w0 : World) : World :=
  mkWorld (clock w0) (trace w0 ++ [Stdout LDownloading]) (vars w0).

(** ** Sample environments *)

Definition response (status : Z) (text : string) : Response :=
  mkResponse status text (fun _ => None) (Resolved []).

Definition sample_env (size : option string) (body : Stream)
    (write : string -> Outcome unit) : Env :=
  mkEnv ["TXID"] 1700000000000
        (20000000%N, Resolved (response 200 "OK"))
        (Resolved (mkMetadata size None))
        (fun s => s)
        (10000000%N, Resolved (response 200 "OK"))
        (40000000%N, Resolved (response 200 "OK"))
        body
        (fun _ => "00ff")
        write.

Definition disk_full : Error := mkError "Error" "ENOSPC: no space left on device" EmptyString.
Definition reset : Error := mkError "TypeError" "terminated" EmptyString.

(** Metadata that declares 4 bytes and carries a tag entry that cannot be
    decoded. *)
Definition bad_tags_env : Env :=
  mkEnv ["TXID"] 1700000000000
        (20000000%N, Resolved (response 200 "OK"))
        (Resolved (mkMetadata (Some "4") (Some [BadTag reset])))
        (fun s => s)
        (10000000%N, Resolved (response 200 "OK"))
        (40000000%N, Resolved (response 200 "OK"))
        (Chunk 5 (repeat "x"%byte 4) (Done 1))
        (fun _ => "00ff")
        (fun _ => Resolved tt).

End Read.


(* ===================================================================== *)
(** * How a script starts and ends *)
(* ===================================================================== *)

Module Ends.
Import Js Run.
Local Open Scope list_scope.

Section Ends.
Context {Line File Vars : Type}.

(** The last thing a run did, if it did anything. *)
Definition last_event (tr : list (Event Line File)) : option (Event Line File) :=
  List.last (map Some tr) None.

(** [exits Q m]: whenever the script [m] ends the process, [Q] holds of
    the trace so far and of the exit status. *)
Definition exits (Q : list (Event Line File) -> Z -> Prop) {A}
    (m : M Line File Vars A) : Prop :=
  forall w w' c, m w = (w', Exit c) -> Q (trace w') c.

(** [yields Q m]: whenever [m] runs to its end, [Q] holds of the trace. *)
Definition yields (Q : list (Event Line File) -> Prop) {A}
    (m : M Line File Vars A) : Prop :=
  forall w w' a, m w = (w', Val a) -> Q (trace w').

(** [starts ev m]: the first thing the script [m] does is [ev]. *)
Definition starts (ev : Event Line File) {A} (m : M Line File Vars A) : Prop :=
  forall w w' r, m w = (w', r) -> exists evs, trace w' = trace w ++ ev :: evs.

End Ends.
End Ends.

(* ===================================================================== *)
(** * Vocabulary of further statements about the upload test *)
(* ===================================================================== *)

Module LatencyVocab.
Import Js SizeParser Run Latency Ends.
Local Open Scope string_scope.
Local Open Scope Z_scope.

(** The text the poll loop keeps of the k-th HEAD probe: the status line
    of its response, or the message of the error it threw. *)
Definition probe_status (env : Env) (k : nat) : string :=
  match snd (head env k) with
  | Resolved hd => show_Z (resp_status hd) ++ " " ++ resp_statusText hd
  | Rejected e => or_else (message e) "fetch error"
  end.

(** What holds between the state at the head of the loop and its final
    state, whatever the probes answer. *)
Record bounded (v : PollVars) (w : World) (r : PollVars * World) : Prop := {
  bd_waited : waitedMs (fst r) = Z.of_nat (sleeps (fst r)) * pollIntervalMs;
  bd_max : waitedMs (fst r) <= maxWaitMs + pollIntervalMs;
  bd_shape : (attempts (fst r) = sleeps (fst r) /\ maxWaitMs < waitedMs (fst r)) \/
             (attempts (fst r) = S (sleeps (fst r)) /\ available (fst r) = true /\
              waitedMs (fst r) <= maxWaitMs);
  bd_probes : (count is_probe (trace (snd r)) + attempts v =
               count is_probe (trace w) + attempts (fst r))%nat;
  bd_sleeps : (count is_sleep (trace (snd r)) + sleeps v =
               count is_sleep (trace w) + sleeps (fst r))%nat;
  bd_clock : (clock w + N.of_nat (sleeps (fst r) - sleeps v) * 2000000000
              <= clock (snd r))%N;
  bd_mono : (sleeps v <= sleeps (fst r))%nat
}.

(** A command line that lacks the key file or the size. *)
Definition missing_args (env : Env) : bool :=
  is_falsy (nth_error (argv env) 0) || is_falsy (nth_error (argv env) 1).

Definition is_usage (ev : Event) : bool :=
  match ev with
  | Stderr LUsage => true
  | _ => false
  end.

Definition is_write (ev : Event) : bool :=
  match ev with
  | WriteFile _ _ => true
  | _ => false
  end.

(** How the upload test may end: the last event of the run and the exit
    status that goes with it. *)
Definition proper_end (tr : list Event) (code : Z) : Prop :=
  match last_event tr with
  | Some (Stdout LStopping) => code = 0
  | Some (Stdout (LSaved _)) => code = 0
  | Some (Stderr _) => code = 1
  | _ => False
  end.

(** What a report says about the run that wrote it. *)
Record consistent (env : Env) (path : string) (r : Results) : Prop := {
  cons_path : path = "arweave-test-" ++ transaction_id r ++ ".json";
  cons_txid : sign env = Resolved (transaction_id r);
  cons_gateway :
    gateway r = or_else (str_of (nth_error (argv env) 2)) "https://arweave.net";
  cons_url :
    transaction_url r = strip_trailing_slash (gateway r) ++ "/" ++ transaction_id r;
  cons_size_arg : fileSize_humanReadable r = str_of (nth_error (argv env) 1);
  cons_size : parseSize (fileSize_humanReadable r) = Returned (fileSize_bytes r);
  cons_available : gatewayAvailability_available r = true;
  cons_status : gatewayAvailability_lastStatus r <> EmptyString;
  cons_latencies :
    0 <= upload_latencyMs r /\ 0 <= gatewayAvailability_latencyMs r /\
    0 <= download_latencyMs r
}.

Definition report_consistent (env : Env) (ev : Event) : Prop :=
  match ev with
  | WriteFile path (ResultsJson r) => consistent env path r
  | _ => True
  end.

(** The one address the script itself sends requests to with [fetch]:
    the gateway of the command line, one trailing slash removed, then
    the transaction id.  What the Arweave client sends to upload is a
    matter of its calls, not of these. *)
Definition request_to (env : Env) (ev : Event) : Prop :=
  match ev with
  | Fetch method url =>
      (method = "HEAD" \/ method = "GET") /\
      exists txid,
        sign env = Resolved txid /\
        url = strip_trailing_slash
                (or_else (str_of (nth_error (argv env) 2)) "https://arweave.net")
              ++ "/" ++ txid
  | _ => True
  end.

(** Calls of [uploader.uploadChunk()] that resolve. *)
Definition call_resolves (c : N * Outcome unit) : Prop := snd c = Resolved tt.

Definition is_upload_call (ev : Event) : bool :=
  match ev with
  | Call fn => String.eqb fn "uploadChunk"
  | _ => false
  end.

Definition is_fetch (ev : Event) : bool :=
  match ev with
  | Fetch _ _ => true
  | _ => false
  end.

(** A command line and a client with which the script gets as far as
    its chunk loop. *)
Record reaches_upload (env : Env) : Prop := {
  ru_args : missing_args env = false;
  ru_size : exists n data,
      parseSize (str_of (nth_error (argv env) 1)) = Returned n /\
      randomBytes env n = Resolved data /\
      createTransaction env data = Resolved tt;
  ru_key : readFile env (str_of (nth_error (argv env) 0)) = Resolved tt;
  ru_sign : exists txid, sign env = Resolved txid;
  ru_uploader : getUploader env = Resolved tt
}.

(** What the script knows of its command line once the upload is done. *)
Definition uploaded_from (env : Env) (u : Uploaded) : Prop :=
  up_gateway u = or_else (str_of (nth_error (argv env) 2)) "https://arweave.net" /\
  up_sizeArg u = str_of (nth_error (argv env) 1) /\
  parseSize (up_sizeArg u) = Returned (up_sizeBytes u) /\
  sign env = Resolved (up_txid u) /\
  0 <= up_uploadMs u.

(** A client on which the second call of [uploadChunk] rejects. *)
Definition hang_up : Error := mkError "Error" "socket hang up" EmptyString.

Definition failing_upload_env : Env :=
  mkEnv ["key.json"; "3"] 1700000000000
        (fun _ => Resolved tt)
        fill
        (fun _ => Resolved tt)
        (Resolved "TXID")
        (Resolved tt)
        [(5000000%N, Resolved tt); (7000000%N, Rejected hang_up);
         (5000000%N, Resolved tt)]
        (fun _ => (30000000%N, Resolved (response 200 "OK" [])))
        (fun _ => 0%N)
        (90000000%N, Resolved (response 200 "OK" payload))
        (fun _ => Resolved tt).

(** A gateway that serves the HEAD probe at once and then answers the
    download with a server error. *)
Definition broken_download_env : Env :=
  mkEnv ["key.json"; "3"; "http://localhost:1984/"] 1700000000000
        (fun _ => Resolved tt)
        fill
        (fun _ => Resolved tt)
        (Resolved "TXID")
        (Resolved tt)
        [(5000000%N, Resolved tt)]
        (fun _ => (30000000%N, Resolved (response 200 "OK" [])))
        (fun _ => 0%N)
        (90000000%N, Resolved (response 502 "Bad Gateway" []))
        (fun _ => Resolved tt).

End LatencyVocab.

(* ===================================================================== *)
(** * Vocabulary of further statements about the read test *)
(* ===================================================================== *)

Module ReadVocab.
Import Js Run Read Ends.
Local Open Scope string_scope.
Local Open Scope Z_scope.

(** What the command line asks to read. *)
Definition target_of (env : Env) : Target :=
  let txid := str_of (nth_error (argv env) 0) in
  let gateway := or_else (str_of (nth_error (argv env) 1)) "https://arweave.net" in
  mkTarget txid gateway
           (strip_trailing_slash gateway ++ "/raw/" ++ txid)
           (strip_trailing_slash gateway ++ "/" ++ txid).


(** The error a body stream ends with, if it does. *)
Fixpoint stream_error (s : Stream) : option Error :=
  match s with
  | Done _ => None
  | Failed _ e => Some e
  | Chunk _ _ rest => stream_error rest
  end.

Definition is_usage (ev : Event) : bool :=
  match ev with
  | Stderr LUsage => true
  | _ => false
  end.

Definition is_progress (ev : Event) : bool :=
  match ev with
  | Stdout (LProgress _ _) => true
  | _ => false
  end.

Definition is_read (ev : Event) : bool :=
  match ev with
  | Call fn => String.eqb fn "read"
  | _ => false
  end.

(** Events of the download phase. *)
Definition is_download (ev : Event) : bool :=
  match ev with
  | Stdout LDownloading => true
  | Call _ => true
  | WriteFile _ _ => true
  | _ => false
  end.

Definition is_report (ev : Event) : bool :=
  match ev with
  | WriteFile _ (ResultsJson _) => true
  | _ => false
  end.

(** The three requests of the read test: the metadata, then the HEAD
    probe and the download of the raw endpoint. *)
Definition request_of (env : Env) (ev : Event) : Prop :=
  match ev with
  | Fetch method url =>
      let t := target_of env in
      (method = "GET" /\ url = strip_trailing_slash (gateway t) ++ "/tx/" ++ txid t) \/
      (method = "HEAD" /\ url = rawUrl t) \/
      (method = "GET" /\ url = rawUrl t)
  | _ => True
  end.

(** How the read test may end: the last event of the run and the exit
    status that goes with it. *)
Definition proper_end (tr : list Event) (code : Z) : Prop :=
  match last_event tr with
  | Some (Stdout (LSaved _)) => code = 0
  | Some (Stderr _) => code = 1
  | _ => False
  end.

(** The 10 MiB blocks completed by [n] downloaded bytes. *)
Definition blocks (n : Z) : Z := n / 10485760.

(** What the variables hold when the download starts. *)
Definition ready (env : Env) (v : Vars) : Prop :=
  expectedSize v = declared_size env /\ contentType v <> EmptyString.

(** What a report says about the run that wrote it. *)
Record consistent (env : Env) (path : string) (r : Results) : Prop := {
  cons_path :
    exists ts, path = "arweave-read-" ++ transaction_id r ++ "-" ++ show_Z ts ++ ".json";
  cons_txid : transaction_id r = str_of (nth_error (argv env) 0);
  cons_gateway :
    transaction_gateway r
    = or_else (str_of (nth_error (argv env) 1)) "https://arweave.net";
  cons_rawUrl :
    transaction_rawUrl r
    = strip_trailing_slash (transaction_gateway r) ++ "/raw/" ++ transaction_id r;
  cons_txUrl :
    transaction_txUrl r
    = strip_trailing_slash (transaction_gateway r) ++ "/" ++ transaction_id r;
  cons_expected : metadata_expectedSize r = declared_size env;
  cons_type : metadata_responseContentType r <> EmptyString;
  cons_actual : download_actualSize r = total (received (reads env));
  cons_chunks : download_chunks r = List.length (received (reads env));
  cons_bytes : fileSize_bytes r = download_actualSize r;
  cons_hash :
    verification_sha256Hash r = sha256 env (List.concat (received (reads env)));
  cons_html :
    verification_looksLikeHTML r = looksLikeHTML (List.concat (received (reads env)));
  cons_match :
    verification_sizeMatch r
    = sizeMatch (declared_size env) (total (received (reads env)));
  cons_complete : stream_error (reads env) = None;
  cons_latency : 0 <= download_downloadLatencyMs r
}.

Definition report_consistent (env : Env) (ev : Event) : Prop :=
  match ev with
  | WriteFile path (ResultsJson r) => consistent env path r
  | _ => True
  end.

(** A command line without arguments. *)
Definition bare_env : Env :=
  mkEnv [] 1700000000000
        (0%N, Rejected reset)
        (Rejected reset)
        (fun s => s)
        (0%N, Rejected reset)
        (0%N, Rejected reset)
        (Done 0)
        (fun _ => EmptyString)
        (fun _ => Rejected disk_full).


(** A gateway that passes the HEAD probe and then refuses the download. *)
Definition refusing_env : Env :=
  mkEnv ["TXID"] 1700000000000
        (20000000%N, Rejected reset)
        (Resolved (mkMetadata None None))
        (fun s => s)
        (10000000%N, Resolved (response 200 "OK"))
        (40000000%N, Resolved (response 503 "Service Unavailable"))
        (Done 1)
        (fun _ => "00ff")
        (fun _ => Resolved tt).

End ReadVocab.

(* ===================================================================== *)
(** * The test driver, [run_tests.sh] *)
(* ===================================================================== *)

Module Driver.
Import Js SizeParser Run.
Local Open Scope string_scope.
Local Open Scope Z_scope.
Local Open Scope list_scope.

(** The lines [run_tests.sh] prints, one constructor per [echo]. *)
Inductive Line : Type :=
| LWalletNotFound (walletFile : string)
| LStarting (sizes : nat)
| LRule
| LBlank
| LTesting (size : string)
| LCompleted (size : string)
| LFailed (size : string)
| LWaiting
| LAllCompleted
| LResultsSaved.

(** What the shell script does: it prints, it runs the upload test with
    some arguments, it sleeps. *)
Inductive Step : Type :=
| Echo (l : Line)
| Node (args : list string)
| SleepSec (seconds : Z).

Definition WALLET_FILE : string :=
  "arweave-keyfile-_uNxWVn_U9mEQKadjYe5BsgZ7Rd5CHVJRq56-7NYPG4.json".

Definition SIZES : list string := ["10KB"; "10MB"; "20MB"; "30MB"; "70MB"; "130MB"].

(** The world of one run of the script: whether the wallet file is
    there, and what the k-th run of the upload test meets. *)
Record Env : Type := mkEnv {
  wallet_exists : bool;                     (* [ -f "$WALLET_FILE" ] *)
  outside : nat -> Latency.Env
}.

(** The world of an upload test started with the arguments [args]. *)
Definition with_argv (args : list string) (e : Latency.Env) : Latency.Env :=
  Latency.mkEnv args (Latency.epoch e) (Latency.readFile e) (Latency.randomBytes e)
                (Latency.createTransaction e) (Latency.sign e) (Latency.getUploader e)
                (Latency.uploadChunk e) (Latency.head e) (Latency.sleep_late e)
                (Latency.get e) (Latency.writeFile e).

(** [node arweave_latency.js args], run for the k-th time: its [$?]. *)
Definition node (env : Env) (k : nat) (args : list string) : Z :=
  snd (Latency.run (with_argv args (outside env k))).

(** [for SIZE in "${SIZES[@]}"; do ... done], from the k-th test on. *)
Fixpoint tests (env : Env) (k : nat) (sizes : list string) : list Step :=
  match sizes with
  | [] => []
  | size :: rest =>
      [Echo LBlank; Echo LRule; Echo (LTesting size); Echo LRule;
       Node [WALLET_FILE; size];
       Echo (if node env k [WALLET_FILE; size] =? 0
             then LCompleted size else LFailed size);
       Echo LWaiting; SleepSec 5]
      ++ tests env (S k) rest
  end.

(** The script: what it does and its exit status. *)
Definition script (env : Env) : list Step * Z :=
  if negb (wallet_exists env) then
    ([Echo (LWalletNotFound WALLET_FILE)], 1)
  else
    ([Echo (LStarting (List.length SIZES)); Echo LRule]
       ++ tests env 0 SIZES
       ++ [Echo LBlank; Echo LRule; Echo LAllCompleted; Echo LResultsSaved; Echo LRule],
     0).

(** The upload tests a run starts, by their arguments. *)
Fixpoint invocations (steps : list Step) : list (list string) :=
  match steps with
  | [] => []
  | Node args :: rest => args :: invocations rest
  | _ :: rest => invocations rest
  end.

(** The verdicts a run prints, by size. *)
Fixpoint verdicts (steps : list Step) : list (string * bool) :=
  match steps with
  | [] => []
  | Echo (LCompleted size) :: rest => (size, true) :: verdicts rest
  | Echo (LFailed size) :: rest => (size, false) :: verdicts rest
  | _ :: rest => verdicts rest
  end.

(** The verdicts the exit statuses of the tests call for. *)
Fixpoint expected_verdicts (env : Env) (k : nat) (sizes : list string)
  : list (string * bool) :=
  match sizes with
  | [] => []
  | size :: rest =>
      (size, node env k [WALLET_FILE; size] =? 0) :: expected_verdicts env (S k) rest
  end.

(** A machine with the wallet file on which every upload test meets the
    same gateway. *)
Definition sample_env : Env :=
  mkEnv true (fun _ => Latency.sample_env [] 1 Latency.payload).

Definition no_wallet_env : Env :=
  mkEnv false (fun _ => Latency.sample_env [] 1 Latency.payload).

End Driver.

(* ===================================================================== *)
(** * Properties of the size parser *)
(* ===================================================================== *)

Module SizeParserFacts.
Import Js SizeParser.

Lemma span_append p ds u :
  all_chars p ds = true ->
  match u with EmptyString => true | String c _ => negb (p c) end = true ->
  span p (ds ++ u) = (ds, u).
Proof.
  intros Hds Hu. induction ds as [| c ds IH]; simpl in *.
  - destruct u as [| c r]; [reflexivity |]. simpl.
    destruct (p c); [discriminate | reflexivity].
  - apply andb_true_iff in Hds as [Hc Hr]. rewrite Hc, (IH Hr). reflexivity.
Qed.

Lemma span_sound p s ds u :
  span p s = (ds, u) ->
  s = ds ++ u /\ all_chars p ds = true /\
  match u with EmptyString => true | String c _ => negb (p c) end = true.
Proof.
  revert ds u. induction s as [| c s IH]; simpl; intros ds u H.
  - inversion H; subst. auto.
  - destruct (p c) eqn:Hc.
    + destruct (span p s) as [a b] eqn:Hs. inversion H; subst.
      destruct (IH _ _ eq_refl) as (-> & Ha & Hb).
      simpl. rewrite Hc, Ha. auto.
    + inversion H; subst. simpl. rewrite Hc. auto.
Qed.

Lemma is_KMG_not_digit c : is_KMG c = true -> is_digit c = false.
Proof.
  destruct c as [[] [] [] [] [] [] [] []]; vm_compute; congruence.
Qed.

Lemma is_B_not_digit c : is_B c = true -> is_digit c = false.
Proof.
  destruct c as [[] [] [] [] [] [] [] []]; vm_compute; congruence.
Qed.

Lemma is_KMG_not_B c : is_KMG c = true -> is_B c = false.
Proof.
  destruct c as [[] [] [] [] [] [] [] []]; vm_compute; congruence.
Qed.

Lemma unit_lang_no_digit u :
  unit_lang u ->
  match u with EmptyString => true | String c _ => negb (is_digit c) end = true.
Proof.
  intros [| c Hc | c Hc | c d Hc Hd]; simpl; auto;
    try (rewrite (is_B_not_digit _ Hc); reflexivity);
    rewrite (is_KMG_not_digit _ Hc); reflexivity.
Qed.

(** The greedy reading of the pattern finds a match exactly when the
    pattern has one, and then it is that one. *)
Lemma size_match_spec str ds u :
  size_match str = Some (ds, u) <-> re_match str ds u.
Proof.
  unfold size_match, re_match. split.
  - destruct (span is_digit str) as [a b] eqn:Hs.
    destruct (span_sound _ _ Hs) as (-> & Ha & Hb).
    destruct a as [| a0 a']; [discriminate |].
    intros H.
    assert (Hu : unit_lang b /\ ds = String a0 a' /\ u = b).
    { destruct b as [| c r]; [inversion H; split; [constructor | auto] |].
      destruct (is_KMG c) eqn:Hk.
      - destruct r as [| c' r']; [inversion H; split; [now apply UL_k | auto] |].
        destruct (is_B c') eqn:Hb'; [| discriminate].
        destruct r'; [| discriminate].
        inversion H. split; [now apply UL_kb | auto].
      - destruct (is_B c) eqn:Hb'; [| discriminate].
        destruct r; [| discriminate].
        inversion H. split; [now apply UL_b | auto]. }
    destruct Hu as (Hu & -> & ->). repeat split; auto. discriminate.
  - intros (-> & Hne & Hds & Hu).
    rewrite (span_append _ _ _ Hds (unit_lang_no_digit Hu)).
    destruct ds as [| d0 ds']; [congruence |].
    destruct Hu as [| c Hc | c Hc | c d Hc Hd]; try reflexivity.
    + destruct (is_KMG c) eqn:Hk; [| rewrite Hc; reflexivity].
      rewrite (is_KMG_not_B _ Hk) in Hc. discriminate.
    + rewrite Hc. reflexivity.
    + rewrite Hc, Hd. reflexivity.
Qed.

Lemma append_empty_r (s : string) : s ++ EmptyString = s.
Proof. induction s as [| c s IH]; simpl; [| rewrite IH]; reflexivity. Qed.

Lemma digit_not_space c : is_digit c = true -> is_space c = false.
Proof.
  destruct c as [[] [] [] [] [] [] [] []]; vm_compute; congruence.
Qed.

Lemma digit_not_sign c :
  is_digit c = true -> c <> "-"%char /\ c <> "+"%char.
Proof.
  destruct c as [[] [] [] [] [] [] [] []]; vm_compute; intros H; split; congruence.
Qed.

(** *** Doubles *)

Lemma round53_exact m : m < safe_bound -> round53 m = m.
Proof.
  intros H. unfold round53.
  replace (m <? safe_bound) with true by (symmetry; apply Z.ltb_lt; exact H).
  reflexivity.
Qed.

Lemma to_double_exact z : 0 <= z < safe_bound -> to_double z = z.
Proof.
  intros [H0 H]. unfold to_double.
  replace (z <? 0) with false by (symmetry; apply Z.ltb_ge; exact H0).
  apply round53_exact, H.
Qed.

Lemma round53_nonneg m : 0 <= m -> 0 <= round53 m.
Proof.
  intros H. unfold round53. destruct (m <? safe_bound); [exact H |].
  cbv zeta. set (e := Z.log2 m - 52).
  assert (Hpe : 0 <= 2 ^ e) by (apply Z.pow_nonneg; lia).
  assert (Hq : 0 <= m / 2 ^ e) by (apply Z_div_nonneg_nonneg; assumption).
  destruct (_ || _); apply Z.mul_nonneg_nonneg; lia.
Qed.

Lemma to_double_nonneg z : 0 <= z -> 0 <= to_double z.
Proof.
  intros H. unfold to_double.
  replace (z <? 0) with false by (symmetry; apply Z.ltb_ge; exact H).
  apply round53_nonneg, H.
Qed.

(** A double below 2^53 scaled by a power of two is a double: the
    products by 1024 of [parseSize] are exact on such numbers. *)
Lemma to_double_scaled x k :
  0 <= x < safe_bound -> 0 <= k -> to_double (x * 2 ^ k) = x * 2 ^ k.
Proof.
  intros [H0 Hx] Hk.
  assert (Hp : 0 < 2 ^ k) by (apply Z.pow_pos_nonneg; lia).
  unfold to_double.
  replace (x * 2 ^ k <? 0) with false by (symmetry; apply Z.ltb_ge; nia).
  unfold round53.
  destruct (x * 2 ^ k <? safe_bound) eqn:Hlt; [reflexivity |].
  apply Z.ltb_ge in Hlt.
  assert (Hxpos : 0 < x) by (unfold safe_bound in *; nia).
  set (e := Z.log2 (x * 2 ^ k) - 52).
  assert (Hlog : Z.log2 (x * 2 ^ k) = k + Z.log2 x)
    by (apply Z.log2_mul_pow2; lia).
  assert (Hlx : Z.log2 x < 53)
    by (apply Z.log2_lt_pow2; [exact Hxpos | exact Hx]).
  assert (Hl53 : 53 <= Z.log2 (x * 2 ^ k))
    by (apply Z.log2_le_pow2; [nia | exact Hlt]).
  assert (He : 1 <= e <= k) by (unfold e; lia).
  assert (Hsplit : x * 2 ^ k = (x * 2 ^ (k - e)) * 2 ^ e).
  { rewrite <- Z.mul_assoc, <- Z.pow_add_r by lia. f_equal. f_equal. lia. }
  assert (Hpe : 0 < 2 ^ e) by (apply Z.pow_pos_nonneg; lia).
  assert (Hr : (x * 2 ^ k) mod 2 ^ e = 0)
    by (rewrite Hsplit; apply Z.mod_mul; lia).
  assert (Hq : (x * 2 ^ k) / 2 ^ e = x * 2 ^ (k - e))
    by (rewrite Hsplit; apply Z.div_mul; lia).
  assert (Hh : 0 < 2 ^ (e - 1)) by (apply Z.pow_pos_nonneg; lia).
  rewrite Hr, Hq.
  replace (2 ^ (e - 1) <? 0) with false by (symmetry; apply Z.ltb_ge; lia).
  replace (0 =? 2 ^ (e - 1)) with false by (symmetry; apply Z.eqb_neq; lia).
  cbn [orb andb]. symmetry. exact Hsplit.
Qed.

Lemma digit_val_range c : is_digit c = true -> 0 <= digit_val c <= 9.
Proof.
  unfold is_digit, digit_val. intros H.
  apply andb_true_iff in H as [H1 H2].
  apply N.leb_le in H1, H2. lia.
Qed.

Lemma digits_value_nonneg ds :
  forall acc, 0 <= acc -> all_chars is_digit ds = true -> 0 <= digits_value acc ds.
Proof.
  induction ds as [| c r IH]; simpl; intros acc Hacc H; [exact Hacc |].
  apply andb_true_iff in H as [Hc Hr].
  apply IH; [| exact Hr]. pose proof (digit_val_range _ Hc). lia.
Qed.

(** [parseInt] of a run of digits is the double nearest to its decimal
    value. *)
Lemma parseInt10_digits ds :
  ds <> EmptyString -> all_chars is_digit ds = true ->
  parseInt10 ds = Int (to_double (digits_value 0 ds)).
Proof.
  intros Hne Hds. destruct ds as [| c r]; [congruence |].
  pose proof Hds as Hall.
  simpl in Hds. apply andb_true_iff in Hds as [Hc Hr].
  unfold parseInt10. cbn [drop_while]. rewrite (digit_not_space _ Hc).
  destruct (digit_not_sign _ Hc) as [Hm Hp].
  assert (Hsign :
    match String c r with
    | String "-"%char r0 => (true, r0)
    | String "+"%char r0 => (false, r0)
    | _ => (false, String c r)
    end = (false, String c r)).
  { destruct c as [[] [] [] [] [] [] [] []]; try reflexivity; congruence. }
  rewrite Hsign.
  pose proof (span_append is_digit (String c r) EmptyString Hall eq_refl) as Hsp.
  rewrite append_empty_r in Hsp.
  rewrite Hsp. reflexivity.
Qed.

Lemma spec_unit_lang u : spec_unit u -> unit_lang u.
Proof.
  unfold spec_unit. intros H.
  destruct u as [| c [| d [| x r]]]; simpl in H.
  - constructor.
  - apply UL_b. unfold is_B.
    destruct H as [H | [H | [H | [H | H]]]]; inversion H.
    apply Ascii.eqb_refl.
  - destruct H as [H | [H | [H | [H | H]]]]; inversion H as [[H1 H2]];
      apply UL_kb; unfold is_KMG, is_B; rewrite ?H1, ?H2; reflexivity.
  - destruct H as [H | [H | [H | [H | H]]]]; inversion H.
Qed.

Lemma returned_scaled v u :
  0 <= v < safe_bound ->
  (if String.eqb (toUpperCase u) "KB" then Returned (num_mul (Int v) (Int 1024))
   else if String.eqb (toUpperCase u) "MB"
        then Returned (num_mul (num_mul (Int v) (Int 1024)) (Int 1024))
   else if String.eqb (toUpperCase u) "GB"
        then Returned
               (num_mul (num_mul (num_mul (Int v) (Int 1024)) (Int 1024)) (Int 1024))
   else Returned (Int v))
  = Returned (Int (v * multiplier u)).
Proof.
  intros Hv. unfold multiplier, num_mul.
  assert (H1 : to_double (v * 1024) = v * 1024)
    by (change 1024 with (2 ^ 10); apply to_double_scaled; [exact Hv | lia]).
  assert (H2 : to_double (v * 1024 * 1024) = v * 1024 * 1024).
  { replace (v * 1024 * 1024) with (v * 2 ^ 20) by (change (2 ^ 20) with 1048576; ring).
    apply to_double_scaled; [exact Hv | lia]. }
  assert (H3 : to_double (v * 1024 * 1024 * 1024) = v * 1024 * 1024 * 1024).
  { replace (v * 1024 * 1024 * 1024) with (v * 2 ^ 30)
      by (change (2 ^ 30) with 1073741824; ring).
    apply to_double_scaled; [exact Hv | lia]. }
  destruct (String.eqb (toUpperCase u) "KB"); [rewrite H1; reflexivity |].
  destruct (String.eqb (toUpperCase u) "MB");
    [rewrite H1, H2; do 2 f_equal; ring |].
  destruct (String.eqb (toUpperCase u) "GB");
    [rewrite H1, H2, H3; do 2 f_equal; ring |].
  do 2 f_equal. ring.
Qed.

(** What [parseSize] returns on a token the pattern accepts, when the
    value of its digits is below 2^53. *)
Lemma parseSize_matched ds u :
  ds <> EmptyString -> all_chars is_digit ds = true -> unit_lang u ->
  digits_value 0 ds < safe_bound ->
  parseSize (ds ++ u) = Returned (Int (digits_value 0 ds * multiplier u)).
Proof.
  intros Hne Hds Hu Hb. unfold parseSize.
  assert (Hm : size_match (ds ++ u) = Some (ds, u)).
  { apply size_match_spec. repeat split; auto. }
  pose proof (@digits_value_nonneg ds 0 ltac:(lia) Hds) as H0.
  rewrite Hm, (parseInt10_digits Hne Hds), to_double_exact by lia.
  apply returned_scaled. lia.
Qed.

(** On every token the pattern accepts, [parseSize] returns a number
    that is not negative. *)
Lemma parseSize_matched_nonneg ds u :
  ds <> EmptyString -> all_chars is_digit ds = true -> unit_lang u ->
  exists z, parseSize (ds ++ u) = Returned (Int z) /\ 0 <= z.
Proof.
  intros Hne Hds Hu. unfold parseSize.
  assert (Hm : size_match (ds ++ u) = Some (ds, u)).
  { apply size_match_spec. repeat split; auto. }
  pose proof (@to_double_nonneg _ (@digits_value_nonneg ds 0 ltac:(lia) Hds)) as H0.
  rewrite Hm, (parseInt10_digits Hne Hds). unfold num_mul.
  set (v := to_double (digits_value 0 ds)) in *.
  pose proof (@to_double_nonneg (v * 1024) ltac:(lia)) as H1.
  pose proof (@to_double_nonneg (to_double (v * 1024) * 1024) ltac:(lia)) as H2.
  pose proof (@to_double_nonneg (to_double (to_double (v * 1024) * 1024) * 1024)
                ltac:(lia)) as H3.
  repeat (destruct (String.eqb _ _); [eexists; split; [reflexivity | assumption] |]).
  eexists; split; [reflexivity | assumption].
Qed.

(** C5, as stated, fails: 9007199254740993 is a valid size token (a run
    of digits and no unit) whose exact byte count is 2^53 + 1, and
    [parseSize] returns 9007199254740992 for it, the double nearest to
    that count. *)
Lemma parseSize_rounds_above_safe_bound :
  all_chars is_digit "9007199254740993" = true /\
  spec_unit EmptyString /\
  digits_value 0 "9007199254740993" * multiplier EmptyString = 9007199254740993 /\
  parseSize ("9007199254740993" ++ EmptyString) = Returned (Int 9007199254740992).
Proof.
  split; [reflexivity |]. split; [left; reflexivity |].
  split; vm_compute; reflexivity.
Qed.

(** C5, amended: on every valid size token the digits of which denote a
    value below 2^53, that is a non-empty run of decimal digits followed
    by one of the units (none), B, KB, MB, GB in any letter case,
    [parseSize] returns the decimal value of the digits times 1, 1, 1024,
    1024^2, 1024^3 respectively; in particular 10KB is 10240, 1MB is
    1048576, 1GB is 1073741824, and 500 and 500B are 500 bytes.  Below
    2^53 the digits are read exactly, and the products by 1024 of such a
    number are exact. *)
Theorem parseSize_exact :
  parseSize "10KB" = Returned (Int 10240) /\
  parseSize "1MB" = Returned (Int 1048576) /\
  parseSize "1GB" = Returned (Int 1073741824) /\
  parseSize "500" = Returned (Int 500) /\
  parseSize "500B" = Returned (Int 500) /\
  parseSize "10kb" = Returned (Int 10240) /\
  parseSize "1Mb" = Returned (Int 1048576) /\
  forall ds u,
    ds <> EmptyString -> all_chars is_digit ds = true -> spec_unit u ->
    digits_value 0 ds < safe_bound ->
    parseSize (ds ++ u) = Returned (Int (digits_value 0 ds * multiplier u)).
Proof.
  repeat (split; [reflexivity |]).
  intros ds u Hne Hds Hu Hb.
  apply parseSize_matched; auto using spec_unit_lang.
Qed.

Lemma parseSize_exact_witness :
  parseSize ("130" ++ "mB") = Returned (Int (130 * (1024 * 1024))).
Proof.
  destruct parseSize_exact as (_ & _ & _ & _ & _ & _ & _ & H).
  apply (H "130" "mB").
  - discriminate.
  - reflexivity.
  - unfold spec_unit. simpl. auto.
  - vm_compute. reflexivity.
Defined.

(** C6, as stated, fails: the token 5M has the unit suffix M, which is
    none of the five units of the claim, and [parseSize] returns a byte
    count for it. *)
Lemma parseSize_single_letter_accepted :
  ~ spec_unit (unit_suffix "5M") /\ parseSize "5M" = Returned (Int 5).
Proof.
  split; [| reflexivity].
  unfold spec_unit. simpl.
  intros [H | [H | [H | [H | H]]]]; discriminate.
Qed.

Lemma code_unit_of_lang u : unit_lang u -> code_unit u.
Proof.
  unfold code_unit, is_KMG, is_B.
  intros [| c Hc | c Hc | c d Hc Hd]; simpl.
  - auto.
  - apply Ascii.eqb_eq in Hc. rewrite Hc. auto.
  - apply orb_true_iff in Hc as [Hc | Hc];
      [apply orb_true_iff in Hc as [Hc | Hc] |];
      apply Ascii.eqb_eq in Hc; rewrite Hc; auto 10.
  - apply Ascii.eqb_eq in Hd. rewrite Hd.
    apply orb_true_iff in Hc as [Hc | Hc];
      [apply orb_true_iff in Hc as [Hc | Hc] |];
      apply Ascii.eqb_eq in Hc; rewrite Hc; auto 10.
Qed.

(** C6, amended: every token that is not a non-empty run of decimal
    digits followed by one of the units (none), B, K, M, G, KB, MB, GB
    in any letter case makes [parseSize] throw the format error, so no
    byte count is returned; 5XB, MB5 and the empty token are such
    tokens. *)
Theorem parseSize_rejects :
  parseSize "5XB" = Threw invalid_size /\
  parseSize "MB5" = Threw invalid_size /\
  parseSize EmptyString = Threw invalid_size /\
  forall str,
    digits_of str = EmptyString \/ ~ code_unit (unit_suffix str) ->
    parseSize str = Threw invalid_size /\ forall n, parseSize str <> Returned n.
Proof.
  repeat (split; [reflexivity |]).
  intros str H.
  assert (Hm : size_match str = None).
  { destruct (size_match str) as [[ds u] |] eqn:Hm; [| reflexivity].
    exfalso. apply size_match_spec in Hm.
    destruct Hm as (-> & Hne & Hds & Hu).
    unfold digits_of, unit_suffix in H.
    rewrite (span_append _ _ _ Hds (unit_lang_no_digit Hu)) in H. simpl in H.
    destruct H as [H | H]; [congruence | apply H, code_unit_of_lang, Hu]. }
  unfold parseSize. rewrite Hm. split; [reflexivity | discriminate].
Qed.

Lemma parseSize_rejects_witness :
  parseSize "12TB" = Threw invalid_size /\ forall n, parseSize "12TB" <> Returned n.
Proof.
  destruct parseSize_rejects as (_ & _ & _ & H).
  apply (H "12TB"). right.
  unfold code_unit. simpl.
  intros [E | [E | [E | [E | [E | [E | [E | E]]]]]]]; discriminate.
Defined.

End SizeParserFacts.

(* ===================================================================== *)
(** * Reasoning about runs *)
(* ===================================================================== *)

Unset Implicit Arguments.

Module RunFacts.
Import Js Run.
Local Open Scope run_scope.
Local Open Scope list_scope.

Section Emits.
Context {Line File Vars : Type}.
Abbreviation M := (Run.M Line File Vars).
Abbreviation Event := (Run.Event Line File).

(** [emits Inv P m]: started with variables that satisfy [I], the script
    [m] leaves variables that satisfy [I]; it only ever adds to the
    trace, and what it adds satisfies [P]. *)
Definition emits (Inv : Vars -> Prop) (P : Event -> Prop) {A} (m : M A) : Prop :=
  forall w w' r, Inv (vars w) -> m w = (w', r) ->
    Inv (vars w') /\ exists evs, trace w' = trace w ++ evs /\ Forall P evs.

(** [returns R m]: when [m] ends with a value, the value satisfies [R]. *)
Definition returns {A} (R : A -> Prop) (m : M A) : Prop :=
  forall w w' a, m w = (w', Val a) -> R a.

Variable Inv : Vars -> Prop.
Variable P : Event -> Prop.

Lemma emits_silent {A} (m : M A) :
  (forall w, trace (fst (m w)) = trace w /\ vars (fst (m w)) = vars w) ->
  emits Inv P m.
Proof.
  intros H w w' r Hi E. specialize (H w). rewrite E in H. simpl in H.
  destruct H as [Ht Hv]. rewrite Hv. split; [exact Hi |].
  exists []. rewrite Ht, app_nil_r. auto.
Qed.

Lemma emits_ret {A} (a : A) : emits Inv P (ret a).
Proof. apply emits_silent. auto. Qed.

Lemma emits_throw {A} e : emits Inv P (@throw Line File Vars A e).
Proof. apply emits_silent. auto. Qed.

Lemma emits_exit {A} c : emits Inv P (@exit Line File Vars A c).
Proof. apply emits_silent. auto. Qed.

Lemma emits_tick d : emits Inv P (@tick Line File Vars d).
Proof. apply emits_silent. auto. Qed.

Lemma emits_now : emits Inv P (@now Line File Vars).
Proof. apply emits_silent. auto. Qed.

Lemma emits_elapsedMs s : emits Inv P (@elapsedMs Line File Vars s).
Proof. apply emits_silent. auto. Qed.

Lemma emits_date_now e : emits Inv P (@date_now Line File Vars e).
Proof. apply emits_silent. auto. Qed.

Lemma emits_read_vars : emits Inv P (@read_vars Line File Vars).
Proof. apply emits_silent. auto. Qed.

Lemma emits_await {A} (p : N * Outcome A) : emits Inv P (@await Line File Vars A p).
Proof.
  apply emits_silent. intros w. unfold await. destruct (snd p); auto.
Qed.

Lemma emits_settle {A} (o : Outcome A) : emits Inv P (@settle Line File Vars A o).
Proof. apply emits_await. Qed.

Lemma emits_assign f : (forall v, Inv v -> Inv (f v)) -> emits Inv P (assign f).
Proof.
  intros H w w' r Hi E. inversion E; subst. simpl. split; [auto |].
  exists []. rewrite app_nil_r. auto.
Qed.

Lemma emits_emit ev : P ev -> emits Inv P (emit ev : M unit).
Proof.
  intros H w w' r Hi E. inversion E; subst. simpl. split; [exact Hi |].
  exists [ev]. auto.
Qed.

(** Sequencing, with what is known of the value passed on. *)
Lemma emits_bind_returns {A B} (R : A -> Prop) (m : M A) (f : A -> M B) :
  emits Inv P m -> returns R m -> (forall a, R a -> emits Inv P (f a)) ->
  emits Inv P (bind m f).
Proof.
  intros Hm HR Hf w w' r Hi E. unfold bind in E.
  destruct (m w) as [w1 r1] eqn:E1.
  destruct (Hm _ _ _ Hi E1) as (Hi1 & evs1 & T1 & F1).
  destruct r1 as [a | e | c].
  - destruct (Hf a (HR _ _ _ E1) _ _ _ Hi1 E) as (Hi2 & evs2 & T2 & F2).
    split; [exact Hi2 |].
    exists (evs1 ++ evs2). rewrite T2, T1, app_assoc. split; [reflexivity |].
    apply Forall_app. auto.
  - inversion E; subst. eauto.
  - inversion E; subst. eauto.
Qed.

Lemma emits_bind {A B} (m : M A) (f : A -> M B) :
  emits Inv P m -> (forall a, emits Inv P (f a)) -> emits Inv P (bind m f).
Proof.
  intros Hm Hf.
  apply (emits_bind_returns (fun _ => True)); auto. intros w w' a _. exact I.
Qed.

(** Reading the variables gives variables that satisfy the invariant. *)
Lemma emits_read {B} (k : Vars -> M B) :
  (forall v, Inv v -> emits Inv P (k v)) -> emits Inv P (bind read_vars k).
Proof.
  intros Hk w w' r Hi E. unfold bind, read_vars in E.
  exact (Hk (vars w) Hi w w' r Hi E).
Qed.

Lemma emits_try_catch {A} h (m : M A) (k : Error -> M A) :
  emits Inv P m -> (forall e, P (Caught h e)) -> (forall e, emits Inv P (k e)) ->
  emits Inv P (try_catch h m k).
Proof.
  intros Hm Hc Hk w w' r Hi E. unfold try_catch in E.
  destruct (m w) as [w1 r1] eqn:E1.
  destruct (Hm _ _ _ Hi E1) as (Hi1 & evs1 & T1 & F1).
  destruct r1 as [a | e | c].
  - inversion E; subst. eauto.
  - assert (Hb : emits Inv P (bind (emit (Caught h e)) (fun _ => k e))).
    { apply emits_bind; [apply emits_emit, Hc | intros _; apply Hk]. }
    destruct (Hb _ _ _ Hi1 E) as (Hi2 & evs2 & T2 & F2).
    split; [exact Hi2 |].
    exists (evs1 ++ evs2). rewrite T2, T1, app_assoc. split; [reflexivity |].
    apply Forall_app. auto.
  - inversion E; subst. eauto.
Qed.

Lemma count_app p (a b : list Event) :
  count p (a ++ b) = (count p a + count p b)%nat.
Proof. unfold count. rewrite filter_app, length_app. reflexivity. Qed.

(** An awaited promise that gives a value had resolved with it. *)
Lemma returns_await {A} (p : N * Outcome A) :
  returns (fun a => snd p = Resolved a) (@await Line File Vars A p).
Proof.
  intros w w' a H. unfold await in H. destruct (snd p); inversion H; reflexivity.
Qed.

Lemma returns_settle {A} (o : Outcome A) :
  returns (fun a => o = Resolved a) (@settle Line File Vars A o).
Proof. apply (returns_await (0%N, o)). Qed.

(** From a fresh trace, every event of the run satisfies the property. *)
Lemma emits_from_empty {A} (m : M A) w :
  emits Inv P m -> trace w = [] -> Inv (vars w) -> Forall P (trace (fst (m w))).
Proof.
  intros Hm Hw Hi. destruct (m w) as [w' r] eqn:E.
  destruct (Hm _ _ _ Hi E) as (_ & evs & T & F). simpl. rewrite T, Hw. exact F.
Qed.

End Emits.

Create HintDb emits.

#[export] Hint Resolve emits_ret emits_throw emits_exit emits_tick emits_now
  emits_elapsedMs emits_date_now emits_read_vars emits_await
  emits_settle : emits.

(** Walks through a script: one step for each bind, branch and event.
    Events and assignments whose property is not immediate are left to
    the caller. *)
Ltac emits_step :=
  match goal with
  | |- emits _ _ (bind read_vars _) => apply emits_read; intros ? ?
  | |- emits _ _ (bind _ _) => apply emits_bind; [| intros ?]
  | |- emits _ _ (emit _) =>
      apply emits_emit; try solve [exact I | reflexivity | simpl; auto]
  | |- emits _ _ (assign _) =>
      apply emits_assign; try solve [intros ? ?; exact I | simpl; auto]
  | |- emits _ _ (try_catch _ _ _) =>
      apply emits_try_catch;
      [| intros ?; try solve [exact I | reflexivity | simpl; auto] | intros ?]
  | |- emits _ _ (if ?c then _ else _) => destruct c eqn:?
  | |- emits _ _ (match ?x with _ => _ end) => destruct x eqn:?
  | |- emits _ _ _ => solve [auto with emits]
  end.

Ltac emits_walk := repeat emits_step.

(** Takes a finished run of a script apart, one bind at a time. *)
Ltac run_inv H :=
  repeat
    (cbv beta iota delta [bind ret throw exit emit tick now elapsedMs date_now
                          await settle read_vars assign fst snd] in H;
     cbn [fst snd clock trace vars] in H;
     match type of H with
     | context [match ?x with _ => _ end] =>
         let E := fresh "E" in destruct x eqn:E
     end);
  try discriminate.

End RunFacts.

(* ===================================================================== *)
(** * Properties of the shared definitions *)
(* ===================================================================== *)

Module JsFacts.
Import Js.

Lemma prefix_refl s : String.prefix s s = true.
Proof.
  induction s as [| c s IH]; simpl; [reflexivity |].
  destruct (ascii_dec c c); [exact IH | congruence].
Qed.

(** The text put in an error report contains the message of the error. *)
Lemma includes_message m d : includes m (or_else m d) = true.
Proof.
  destruct m as [| c m]; simpl or_else.
  - destruct d; reflexivity.
  - cbn [includes]. rewrite prefix_refl. reflexivity.
Qed.

Lemma or_else_nonempty m d : m <> EmptyString -> or_else m d = m.
Proof. destruct m; [congruence | reflexivity]. Qed.

End JsFacts.

(* ===================================================================== *)
(** * Properties of the upload test *)
(* ===================================================================== *)

Module LatencyFacts.
Import Js SizeParser Run Latency JsFacts RunFacts.
Local Open Scope run_scope.
Local Open Scope list_scope.

(** ** A run, end to end *)

(** Three bytes uploaded in two chunks; the gateway answers 404 twice and
    then 200, and serves the same three bytes. *)
Example upload_sample_run :
  run (sample_env ["key.json"; "3"] 2 payload) =
  ([Call "readFile"; Stdout (LGenerating (Int 3)); Call "randomBytes";
    Stdout (LGateway "https://arweave.net");
    Call "createTransaction"; Call "sign"; Call "getUploader";
    Call "uploadChunk"; Call "uploadChunk";
    Stdout (LTxId "TXID"); Stdout (LUploadLatency 12); Stdout LUploadThroughput;
    Fetch "HEAD" "https://arweave.net/TXID"; Sleep 2000;
    Fetch "HEAD" "https://arweave.net/TXID"; Sleep 2000;
    Fetch "HEAD" "https://arweave.net/TXID";
    Stdout (LAvailability true "200 OK"); Stdout (LTimeUntil 4093);
    Fetch "GET" "https://arweave.net/TXID";
    Stdout (LDownloadLatency 90); Stdout LDownloadThroughput;
    Stdout (LIntegrity "PASS");
    Stdout (LSummary 12 4093 90 "TXID" "https://arweave.net/TXID");
    WriteFile "arweave-test-TXID.json"
      (ResultsJson
         (mkResults 1700000004195 "https://arweave.net" (Int 3) "3" 12 4093
                    true "200 OK" 90 "PASS" "TXID" "https://arweave.net/TXID"));
    Stdout (LSaved "arweave-test-TXID.json")],
   0).
Proof. vm_compute. reflexivity. Qed.

(** The same run with one byte of the served data changed. *)
Example upload_sample_run_corrupted :
  In (Stdout (LIntegrity "FAIL"))
     (fst (run (sample_env ["key.json"; "3"] 0 ["x"%byte; "y"%byte; "x"%byte])))
  /\ snd (run (sample_env ["key.json"; "3"] 0 ["x"%byte; "y"%byte; "x"%byte])) = 0.
Proof. vm_compute. split; [auto 40 | reflexivity]. Qed.

(** ** The poll loop, one iteration at a time *)

Lemma poll_loop_unfold env url v w :
  poll_loop env url v w =
  if waitedMs v <=? maxWaitMs then
    let '(brk, v1, w1) := attempt env url v w in
    if (brk : bool) then (v1, w1)
    else poll_loop env url (fst (sleep_step env v1 w1)) (snd (sleep_step env v1 w1))
  else (v, w).
Proof.
  rewrite poll_loop_equation_1.
  destruct (Z_le_gt_dec (waitedMs v) maxWaitMs) as [H | H].
  - replace (waitedMs v <=? maxWaitMs) with true
      by (symmetry; apply Z.leb_le; exact H).
    cbn [poll_loop_unfold_clause_1]. unfold inspect.
    assert (G : forall x (e : attempt env url v w = x),
      poll_loop_unfold_clause_1_clause_2 env url v H w (exist _ x e) =
      match x with
      | (true, v1, w1) => (v1, w1)
      | (false, v1, w1) =>
          poll_loop env url (fst (sleep_step env v1 w1)) (snd (sleep_step env v1 w1))
      end).
    { intros [[[] v1] w1] e; reflexivity. }
    apply G.
  - replace (waitedMs v <=? maxWaitMs) with false
      by (symmetry; apply Z.leb_gt; lia).
    reflexivity.
Qed.

Lemma poll_loop_exit env url v w :
  maxWaitMs < waitedMs v -> poll_loop env url v w = (v, w).
Proof.
  intros H. rewrite poll_loop_unfold.
  replace (waitedMs v <=? maxWaitMs) with false by (symmetry; apply Z.leb_gt; lia).
  reflexivity.
Qed.

Lemma failed_iteration env url v w :
  waitedMs v <= maxWaitMs ->
  probe_ok env (attempts v) = false ->
  exists v' w',
    poll_loop env url v w = poll_loop env url v' w' /\ advanced env 1 v v' w w'.
Proof.
  intros Hle Hfail. rewrite poll_loop_unfold.
  replace (waitedMs v <=? maxWaitMs) with true by (symmetry; apply Z.leb_le; exact Hle).
  unfold probe_ok in Hfail. unfold attempt.
  destruct (head env (attempts v)) as [d o]. simpl in Hfail.
  destruct o as [hd | e].
  - rewrite Hfail. eexists. eexists. split; [reflexivity |].
    split; cbn [fst snd sleep_step waitedMs available attempts sleeps clock trace];
      rewrite ?count_app; unfold count, pollIntervalMs; simpl;
      first [reflexivity | lia].
  - eexists. eexists. split; [reflexivity |].
    split; cbn [fst snd sleep_step waitedMs available attempts sleeps clock trace];
      rewrite ?count_app; unfold count, pollIntervalMs; simpl;
      first [reflexivity | lia].
Qed.

Lemma advanced_trans env n m v1 v2 v3 w1 w2 w3 :
  advanced env n v1 v2 w1 w2 -> advanced env m v2 v3 w2 w3 ->
  advanced env (n + m) v1 v3 w1 w3.
Proof.
  intros [] []. unfold pollIntervalMs in *.
  split; unfold pollIntervalMs; first [congruence | lia].
Qed.

(** [n] failed probes in a row, while the wait stays within the bound of
    the loop condition, bring the loop [n] iterations further. *)
Lemma failed_iterations env url n :
  forall v w,
    waitedMs v + Z.of_nat n * pollIntervalMs <= maxWaitMs + pollIntervalMs ->
    (forall k, (k < n)%nat -> probe_ok env (attempts v + k) = false) ->
    exists v' w',
      poll_loop env url v w = poll_loop env url v' w' /\ advanced env n v v' w w'.
Proof.
  induction n as [| n IH]; intros v w Hb Hfail.
  - exists v, w. split; [reflexivity |].
    split; simpl; first [reflexivity | lia].
  - assert (Hle : waitedMs v <= maxWaitMs) by (unfold pollIntervalMs in *; lia).
    assert (H0 : probe_ok env (attempts v) = false).
    { rewrite <- (Nat.add_0_r (attempts v)). apply Hfail. lia. }
    destruct (failed_iteration env url v w Hle H0) as (v1 & w1 & E1 & A1).
    destruct (IH v1 w1) as (v2 & w2 & E2 & A2).
    + rewrite (adv_waited A1). unfold pollIntervalMs in *. lia.
    + intros k Hk. rewrite (adv_attempts A1).
      replace (attempts v + 1 + k)%nat with (attempts v + S k)%nat by lia.
      apply Hfail. lia.
    + exists v2, w2. split; [congruence |].
      change (S n) with (1 + n)%nat. eapply advanced_trans; eassumption.
Qed.

Lemma successful_iteration env url v w :
  waitedMs v <= maxWaitMs ->
  probe_ok env (attempts v) = true ->
  exists v' w',
    poll_loop env url v w = (v', w') /\
    available v' = true /\ waitedMs v' = waitedMs v /\
    attempts v' = S (attempts v) /\ sleeps v' = sleeps v /\
    (clock w <= clock w')%N /\
    count is_probe (trace w') = S (count is_probe (trace w)) /\
    count is_sleep (trace w') = count is_sleep (trace w).
Proof.
  intros Hle Hok. rewrite poll_loop_unfold.
  replace (waitedMs v <=? maxWaitMs) with true by (symmetry; apply Z.leb_le; exact Hle).
  unfold probe_ok in Hok. unfold attempt.
  destruct (head env (attempts v)) as [d o]. simpl in Hok.
  destruct o as [hd | e]; [| discriminate].
  rewrite Hok. eexists. eexists. split; [reflexivity |].
  cbn [waitedMs available attempts sleeps clock trace].
  rewrite !count_app. unfold count. simpl. repeat split; lia.
Qed.

(** The availability phase is the loop from its initial state, timed. *)
Lemma wait_for_gateway_eq env url w :
  wait_for_gateway env url w =
  (snd (poll_loop env url poll_init w),
   Val (fst (poll_loop env url poll_init w),
        Z.of_N ((clock (snd (poll_loop env url poll_init w)) - clock w) / 1000000)%N)).
Proof.
  unfold wait_for_gateway, bind, now, poll, elapsedMs, ret.
  destruct (poll_loop env url poll_init w) as [v w']. reflexivity.
Qed.

Lemma elapsed_lower_bound (t0 t1 : N) (n : nat) :
  (t0 + N.of_nat n * 2000000000 <= t1)%N ->
  Z.of_nat n * pollIntervalMs <= Z.of_N ((t1 - t0) / 1000000)%N.
Proof.
  intros H. unfold pollIntervalMs.
  assert (H1 : (N.of_nat n * 2000 <= (t1 - t0) / 1000000)%N).
  { apply N.div_le_lower_bound; lia. }
  lia.
Qed.

(** C1: for every N with N x 2000 ms within the 600000 ms maximum wait,
    if the first N HEAD probes fail (status not ok, or the fetch throws)
    and probe N+1 succeeds, the availability phase ends with
    [available = true] after exactly N+1 probes and N sleeps, with
    [waitedMs] equal to N x 2000 and a measured elapsed time of at least
    N x 2000 ms. *)
Theorem poll_succeeds_after_failures env url w (n : nat) :
  Z.of_nat n * pollIntervalMs <= maxWaitMs ->
  (forall k, (k < n)%nat -> probe_ok env k = false) ->
  probe_ok env n = true ->
  exists p availabilityMs w',
    wait_for_gateway env url w = (w', Val (p, availabilityMs)) /\
    available p = true /\
    attempts p = S n /\
    count is_probe (trace w') = (count is_probe (trace w) + S n)%nat /\
    sleeps p = n /\
    count is_sleep (trace w') = (count is_sleep (trace w) + n)%nat /\
    waitedMs p = Z.of_nat n * pollIntervalMs /\
    Z.of_nat n * pollIntervalMs <= availabilityMs.
Proof.
  intros Hn Hfail Hok.
  destruct (failed_iterations env url n poll_init w) as (v1 & w1 & E1 & A1).
  { cbn [waitedMs poll_init]. unfold pollIntervalMs in *. lia. }
  { intros k Hk. apply Hfail, Hk. }
  destruct A1 as [Hw Ha Hat Hs Hc Hp Hsl]. cbn [waitedMs poll_init attempts sleeps] in *.
  destruct (successful_iteration env url v1 w1) as
    (v2 & w2 & E2 & Hav & Hw2 & Hat2 & Hs2 & Hc2 & Hp2 & Hsl2).
  { rewrite Hw. lia. }
  { rewrite Hat. exact Hok. }
  rewrite wait_for_gateway_eq, E1, E2. cbn [fst snd].
  eexists. eexists. eexists. split; [reflexivity |].
  repeat split; try lia; try assumption.
  apply elapsed_lower_bound. lia.
Qed.

Lemma poll_succeeds_after_failures_witness :
  exists p availabilityMs w',
    wait_for_gateway (sample_env ["key.json"; "3"] 2 payload) "u" start
      = (w', Val (p, availabilityMs)) /\
    available p = true /\
    attempts p = 3%nat /\
    count is_probe (trace w') = (count is_probe (trace start) + 3)%nat /\
    sleeps p = 2%nat /\
    count is_sleep (trace w') = (count is_sleep (trace start) + 2)%nat /\
    waitedMs p = Z.of_nat 2 * pollIntervalMs /\
    Z.of_nat 2 * pollIntervalMs <= availabilityMs.
Proof.
  apply (poll_succeeds_after_failures (sample_env ["key.json"; "3"] 2 payload) "u" start 2).
  - vm_compute. discriminate.
  - intros k Hk. destruct k as [| [| k]]; [reflexivity | reflexivity | lia].
  - reflexivity.
Defined.

(** C2: if every HEAD probe fails, the availability phase terminates and
    reports [available = false]; the accumulated wait [waitedMs] is then
    at least the 600000 ms maximum and exceeds it by at most one 2000 ms
    poll interval (it is 602000), and at most 301 probes were sent (exactly
    301). *)
Theorem poll_times_out env url w :
  (forall k, probe_ok env k = false) ->
  exists p availabilityMs w',
    wait_for_gateway env url w = (w', Val (p, availabilityMs)) /\
    available p = false /\
    maxWaitMs <= waitedMs p <= maxWaitMs + pollIntervalMs /\
    waitedMs p = 602000 /\
    (attempts p <= 301)%nat /\
    attempts p = 301%nat /\
    count is_probe (trace w') = (count is_probe (trace w) + 301)%nat /\
    maxWaitMs <= availabilityMs.
Proof.
  intros Hfail.
  destruct (failed_iterations env url 301 poll_init w) as (v1 & w1 & E1 & A1).
  { vm_compute. discriminate. }
  { intros k _. apply Hfail. }
  destruct A1 as [Hw Ha Hat Hs Hc Hp Hsl]. cbn [waitedMs poll_init attempts sleeps available] in *.
  assert (Hw' : waitedMs v1 = 602000) by (rewrite Hw; reflexivity).
  assert (E2 : poll_loop env url v1 w1 = (v1, w1)).
  { apply poll_loop_exit. rewrite Hw'. reflexivity. }
  rewrite wait_for_gateway_eq, E1, E2. cbn [fst snd].
  eexists. eexists. eexists. split; [reflexivity |].
  unfold maxWaitMs, pollIntervalMs.
  repeat split; try lia; try assumption.
  change (10 * 60 * 1000) with (Z.of_nat 300 * pollIntervalMs).
  apply elapsed_lower_bound. lia.
Qed.

Lemma poll_times_out_witness :
  exists p availabilityMs w',
    wait_for_gateway unreachable_env "u" start = (w', Val (p, availabilityMs)) /\
    available p = false /\
    maxWaitMs <= waitedMs p <= maxWaitMs + pollIntervalMs /\
    waitedMs p = 602000 /\
    (attempts p <= 301)%nat /\
    attempts p = 301%nat /\
    count is_probe (trace w') = (count is_probe (trace start) + 301)%nat /\
    maxWaitMs <= availabilityMs.
Proof.
  apply (poll_times_out unreachable_env "u" start).
  intros k. reflexivity.
Defined.

(** ** The poll loop as a whole *)

(** Induction along the iterations of the loop. *)
Lemma poll_loop_induction env url (P : PollVars -> World -> PollVars * World -> Prop) :
  (forall v w, maxWaitMs < waitedMs v -> P v w (v, w)) ->
  (forall v w v1 w1,
      waitedMs v <= maxWaitMs -> attempt env url v w = (true, v1, w1) ->
      P v w (v1, w1)) ->
  (forall v w v1 w1,
      waitedMs v <= maxWaitMs -> attempt env url v w = (false, v1, w1) ->
      P (fst (sleep_step env v1 w1)) (snd (sleep_step env v1 w1))
        (poll_loop env url (fst (sleep_step env v1 w1)) (snd (sleep_step env v1 w1))) ->
      P v w (poll_loop env url (fst (sleep_step env v1 w1)) (snd (sleep_step env v1 w1)))) ->
  forall v w, P v w (poll_loop env url v w).
Proof.
  intros Hexit Hbreak Hnext v w.
  funelim (poll_loop env url v w).
  - apply Hexit. lia.
  - apply Hbreak; assumption.
  - apply Hnext; try assumption.
    match goal with IH : forall P, _ |- _ => apply IH; assumption end.
Qed.

Lemma attempt_continue env url v w v1 w1 :
  attempt env url v w = (false, v1, w1) ->
  available v1 = available v /\ waitedMs v1 = waitedMs v.
Proof.
  unfold attempt. destruct (head env (attempts v)) as [d [hd | e]];
    [destruct (ok hd) |]; intros H; inversion H; subst; auto.
Qed.

(** The loop is left without success only through its condition. *)
Lemma poll_loop_ends env url v w :
  available v = false ->
  available (fst (poll_loop env url v w)) = false ->
  maxWaitMs < waitedMs (fst (poll_loop env url v w)).
Proof.
  revert v w.
  apply (poll_loop_induction env url
    (fun v w r => available v = false -> available (fst r) = false ->
                  maxWaitMs < waitedMs (fst r))).
  - intros v w H _ _. exact H.
  - intros v w v1 w1 _ E _ Hav. exfalso.
    unfold attempt in E. destruct (head env (attempts v)) as [d [hd | e]];
      [destruct (ok hd) |]; inversion E; subst; discriminate.
  - intros v w v1 w1 _ E IH Hv Hr.
    destruct (attempt_continue env url v w v1 w1 E) as [Ha _].
    apply IH; [simpl; congruence | exact Hr].
Qed.

(** C3, as stated, fails on the recorded text: a probe that throws an
    error with an empty message leaves "fetch error" as the last observed
    status, not the error message, after one attempt and at the end of the
    loop. *)
Lemma poll_empty_message_not_recorded :
  head unreachable_env 0 = (1000000%N, Rejected silent_error) /\
  statusText (snd (fst (attempt unreachable_env "u" poll_init start))) = "fetch error" /\
  statusText (fst (poll_loop unreachable_env "u" poll_init start)) = "fetch error" /\
  statusText (fst (poll_loop unreachable_env "u" poll_init start))
    <> message silent_error.
Proof.
  assert (E : statusText (fst (poll_loop unreachable_env "u" poll_init start))
              = "fetch error") by (vm_compute; reflexivity).
  repeat split; try reflexivity; try exact E.
  rewrite E. discriminate.
Qed.

(** C3, amended: at every probe attempt a transport error thrown by the
    HEAD fetch is not fatal: the error message, or the text "fetch error"
    when that message is empty, becomes the last observed status, the
    loop sleeps one poll interval and goes on with the next attempt; the
    availability phase never throws, and the loop ends without success
    only when the accumulated wait exceeds the maximum wait. *)
Theorem poll_transport_error_continues env url :
  (forall v w d e,
      waitedMs v <= maxWaitMs ->
      head env (attempts v) = (d, Rejected e) ->
      poll_loop env url v w =
      poll_loop env url
        (mkPoll (waitedMs v + pollIntervalMs)
                (or_else (message e) "fetch error")
                (available v) (S (attempts v)) (S (sleeps v)))
        (mkWorld (clock w + d + Z.to_N pollIntervalMs * 1000000
                  + sleep_late env (sleeps v))%N
                 (trace w ++ [Fetch "HEAD" url; Caught "poll" e; Sleep pollIntervalMs])
                 tt)) /\
  (forall e, message e <> EmptyString ->
             or_else (message e) "fetch error" = message e) /\
  (forall w, exists p w', poll env url w = (w', Val p)) /\
  (forall w,
      available (fst (poll_loop env url poll_init w)) = false ->
      maxWaitMs < waitedMs (fst (poll_loop env url poll_init w))).
Proof.
  repeat split.
  - intros v w d e Hle Hhead. rewrite poll_loop_unfold.
    replace (waitedMs v <=? maxWaitMs) with true
      by (symmetry; apply Z.leb_le; exact Hle).
    unfold attempt. rewrite Hhead.
    cbn [fst snd sleep_step waitedMs available attempts sleeps statusText clock trace].
    rewrite <- !app_assoc. reflexivity.
  - intros e H. destruct (message e); [congruence | reflexivity].
  - intros w. unfold poll. destruct (poll_loop env url poll_init w) as [v w'].
    eauto.
  - intros w. apply poll_loop_ends. reflexivity.
Qed.

Lemma poll_transport_error_continues_witness :
  poll_loop unreachable_env "u" poll_init start =
  poll_loop unreachable_env "u"
    (mkPoll (waitedMs poll_init + pollIntervalMs)
            (or_else (message silent_error) "fetch error")
            (available poll_init) (S (attempts poll_init)) (S (sleeps poll_init)))
    (mkWorld (clock start + 1000000 + Z.to_N pollIntervalMs * 1000000
              + sleep_late unreachable_env (sleeps poll_init))%N
             (trace start ++ [Fetch "HEAD" "u"; Caught "poll" silent_error;
                              Sleep pollIntervalMs])
             tt).
Proof.
  destruct (poll_transport_error_continues unreachable_env "u") as [H _].
  apply (H poll_init start 1000000%N silent_error).
  - vm_compute. discriminate.
  - reflexivity.
Defined.

(** ** Whole runs *)

Lemma upload_loop_emits (P : Event -> Prop) chunks :
  P (Call "uploadChunk") -> emits any P (upload_loop chunks).
Proof.
  intros H. induction chunks as [| c rest IH]; simpl; emits_walk.
Qed.

Lemma poll_emits (P : Event -> Prop) env url :
  P (Fetch "HEAD" url) -> (forall e, P (Caught "poll" e)) -> P (Sleep pollIntervalMs) ->
  emits any P (poll env url).
Proof.
  intros Hh Hc Hs.
  assert (G : forall v w, exists evs,
             trace (snd (poll_loop env url v w)) = trace w ++ evs /\ Forall P evs).
  { apply (poll_loop_induction env url
      (fun v w r => exists evs, trace (snd r) = trace w ++ evs /\ Forall P evs)).
    - intros v w _. exists []. rewrite app_nil_r. auto.
    - intros v w v1 w1 _ E. unfold attempt in E.
      destruct (head env (attempts v)) as [d [hd | e]]; [destruct (ok hd) |];
        inversion E; subst. exists [Fetch "HEAD" url]. simpl. auto.
    - intros v w v1 w1 _ E (evs & T & F). unfold attempt in E.
      destruct (head env (attempts v)) as [d [hd | e]]; [destruct (ok hd) |];
        inversion E; subst; rewrite T; simpl; rewrite <- ?app_assoc; simpl;
        eexists; (split; [reflexivity |]); repeat constructor; auto. }
  intros w w' r _ E. unfold poll in E.
  specialize (G poll_init w). destruct (poll_loop env url poll_init w) as [v w1].
  inversion E; subst. split; [exact I | exact G].
Qed.

Lemma wait_for_gateway_emits (P : Event -> Prop) env url :
  P (Fetch "HEAD" url) -> (forall e, P (Caught "poll" e)) -> P (Sleep pollIntervalMs) ->
  emits any P (wait_for_gateway env url).
Proof.
  intros. unfold wait_for_gateway. emits_walk. apply poll_emits; auto.
Qed.

Lemma upload_phase_emits (P : Event -> Prop) env :
  (forall l, P (Stdout l)) -> (forall l, P (Stderr l)) -> (forall f, P (Call f)) ->
  emits any P (upload_phase env).
Proof.
  intros Ho He Hc. unfold upload_phase, call_parseSize.
  emits_walk; auto using upload_loop_emits.
Qed.

Lemma top_catch_emits (P : Event -> Prop) env err :
  (forall l, P (Stderr l)) -> (forall p r, P (WriteFile p (ErrorJson r))) ->
  (forall e, P (Caught "writeErr" e)) ->
  emits any P (top_catch env err).
Proof.
  intros. unfold top_catch. emits_walk; auto.
Qed.

(** The payload the script goes on with is the one it generated. *)
Lemma upload_phase_returns env :
  returns (fun u => randomBytes env (up_sizeBytes u) = Resolved (up_data u))
          (upload_phase env).
Proof.
  intros w w' u H. unfold upload_phase, call_parseSize in H.
  run_inv H.
  inversion H; subst; clear H. cbn [up_sizeBytes up_data].
  match goal with
  | E : match parseSize ?x with _ => _ end _ = _ |- _ =>
      destruct (parseSize x); inversion E; subst
  end.
  match goal with
  | E : match randomBytes ?e ?x with _ => _ end = _ |- _ =>
      destruct (randomBytes e x); inversion E; subst
  end.
  reflexivity.
Qed.

(** ** The integrity check *)

Lemma buffer_equals_iff (a b : Buffer) : buffer_equals a b = true <-> a = b.
Proof.
  revert b. induction a as [| x a IH]; intros [| y b]; simpl; split;
    try congruence; try discriminate; auto.
  - intros H. apply andb_true_iff in H as [Hxy Hab].
    apply Byte.byte_dec_bl in Hxy. apply IH in Hab. congruence.
  - intros H. inversion H; subst. apply andb_true_iff. split.
    + apply Byte.byte_dec_lb. reflexivity.
    + apply IH. reflexivity.
Qed.

Lemma verdict_pass b : verdict b = "PASS" <-> b = true.
Proof. destruct b; simpl; split; intros; congruence. Qed.

Lemma verdict_fail b : verdict b = "FAIL" <-> b = false.
Proof. destruct b; simpl; split; intros; congruence. Qed.

Lemma same_iff sizeBytes data dlBuf :
  sizeBytes = Int (buffer_length data) ->
  same sizeBytes data dlBuf = true <->
  List.length dlBuf = List.length data /\ dlBuf = data.
Proof.
  intros ->. unfold same, buffer_length. simpl.
  rewrite andb_true_iff, buffer_equals_iff, Z.eqb_eq. split.
  - intros [H1 H2]. split; [lia | exact H2].
  - intros [H1 H2]. split; [lia | exact H2].
Qed.

Lemma download_phase_emits env u p ms :
  randomBytes env (up_sizeBytes u) = Resolved (up_data u) ->
  emits any (reports (integrity_reported env)) (download_phase env u p ms).
Proof.
  intros Hdata. unfold download_phase.
  apply emits_bind; [auto with emits | intros tDlStart].
  apply emits_bind; [emits_walk | intros _].
  apply (emits_bind_returns _ _ (fun resp => snd (get env) = Resolved resp));
    [auto with emits | apply returns_await | intros resp Hresp].
  destruct (negb (ok resp)); [emits_walk |].
  apply (emits_bind_returns _ _ (fun b => resp_body resp = Resolved b));
    [auto with emits | apply returns_settle | intros dlBuf Hbody].
  unfold save_results. emits_walk.
  simpl. exists (up_data u), resp, dlBuf. auto.
Qed.

Lemma main_reports_integrity env :
  emits any (reports (integrity_reported env)) (main env).
Proof.
  unfold main. apply emits_try_catch.
  - unfold main_body.
    apply (emits_bind_returns _ _
             (fun u => randomBytes env (up_sizeBytes u) = Resolved (up_data u))).
    + apply upload_phase_emits; intros; exact I.
    + apply upload_phase_returns.
    + intros u Hu. apply emits_bind.
      * apply wait_for_gateway_emits; intros; exact I.
      * intros [p ms]. unfold after_poll. simpl fst. simpl snd.
        emits_walk. apply download_phase_emits, Hu.
  - intros e. exact I.
  - intros e. apply top_catch_emits; intros; exact I.
Qed.

(** C4: in every report the upload test writes, the integrity check is
    PASS exactly when the downloaded buffer has the length of the
    generated payload and the same bytes; it is FAIL as soon as the
    lengths differ or one byte differs, and it is never anything else.
    [randomBytes] is taken with its contract: it returns as many bytes as
    it is asked for. *)
Theorem integrity_check_exact env path r :
  (forall n b, randomBytes env n = Resolved b -> n = Int (buffer_length b)) ->
  In (WriteFile path (ResultsJson r)) (fst (run env)) ->
  exists data resp dlBuf,
    randomBytes env (fileSize_bytes r) = Resolved data /\
    snd (get env) = Resolved resp /\ resp_body resp = Resolved dlBuf /\
    (integrityCheck r = "PASS" <->
       List.length dlBuf = List.length data /\ dlBuf = data) /\
    (integrityCheck r = "PASS" \/ integrityCheck r = "FAIL") /\
    (List.length dlBuf <> List.length data -> integrityCheck r = "FAIL") /\
    (forall i, nth_error dlBuf i <> nth_error data i -> integrityCheck r = "FAIL").
Proof.
  intros Hrandom Hin.
  assert (Hall : Forall (reports (integrity_reported env)) (fst (run env))).
  { unfold run.
    pose proof (emits_from_empty _ _ (main env) start
                  (main_reports_integrity env) eq_refl I) as H.
    destruct (main env start) as [w r0]. exact H. }
  rewrite Forall_forall in Hall. specialize (Hall _ Hin). simpl in Hall.
  destruct Hall as (data & resp & dlBuf & Hd & Hg & Hb & Hv).
  exists data, resp, dlBuf.
  assert (Hsame : same (fileSize_bytes r) data dlBuf = true <->
                  List.length dlBuf = List.length data /\ dlBuf = data)
    by (apply same_iff; auto).
  split; [exact Hd |]. split; [exact Hg |]. split; [exact Hb |].
  rewrite Hv. split; [| split; [| split]].
  - rewrite verdict_pass. exact Hsame.
  - destruct (same _ _ _); auto.
  - intros Hlen. apply verdict_fail.
    destruct (same (fileSize_bytes r) data dlBuf); [| reflexivity].
    exfalso. apply Hlen. apply Hsame. reflexivity.
  - intros i Hi. apply verdict_fail.
    destruct (same (fileSize_bytes r) data dlBuf); [| reflexivity].
    exfalso. apply Hi. destruct Hsame as [Hs _]. destruct (Hs eq_refl) as [_ ->].
    reflexivity.
Qed.

Lemma fill_contract n b : fill n = Resolved b -> n = Int (buffer_length b).
Proof.
  destruct n as [| z]; simpl; [discriminate |].
  destruct (0 <=? z) eqn:Hz; [| discriminate].
  intros H. inversion H; subst. unfold buffer_length.
  rewrite repeat_length. apply Z.leb_le in Hz. f_equal. lia.
Qed.

Lemma integrity_check_exact_witness :
  exists data resp dlBuf,
    fill (Int 3) = Resolved data /\
    snd (get (sample_env ["key.json"; "3"] 2 payload)) = Resolved resp /\
    resp_body resp = Resolved dlBuf /\
    ("PASS" = "PASS" <-> List.length dlBuf = List.length data /\ dlBuf = data) /\
    ("PASS" = "PASS" \/ "PASS" = "FAIL") /\
    (List.length dlBuf <> List.length data -> "PASS" = "FAIL") /\
    (forall i, nth_error dlBuf i <> nth_error data i -> "PASS" = "FAIL").
Proof.
  apply (integrity_check_exact
           (sample_env ["key.json"; "3"] 2 payload)
           "arweave-test-TXID.json"
           (mkResults 1700000004195 "https://arweave.net" (Int 3) "3" 12 4093
                      true "200 OK" 90 "PASS" "TXID" "https://arweave.net/TXID")).
  - intros n b. apply fill_contract.
  - vm_compute. do 24 right. left. reflexivity.
Defined.

(** ** The early exit *)

Lemma upload_phase_no_download env : emits any no_download (upload_phase env).
Proof.
  unfold upload_phase, call_parseSize.
  emits_walk. apply upload_loop_emits. reflexivity.
Qed.

Lemma wait_for_gateway_no_download env url :
  emits any no_download (wait_for_gateway env url).
Proof.
  apply wait_for_gateway_emits; intros; reflexivity.
Qed.

(** C8: when the upload went through and the availability phase ends
    with [available = false], the run prints the two status lines and the
    stopping line and exits with code 0; no event of the download or
    integrity phase (the GET, their lines, the report) occurs in it. *)
Theorem unavailable_exits_zero env w1 u :
  upload_phase env start = (w1, Val u) ->
  available (fst (poll_loop env (url_of u) poll_init w1)) = false ->
  snd (run env) = 0 /\
  Forall no_download (fst (run env)) /\
  exists tr availabilityMs lastStatus,
    fst (run env) =
    tr ++ [Stdout (LAvailability false lastStatus);
           Stdout (LTimeUntil availabilityMs);
           Stdout LStopping].
Proof.
  intros Hup Hav.
  pose proof (upload_phase_no_download env _ _ _ I Hup) as (_ & evs1 & T1 & F1).
  pose proof (wait_for_gateway_no_download env (url_of u) w1 _ _ I
                (wait_for_gateway_eq env (url_of u) w1)) as (_ & evs2 & T2 & F2).
  assert (E : main env start =
              (mkWorld (clock (snd (poll_loop env (url_of u) poll_init w1)))
                 (trace (snd (poll_loop env (url_of u) poll_init w1)) ++
                  [Stdout (LAvailability false
                     (statusText (fst (poll_loop env (url_of u) poll_init w1))));
                   Stdout (LTimeUntil
                     (Z.of_N ((clock (snd (poll_loop env (url_of u) poll_init w1))
                               - clock w1) / 1000000)%N));
                   Stdout LStopping])
                 (vars (snd (poll_loop env (url_of u) poll_init w1))),
               Exit 0)).
  { unfold main, try_catch, main_body. unfold bind at 1. rewrite Hup.
    unfold bind at 1. rewrite wait_for_gateway_eq. cbn [fst snd].
    unfold after_poll, bind, emit, exit. cbn [fst snd clock trace vars].
    rewrite Hav. cbn [negb clock trace vars]. rewrite <- !app_assoc. reflexivity. }
  unfold run. rewrite E. cbn [fst snd trace exit_code]. split; [reflexivity |].
  split.
  - rewrite T2, T1. cbn [trace start app].
    repeat (apply Forall_app; split); auto.
    repeat constructor.
  - eexists. eexists. eexists. reflexivity.
Qed.

Lemma unavailable_exits_zero_witness :
  snd (run unreachable_env) = 0 /\
  Forall no_download (fst (run unreachable_env)) /\
  exists tr availabilityMs lastStatus,
    fst (run unreachable_env) =
    tr ++ [Stdout (LAvailability false lastStatus);
           Stdout (LTimeUntil availabilityMs);
           Stdout LStopping].
Proof.
  apply (unavailable_exits_zero unreachable_env
           (mkWorld 0
              [Call "readFile"; Stdout (LGenerating (Int 3));
               Call "randomBytes"; Stdout (LGateway "https://arweave.net");
               Call "createTransaction"; Call "sign";
               Call "getUploader"; Stdout (LTxId "TXID");
               Stdout (LUploadLatency 0); Stdout LUploadThroughput] tt)
           (mkUploaded "https://arweave.net" "3" (Int 3) payload "TXID" 0)).
  - vm_compute. reflexivity.
  - vm_compute. reflexivity.
Defined.

(** ** The top-level [catch] *)

Lemma main_body_no_top_catch env : emits any no_top_catch (main_body env).
Proof.
  unfold main_body. apply emits_bind.
  - apply upload_phase_emits; intros; reflexivity.
  - intros u. apply emits_bind.
    + apply wait_for_gateway_emits; intros; reflexivity.
    + intros [p ms]. unfold after_poll, download_phase, save_results. emits_walk.
Qed.

(** What the top-level [catch] of the upload test does with an error that
    leaves the body of the [try]. *)
Lemma upload_error_reported env w' e :
  main_body env start = (w', Throw e) ->
  exists path r tail,
    run env =
      (trace w' ++ [Caught "top" e; Stderr (LError e); WriteFile path (ErrorJson r)]
                ++ tail, 1) /\
    error_timestamp r = epoch env + Z.of_N (clock w' / 1000000)%N /\
    includes (message e) (error r) = true /\
    (message e <> EmptyString -> error r = message e) /\
    ((writeFile env path = Resolved tt /\ tail = [Stderr (LErrorSaved path)]) \/
     (exists writeErr,
         writeFile env path = Rejected writeErr /\
         tail = [Caught "writeErr" writeErr; Stderr (LWriteFailed writeErr)])) /\
    count is_top_catch (fst (run env)) = 1%nat.
Proof.
  intros Hbody.
  pose proof (main_body_no_top_catch env _ _ _ I Hbody) as (_ & evs & T & F).
  cbn [trace start app] in T.
  assert (Hnone : count is_top_catch (trace w') = 0%nat).
  { rewrite T. clear T. induction F as [| ev l Hev _ IH]; [reflexivity |].
    unfold count in *. simpl. unfold no_top_catch in Hev. rewrite Hev. exact IH. }
  set (ts := epoch env + Z.of_N (clock w' / 1000000)%N).
  set (path := ("arweave-test-error-" ++ show_Z ts ++ ".json")%string).
  set (r := mkErrorResults ts (or_else (message e) (error_toString e)) (stack e)).
  exists path, r.
  unfold run, main, try_catch. rewrite Hbody.
  unfold top_catch, try_catch, bind, emit, date_now, settle, await, exit.
  cbn [fst snd clock trace vars]. fold ts. fold path. fold r.
  destruct (writeFile env path) as [[] | writeErr] eqn:Hwrite;
    cbn [fst snd clock trace vars exit_code].
  - exists [Stderr (LErrorSaved path)].
    split; [rewrite <- !app_assoc; reflexivity |].
    split; [reflexivity |].
    split; [apply includes_message |].
    split; [apply or_else_nonempty |].
    split; [left; auto |].
    rewrite !count_app, Hnone. reflexivity.
  - exists [Caught "writeErr" writeErr; Stderr (LWriteFailed writeErr)].
    split; [rewrite <- !app_assoc; reflexivity |].
    split; [reflexivity |].
    split; [apply includes_message |].
    split; [apply or_else_nonempty |].
    split; [right; eauto |].
    rewrite !count_app, Hnone. reflexivity.
Qed.

End LatencyFacts.

(* ===================================================================== *)
(** * Properties of the read test *)
(* ===================================================================== *)

Module ReadFacts.
Import Js Run Read JsFacts RunFacts.
Local Open Scope run_scope.
Local Open Scope list_scope.

(** ** A run, end to end *)

(** Six bytes declared and received in two chunks, then a failing read
    with a disk that is full. *)
Example read_sample_run :
  run (sample_env (Some "6")
         (Chunk 5 (repeat "x"%byte 4) (Chunk 6 (repeat "y"%byte 2) (Done 1)))
         (fun _ => Resolved tt)) =
  ([Stdout (LReading "TXID"); Stdout (LGateway "https://arweave.net");
    Stdout (LRawUrl "https://arweave.net/raw/TXID");
    Stdout (LTxUrl "https://arweave.net/TXID"); Stdout LBlank;
    Stdout LFetchingMetadata; Fetch "GET" "https://arweave.net/tx/TXID";
    Stdout (LMetadataRetrieved 20); Stdout (LExpectedSize (Int 6)); Stdout LBlank;
    Stdout LCheckingAvailability; Fetch "HEAD" "https://arweave.net/raw/TXID";
    Stdout (LStatus 200 "OK"); Stdout (LResponseContentType "unknown");
    Stdout (LResponseContentLength (Int 0)); Stdout (LHeadLatency 10); Stdout LBlank;
    Stdout LDownloading; Fetch "GET" "https://arweave.net/raw/TXID";
    Call "read"; Call "read"; Call "read"; Stdout LNewline;
    Stdout LDownloadComplete; Stdout (LDownloadedSize 6);
    Stdout (LChunksReceived 2); Stdout LAverageChunkSize;
    Stdout (LDownloadLatency 40); Stdout LDownloadThroughput;
    Stdout (LHash "00ff"); Stdout (LSizePass (Int 6));
    Stdout (LSummary "TXID" 6 None "unknown" 40 "00ff" "https://arweave.net"
                     "https://arweave.net/raw/TXID");
    WriteFile "arweave-read-TXID-1700000000070.json"
      (ResultsJson
         (mkResults 1700000000070 "TXID" "https://arweave.net/raw/TXID"
                    "https://arweave.net/TXID" "https://arweave.net"
                    (Int 6) [] "unknown" (Int 0) 6 40 2 (Some true) "00ff" false 6));
    Stdout (LSaved "arweave-read-TXID-1700000000070.json")],
   0).
Proof. vm_compute. reflexivity. Qed.

Example read_sample_run_failing :
  run (sample_env (Some "6") (Chunk 5 (repeat "x"%byte 4) (Failed 6 reset))
         (fun _ => Rejected disk_full)) =
  ([Stdout (LReading "TXID"); Stdout (LGateway "https://arweave.net");
    Stdout (LRawUrl "https://arweave.net/raw/TXID");
    Stdout (LTxUrl "https://arweave.net/TXID"); Stdout LBlank;
    Stdout LFetchingMetadata; Fetch "GET" "https://arweave.net/tx/TXID";
    Stdout (LMetadataRetrieved 20); Stdout (LExpectedSize (Int 6)); Stdout LBlank;
    Stdout LCheckingAvailability; Fetch "HEAD" "https://arweave.net/raw/TXID";
    Stdout (LStatus 200 "OK"); Stdout (LResponseContentType "unknown");
    Stdout (LResponseContentLength (Int 0)); Stdout (LHeadLatency 10); Stdout LBlank;
    Stdout LDownloading; Fetch "GET" "https://arweave.net/raw/TXID";
    Call "read"; Call "read";
    Caught "download" reset; Stderr (LDownloadError "terminated");
    WriteFile "arweave-read-error-TXID-1700000000070.json"
      (ErrorJson
         (mkErrorResults 1700000000070 "TXID" "https://arweave.net/raw/TXID"
                         "https://arweave.net" "terminated" EmptyString));
    Caught "outer" disk_full; Stderr (LFatal disk_full)],
   1).
Proof. vm_compute. reflexivity. Qed.

(** ** The read loop *)

Lemma on_chunk_run value w :
  on_chunk value w =
  (mkWorld (clock w)
     (trace w ++
      (if progress_dueb (expectedSize (vars w))
            (downloadedBytes (vars w) + buffer_length value) (buffer_length value)
       then [Stdout (LProgress (downloadedBytes (vars w) + buffer_length value)
                               (expectedSize (vars w)))]
       else []))
     (add_chunk (buffer_length value) (vars w)),
   Val tt).
Proof.
  unfold on_chunk, bind, assign, read_vars, when, log, emit, ret, progress_dueb.
  cbn [fst snd clock trace vars add_chunk expectedSize downloadedBytes].
  change progress_step with 10485760.
  destruct (num_gtb (expectedSize (vars w)) (Int 0) &&
            ((downloadedBytes (vars w) + buffer_length value) mod 10485760
             <? buffer_length value)).
  - reflexivity.
  - rewrite app_nil_r. reflexivity.
Qed.

Lemma read_loop_run s : forall chunks w,
  exists w' r,
    read_loop s chunks w = (w', r) /\
    trace w' = trace w ++
               policy_events (expectedSize (vars w)) (downloadedBytes (vars w))
                             (received s) ++ [Call "read"] /\
    expectedSize (vars w') = expectedSize (vars w) /\
    downloadedBytes (vars w') = downloadedBytes (vars w) + total (received s) /\
    match r with
    | Val all => all = chunks ++ received s
    | Throw _ => True
    | Exit _ => False
    end.
Proof.
  induction s as [d | d e | d value rest IH]; intros chunks w.
  - eexists. eexists. split; [reflexivity |]. simpl. rewrite app_nil_r.
    repeat split; auto. lia.
  - eexists. eexists. split; [reflexivity |]. simpl.
    repeat split; auto. lia.
  - cbn [read_loop]. unfold bind at 1. unfold emit at 1. cbn [fst snd].
    unfold bind at 1. unfold tick at 1. cbn [fst snd clock trace vars].
    unfold bind at 1. rewrite on_chunk_run. cbn [fst snd clock trace vars].
    match goal with |- context [read_loop rest ?c ?w0] =>
      destruct (IH c w0) as (w' & r & E & T & He & Hd & Hr) end.
    exists w', r. split; [exact E |].
    cbn [clock trace vars expectedSize downloadedBytes add_chunk] in T, He, Hd.
    cbn [received policy_events total].
    rewrite T, He, Hd. repeat split.
    + repeat (rewrite <- app_assoc; cbn [app]). reflexivity.
    + lia.
    + destruct r; auto. rewrite Hr, <- app_assoc. reflexivity.
Qed.

Lemma progress_dueb_spec expected downloaded len :
  progress_dueb expected downloaded len = true <-> progress_due expected downloaded len.
Proof.
  unfold progress_dueb, progress_due. rewrite andb_true_iff, Z.ltb_lt. reflexivity.
Qed.

(** C7: while the body is streamed, the chunk just received is followed
    by a progress line if and only if the expected size is strictly
    positive and the cumulative number of bytes downloaded, this chunk
    included, taken modulo 10485760 is strictly less than the length of
    the chunk; the line reports that cumulative number.  The first part
    is about one chunk, the second about the whole loop: its events are
    one read per chunk, each followed by a progress line exactly when one
    is due, and the final read. *)
Theorem progress_line_policy :
  (forall value w,
      exists w' evs,
        on_chunk value w = (w', Val tt) /\
        trace w' = trace w ++ evs /\
        expectedSize (vars w') = expectedSize (vars w) /\
        downloadedBytes (vars w') = downloadedBytes (vars w) + buffer_length value /\
        (In (Stdout (LProgress (downloadedBytes (vars w')) (expectedSize (vars w)))) evs
         <-> progress_due (expectedSize (vars w)) (downloadedBytes (vars w'))
                          (buffer_length value)) /\
        (evs = [Stdout (LProgress (downloadedBytes (vars w')) (expectedSize (vars w)))]
         \/ evs = [])) /\
  (forall s chunks w,
      exists w' r,
        read_loop s chunks w = (w', r) /\
        trace w' = trace w ++
                   policy_events (expectedSize (vars w)) (downloadedBytes (vars w))
                                 (received s) ++ [Call "read"] /\
        downloadedBytes (vars w') = downloadedBytes (vars w) + total (received s)).
Proof.
  split.
  - intros value w. rewrite on_chunk_run. eexists. eexists.
    split; [reflexivity |]. cbn [clock trace vars add_chunk expectedSize downloadedBytes].
    split; [reflexivity |]. split; [reflexivity |]. split; [reflexivity |].
    rewrite <- progress_dueb_spec.
    destruct (progress_dueb (expectedSize (vars w))
                (downloadedBytes (vars w) + buffer_length value) (buffer_length value)).
    + split; [| left; reflexivity]. split; [reflexivity | intros _; left; reflexivity].
    + split; [| right; reflexivity]. split; [intros [] | discriminate].
  - intros s chunks w.
    destruct (read_loop_run s chunks w) as (w' & r & E & T & _ & Hd & _).
    exists w', r. auto.
Qed.

Lemma progress_line_policy_witness :
  exists w' r,
    read_loop (Chunk 5 (repeat "x"%byte 4) (Chunk 6 (repeat "y"%byte 2) (Done 1))) []
              (mkWorld 0 [] (mkVars (Int 20971520) [] (Int 0) EmptyString 10485758 []))
      = (w', r) /\
    trace w' = [Call "read"; Stdout (LProgress 10485762 (Int 20971520));
                Call "read"; Call "read"] /\
    downloadedBytes (vars w') = 10485764.
Proof.
  destruct progress_line_policy as [_ H].
  destruct (H (Chunk 5 (repeat "x"%byte 4) (Chunk 6 (repeat "y"%byte 2) (Done 1))) []
              (mkWorld 0 [] (mkVars (Int 20971520) [] (Int 0) EmptyString 10485758 [])))
    as (w' & r & E & T & D).
  exists w', r. split; [exact E |]. split; [exact T | exact D].
Defined.

(** ** The size verification *)

Lemma parse_tags_emits (Inv : Vars -> Prop) (P : Event -> Prop) env l :
  (forall n x v, Inv v -> Inv (set_tag n x v)) ->
  emits Inv P (parse_tags env l).
Proof.
  intros Hset. induction l as [| [n x | e] rest IH]; simpl; emits_walk.
Qed.

Lemma read_loop_emits (Inv : Vars -> Prop) (P : Event -> Prop) s :
  (forall len v, Inv v -> Inv (add_chunk len v)) ->
  (forall f, P (Call f)) -> (forall d e, P (Stdout (LProgress d e))) ->
  forall chunks, emits Inv P (read_loop s chunks).
Proof.
  intros Hadd Hc Hp. induction s as [d | d e | d value rest IH]; intros chunks;
    simpl; unfold on_chunk, when, log; emits_walk; auto.
Qed.

Lemma size_known_set_tag env n x v : size_known env v -> size_known env (set_tag n x v).
Proof. auto. Qed.

Lemma size_known_add_chunk env len v : size_known env v -> size_known env (add_chunk len v).
Proof. auto. Qed.

Lemma metadata_phase_emits env g t :
  emits (size_known env) (size_checked env) (metadata_phase env g t).
Proof.
  unfold metadata_phase, log_content_type_tag, when, log.
  apply emits_bind; [emits_walk | intros _].
  apply emits_bind; [emits_walk | intros tMetaStart].
  apply emits_try_catch; [| intros e; exact I | intros e; emits_walk].
  apply emits_bind; [emits_walk | intros _].
  apply (emits_bind_returns _ _ (fun r => snd (meta env) = Resolved r));
    [auto with emits | apply returns_await | intros metaResp Hmeta].
  destruct (ok metaResp) eqn:Hok; [| emits_walk].
  apply (emits_bind_returns _ _ (fun md => meta_json env = Resolved md));
    [auto with emits | apply returns_settle | intros metadata Hjson].
  apply emits_bind.
  { apply emits_assign. intros v _. right. unfold declared_size.
    rewrite Hmeta, Hok, Hjson. reflexivity. }
  intros _. apply emits_bind.
  { destruct (tags_field metadata);
      [apply parse_tags_emits, size_known_set_tag | auto with emits]. }
  intros _. emits_walk.
Qed.

Lemma head_phase_emits env rawUrl :
  emits (size_known env) (size_checked env) (head_phase env rawUrl).
Proof.
  unfold head_phase, log, log_error. emits_walk.
Qed.

Lemma size_verification_checked env v actualSize l :
  size_known env v ->
  size_verification (expectedSize v) actualSize = Some l ->
  size_checked env (Stdout l).
Proof.
  unfold size_verification. intros Hv H.
  destruct (num_gtb (expectedSize v) (Int 0)) eqn:Hgt; [| discriminate].
  destruct (num_eqb (expectedSize v) (Int actualSize)); inversion H; subst;
    simpl; auto.
Qed.

Lemma receive_emits env t tstart :
  emits (size_known env) (size_checked env) (receive env t tstart).
Proof.
  unfold receive.
  apply emits_bind;
    [apply read_loop_emits; [apply size_known_add_chunk | |]; intros; exact I
    | intros chunks].
  apply emits_read. intros v Hv.
  unfold when, log. emits_walk.
  all: try (eapply size_verification_checked; eassumption).
Qed.

Lemma main_size_checked env :
  emits (size_known env) (size_checked env) (main env).
Proof.
  unfold main. apply emits_try_catch;
    [| intros e; exact I | intros e; unfold outer_catch, log_error; emits_walk].
  unfold main_body, before_download. apply emits_bind.
  - apply emits_bind; [unfold setup, log, log_error; emits_walk | intros t].
    apply emits_bind; [apply metadata_phase_emits | intros _].
    apply emits_bind; [apply head_phase_emits | intros _]. auto with emits.
  - intros t. unfold download_phase, log.
    apply emits_bind; [emits_walk | intros _].
    apply emits_bind; [emits_walk | intros tstart].
    apply emits_try_catch; [| intros e; exact I |].
    + unfold download_try, log_error. emits_walk. apply receive_emits.
    + intros e. unfold download_catch, log_error. emits_walk.
Qed.

Lemma run_size_checked env : Forall (size_checked env) (fst (run env)).
Proof.
  unfold run.
  pose proof (emits_from_empty _ _ (main env) start (main_size_checked env) eq_refl) as H.
  destruct (main env start) as [w r]. apply H. left. reflexivity.
Qed.

Lemma no_declared_size_zero env : no_declared_size env -> declared_size env = Int 0.
Proof.
  unfold declared_size.
  intros [(e & H) | [(r & H & Hok) | [(r & e & H & Hok & Hj) | (r & md & H & Hok & Hj & Hz)]]];
    rewrite H; try rewrite Hok; try rewrite Hj; auto.
Qed.

(** C10: in a run of the read test in which the metadata request throws,
    answers with a status that is not ok, gives a body that is not JSON,
    or declares a data size of 0, no size verification line is printed
    and every report written has [verification.sizeMatch] null; and in
    any run, a report whose [sizeMatch] is a boolean comes from metadata
    that declared a strictly positive size, and the boolean says whether
    the downloaded length equals it. *)
Theorem size_match_null_without_declared_size env :
  (no_declared_size env ->
   forall ev, In ev (fst (run env)) ->
     is_size_line ev = false /\
     forall path r, ev = WriteFile path (ResultsJson r) ->
                    verification_sizeMatch r = None) /\
  (forall path r b,
      In (WriteFile path (ResultsJson r)) (fst (run env)) ->
      verification_sizeMatch r = Some b ->
      exists metaResp metadata z,
        snd (meta env) = Resolved metaResp /\ ok metaResp = true /\
        meta_json env = Resolved metadata /\
        parseInt10 (or_else (str_of (data_size metadata)) "0") = Int z /\
        0 < z /\
        metadata_expectedSize r = Int z /\
        b = (z =? download_actualSize r)).
Proof.
  pose proof (run_size_checked env) as Hall. rewrite Forall_forall in Hall.
  split.
  - intros Hno ev Hin. specialize (Hall ev Hin).
    pose proof (no_declared_size_zero env Hno) as Hz.
    split.
    + destruct ev as [l | l | | | | |]; try reflexivity.
      destruct l; try reflexivity; simpl in Hall; rewrite Hz in Hall;
        destruct Hall as [Hgt [-> | ->]]; discriminate.
    + intros path r ->. simpl in Hall. rewrite Hz in Hall.
      destruct Hall as [Hsz ->].
      destruct Hsz as [-> | ->]; reflexivity.
  - intros path r b Hin Hb. specialize (Hall _ Hin). simpl in Hall.
    destruct Hall as [Hsz Hm]. rewrite Hm in Hb. unfold sizeMatch in Hb.
    destruct (num_gtb (metadata_expectedSize r) (Int 0)) eqn:Hgt; [| discriminate].
    destruct Hsz as [Hsz | Hsz]; [rewrite Hsz in Hgt; discriminate |].
    unfold declared_size in Hsz.
    destruct (snd (meta env)) as [metaResp | e] eqn:Hmeta;
      [| rewrite Hsz in Hgt; discriminate].
    destruct (ok metaResp) eqn:Hok; [| rewrite Hsz in Hgt; discriminate].
    destruct (meta_json env) as [metadata | e] eqn:Hj;
      [| rewrite Hsz in Hgt; discriminate].
    rewrite Hsz in Hgt, Hb.
    destruct (parseInt10 (or_else (str_of (data_size metadata)) "0")) as [| z] eqn:Hp;
      [discriminate |].
    simpl in Hgt. apply Z.ltb_lt in Hgt.
    exists metaResp, metadata, z. simpl in Hb. inversion Hb.
    repeat split; auto.
Qed.

Lemma size_match_null_without_declared_size_witness :
  Forall (fun ev =>
            is_size_line ev = false /\
            forall path r, ev = WriteFile path (ResultsJson r) ->
                           verification_sizeMatch r = None)
         (fst (run (sample_env (Some "0") (Chunk 5 (repeat "x"%byte 4) (Done 1))
                               (fun _ => Resolved tt)))).
Proof.
  apply Forall_forall.
  destruct (size_match_null_without_declared_size
              (sample_env (Some "0") (Chunk 5 (repeat "x"%byte 4) (Done 1))
                          (fun _ => Resolved tt))) as [H _].
  apply H. right. right. right.
  exists (response 200 "OK"), (mkMetadata (Some "0") None).
  repeat split; reflexivity.
Defined.

(** ** Error handling *)

Lemma never_throws_bind {A B} (m : M A) (f : A -> M B) :
  never_throws m -> (forall a, never_throws (f a)) -> never_throws (bind m f).
Proof.
  intros Hm Hf w w' e. unfold bind.
  destruct (m w) as [w1 [a | e1 | c]] eqn:E.
  - apply Hf.
  - exfalso. exact (Hm _ _ _ E).
  - discriminate.
Qed.

Lemma never_throws_emit ev : never_throws (emit ev : M unit).
Proof. intros w w' e. discriminate. Qed.

Lemma never_throws_ret {A} (a : A) : never_throws (ret a : M A).
Proof. intros w w' e. discriminate. Qed.

Lemma never_throws_exit {A} c : never_throws (exit c : M A).
Proof. intros w w' e. discriminate. Qed.

Lemma never_throws_now : never_throws (now : M N).
Proof. intros w w' e. discriminate. Qed.

Lemma never_throws_try_catch {A} h (m : M A) k :
  (forall e, never_throws (k e)) -> never_throws (try_catch h m k).
Proof.
  intros Hk w w' e. unfold try_catch.
  destruct (m w) as [w1 [a | e1 | c]]; try discriminate.
  apply never_throws_bind; [apply never_throws_emit | intros _; apply Hk].
Qed.

Lemma before_download_never_throws env : never_throws (before_download env).
Proof.
  unfold before_download, setup, metadata_phase, head_phase, log, log_error.
  repeat first
    [ apply never_throws_bind; [| intros ?]
    | apply never_throws_try_catch; intros ?
    | apply never_throws_emit | apply never_throws_ret | apply never_throws_exit
    | apply never_throws_now
    | match goal with |- never_throws (if ?c then _ else _) => destruct c end ].
Qed.

Lemma before_download_inner env : emits any inner (before_download env).
Proof.
  unfold before_download, setup, metadata_phase, head_phase, log_content_type_tag,
    when, log, log_error.
  emits_walk; try (split; reflexivity).
  apply parse_tags_emits. intros; exact I.
Qed.

Lemma download_try_inner env t tstart : emits any inner (download_try env t tstart).
Proof.
  unfold download_try, receive, when, log, log_error.
  emits_walk; try (split; reflexivity).
  apply read_loop_emits; intros; try exact I; split; reflexivity.
Qed.

Lemma count_inner h (tr : list Event) :
  Forall inner tr -> (h = "download" \/ h = "outer") -> count (is_catch h) tr = 0%nat.
Proof.
  intros F Hh. induction F as [| ev l [Hd Ho] _ IH]; [reflexivity |].
  unfold count in *. simpl.
  destruct Hh as [-> | ->]; [rewrite Hd | rewrite Ho]; auto.
Qed.

Lemma main_unfold env w0 t :
  before_download env start = (w0, Val t) ->
  main env start =
  try_catch "outer"
    (fun w => try_catch "download" (download_try env t (clock w0))
                        (download_catch env t) (downloading w0))
    outer_catch start.
Proof.
  intros Hb. unfold main, try_catch at 1 3, main_body. unfold bind at 1. rewrite Hb.
  unfold download_phase, bind at 1, log, emit. cbn [fst snd clock trace vars].
  unfold bind at 1, now. cbn [fst snd clock trace vars]. reflexivity.
Qed.

Lemma download_catch_run env t e w :
  download_catch env t e w =
  let ts := epoch env + Z.of_N (clock w / 1000000)%N in
  let path := ("arweave-read-error-" ++ txid t ++ "-" ++ show_Z ts ++ ".json")%string in
  let r := mkErrorResults ts (txid t) (rawUrl t) (gateway t)
             (or_else (message e) (error_toString e)) (stack e) in
  match writeFile env path with
  | Resolved _ =>
      (mkWorld (clock w + 0)%N
         (trace w ++ [Stderr (LDownloadError (message e)); WriteFile path (ErrorJson r);
                      Stderr (LErrorSaved path)]) (vars w), Exit 1)
  | Rejected writeErr =>
      (mkWorld (clock w + 0)%N
         (trace w ++ [Stderr (LDownloadError (message e)); WriteFile path (ErrorJson r)])
         (vars w), Throw writeErr)
  end.
Proof.
  unfold download_catch, bind, log_error, emit, date_now, settle, await, exit.
  cbn [fst snd clock trace vars].
  destruct (writeFile env _); cbn [fst snd clock trace vars];
    rewrite <- !app_assoc; reflexivity.
Qed.

Lemma read_error_reported env w0 t w' e :
  before_download env start = (w0, Val t) ->
  download_try env t (clock w0) (downloading w0) = (w', Throw e) ->
  exists path r tail,
    run env =
      (trace w' ++ [Caught "download" e; Stderr (LDownloadError (message e));
                    WriteFile path (ErrorJson r)] ++ tail, 1) /\
    error_timestamp r = epoch env + Z.of_N (clock w' / 1000000)%N /\
    includes (message e) (error_message r) = true /\
    (message e <> EmptyString -> error_message r = message e) /\
    ((writeFile env path = Resolved tt /\ tail = [Stderr (LErrorSaved path)]) \/
     (exists writeErr,
         writeFile env path = Rejected writeErr /\
         tail = [Caught "outer" writeErr; Stderr (LFatal writeErr)])) /\
    count (is_catch "download") (fst (run env)) = 1%nat.
Proof.
  intros Hb Hd.
  pose proof (before_download_inner env _ _ _ I Hb) as (_ & evs0 & T0 & F0).
  pose proof (download_try_inner env t (clock w0) _ _ _ I Hd) as (_ & evs1 & T1 & F1).
  cbn [trace start app downloading] in T0, T1.
  assert (Hnone : count (is_catch "download") (trace w') = 0%nat).
  { apply count_inner; [| auto]. rewrite T1, T0.
    repeat (apply Forall_app; split); auto. repeat constructor. }
  set (ts := epoch env + Z.of_N (clock w' / 1000000)%N).
  set (path := ("arweave-read-error-" ++ txid t ++ "-" ++ show_Z ts ++ ".json")%string).
  set (r := mkErrorResults ts (txid t) (rawUrl t) (gateway t)
              (or_else (message e) (error_toString e)) (stack e)).
  assert (Hmain : main env start =
    match writeFile env path with
    | Resolved _ =>
        (mkWorld (clock w' + 0)%N
           (trace w' ++ [Caught "download" e; Stderr (LDownloadError (message e));
                         WriteFile path (ErrorJson r); Stderr (LErrorSaved path)])
           (vars w'), Exit 1)
    | Rejected writeErr =>
        (mkWorld (clock w' + 0)%N
           (trace w' ++ [Caught "download" e; Stderr (LDownloadError (message e));
                         WriteFile path (ErrorJson r);
                         Caught "outer" writeErr; Stderr (LFatal writeErr)])
           (vars w'), Exit 1)
    end).
  { rewrite (main_unfold env w0 t Hb). unfold try_catch. rewrite Hd.
    unfold bind at 1. unfold emit at 1. cbn [fst snd].
    rewrite download_catch_run. cbn [clock trace vars].
    fold ts. fold path. fold r.
    destruct (writeFile env path) as [[] | writeErr].
    - rewrite <- !app_assoc. reflexivity.
    - unfold outer_catch, bind, log_error, emit, exit.
      cbn [fst snd clock trace vars]. rewrite <- !app_assoc. reflexivity. }
  exists path, r. unfold run. rewrite Hmain.
  destruct (writeFile env path) as [[] | writeErr] eqn:Hwrite.
  - exists [Stderr (LErrorSaved path)]. cbn [fst snd trace exit_code].
    split; [reflexivity |].
    split; [reflexivity |].
    split; [apply includes_message |].
    split; [apply or_else_nonempty |].
    split; [left; auto |].
    rewrite !count_app, Hnone. reflexivity.
  - exists [Caught "outer" writeErr; Stderr (LFatal writeErr)].
    cbn [fst snd trace exit_code].
    split; [reflexivity |].
    split; [reflexivity |].
    split; [apply includes_message |].
    split; [apply or_else_nonempty |].
    split; [right; eauto |].
    rewrite !count_app, Hnone. reflexivity.
Qed.

Lemma inner_not_outer (tr : list Event) e :
  Forall inner tr -> ~ In (Caught "outer" e) tr.
Proof.
  intros F Hin. rewrite Forall_forall in F. destruct (F _ Hin) as [_ H]. discriminate.
Qed.

Lemma outer_catch_is_write_failure env e :
  In (Caught "outer" e) (fst (run env)) ->
  exists path r,
    In (WriteFile path (ErrorJson r)) (fst (run env)) /\
    writeFile env path = Rejected e.
Proof.
  intros Hin.
  destruct (before_download env start) as [w0 [t | e0 | c]] eqn:Hb.
  - pose proof (before_download_inner env _ _ _ I Hb) as (_ & evs0 & T0 & F0).
    cbn [trace start app] in T0.
    destruct (download_try env t (clock w0) (downloading w0)) as [w' [a | e1 | c]] eqn:Hd;
      pose proof (download_try_inner env t (clock w0) _ _ _ I Hd) as (_ & evs1 & T1 & F1);
      cbn [trace downloading] in T1;
      assert (Fw : Forall inner (trace w'))
        by (rewrite T1, T0; repeat (apply Forall_app; split); auto; repeat constructor;
            split; reflexivity).
    + exfalso. unfold run in Hin. rewrite (main_unfold env w0 t Hb) in Hin.
      unfold try_catch in Hin. rewrite Hd in Hin. simpl in Hin.
      exact (inner_not_outer _ _ Fw Hin).
    + destruct (read_error_reported env w0 t w' e1 Hb Hd)
        as (path & r & tail & Hrun & _ & _ & _ & Htail & _).
      rewrite Hrun in *. cbn [fst] in *.
      exists path, r. split.
      * apply in_or_app. right. apply in_or_app. left. simpl. auto.
      * apply in_app_or in Hin. destruct Hin as [Hin | Hin];
          [exfalso; exact (inner_not_outer _ _ Fw Hin) |].
        apply in_app_or in Hin. destruct Hin as [Hin | Hin].
        { simpl in Hin. destruct Hin as [H | [H | [H | []]]]; discriminate. }
        destruct Htail as [[_ ->] | (writeErr & Hw & ->)].
        { simpl in Hin. destruct Hin as [H | []]. discriminate. }
        simpl in Hin. destruct Hin as [H | [H | []]]; [| discriminate].
        inversion H; subst. exact Hw.
    + exfalso. unfold run in Hin. rewrite (main_unfold env w0 t Hb) in Hin.
      unfold try_catch in Hin. rewrite Hd in Hin. simpl in Hin.
      exact (inner_not_outer _ _ Fw Hin).
  - exfalso. exact (before_download_never_throws env _ _ _ Hb).
  - exfalso. pose proof (before_download_inner env _ _ _ I Hb) as (_ & evs0 & T0 & F0).
    cbn [trace start app] in T0.
    unfold run, main, try_catch, main_body in Hin. unfold bind at 1 in Hin.
    rewrite Hb in Hin. simpl in Hin. rewrite T0 in Hin.
    exact (inner_not_outer _ _ F0 Hin).
Qed.

(** ** Errors with a handler of their own *)

Lemma never_exits_bind {A B} (m : M A) (f : A -> M B) :
  never_exits m -> (forall a, never_exits (f a)) -> never_exits (bind m f).
Proof.
  intros Hm Hf w w' c. unfold bind.
  destruct (m w) as [w1 [a | e1 | c1]] eqn:E.
  - apply Hf.
  - discriminate.
  - exfalso. exact (Hm _ _ _ E).
Qed.

Lemma never_exits_try_catch {A} h (m : M A) k :
  never_exits m -> (forall e, never_exits (k e)) -> never_exits (try_catch h m k).
Proof.
  intros Hm Hk w w' c. unfold try_catch.
  destruct (m w) as [w1 [a | e1 | c1]] eqn:E; try discriminate.
  - apply never_exits_bind; [intros ? ? ?; discriminate | intros _; apply Hk].
  - exfalso. exact (Hm _ _ _ E).
Qed.

Lemma never_exits_await {A} (p : N * Outcome A) : never_exits (await p : M A).
Proof. intros w w' c. unfold await. destruct (snd p); discriminate. Qed.

Lemma never_exits_parse_tags env l : never_exits (parse_tags env l).
Proof.
  induction l as [| [n x | e] rest IH]; simpl.
  - intros ? ? ?; discriminate.
  - apply never_exits_bind; [intros ? ? ?; discriminate | intros _; exact IH].
  - intros ? ? ?; discriminate.
Qed.

Ltac never_exits_walk :=
  repeat first
    [ apply never_exits_bind; [| intros ?]
    | apply never_exits_try_catch; [| intros ?]
    | apply never_exits_await
    | apply never_exits_parse_tags
    | match goal with
      | |- never_exits (if ?c then _ else _) => destruct c
      | |- never_exits (match ?x with _ => _ end) => destruct x
      end
    | solve [intros ? ? ?; discriminate] ].

Lemma metadata_phase_returns env g t w :
  exists w', metadata_phase env g t w = (w', Val tt).
Proof.
  assert (Hx : never_exits (metadata_phase env g t)).
  { unfold metadata_phase, log_content_type_tag, when, log, settle. never_exits_walk. }
  assert (Ht : never_throws (metadata_phase env g t)).
  { unfold metadata_phase, log.
    repeat first
      [ apply never_throws_bind; [| intros ?]
      | apply never_throws_try_catch; intros ?
      | apply never_throws_emit | apply never_throws_now ]. }
  destruct (metadata_phase env g t w) as [w' [[] | e | c]] eqn:E.
  - eauto.
  - exfalso. exact (Ht _ _ _ E).
  - exfalso. exact (Hx _ _ _ E).
Qed.

Lemma before_download_no_write env : emits any no_write (before_download env).
Proof.
  unfold before_download, setup, metadata_phase, head_phase, log_content_type_tag,
    when, log, log_error.
  emits_walk. apply parse_tags_emits. intros; exact I.
Qed.

(** A HEAD probe of the read test that throws has its own [catch]: the run exits with code
    1 and writes no file, neither a report nor an error report. *)
Lemma head_rejection_not_reported env e :
  snd (head env) = Rejected e ->
  snd (run env) = 1 /\ Forall no_write (fst (run env)).
Proof.
  intros Hhead.
  assert (Hexit : forall w w' r, before_download env w = (w', r) -> r = Exit 1).
  { intros w w' r. unfold before_download. unfold bind at 1.
    destruct (setup env w) as [w1 [t | e1 | c]] eqn:Hs.
    - unfold bind at 1.
      destruct (metadata_phase_returns env (gateway t) (txid t) w1) as (w2 & ->).
      unfold bind at 1.
      unfold head_phase, try_catch, bind, log, log_error, emit, now, await, exit.
      cbn [fst snd clock trace vars]. rewrite Hhead.
      intros H. inversion H. reflexivity.
    - exfalso. unfold setup, bind, log, log_error, emit, exit, ret in Hs.
      destruct (negb (truthy (nth_error (argv env) 0))); discriminate.
    - unfold setup, bind, log, log_error, emit, exit, ret in Hs.
      destruct (negb (truthy (nth_error (argv env) 0))); inversion Hs.
      intros H. inversion H. reflexivity. }
  destruct (before_download env start) as [w0 r] eqn:Hb.
  pose proof (Hexit _ _ _ Hb) as ->.
  pose proof (before_download_no_write env _ _ _ I Hb) as (_ & evs & T & F).
  cbn [trace start app] in T.
  assert (E : main env start = (w0, Exit 1)).
  { unfold main, try_catch, main_body. unfold bind at 1. rewrite Hb. reflexivity. }
  unfold run. rewrite E. cbn [fst snd exit_code]. rewrite T. auto.
Qed.

(** The [catch] of the metadata [try] does not reset [expectedSize]: when
    the size was read and a tag then fails to decode, the size is kept
    and verified. *)
Lemma metadata_catch_keeps_declared_size :
  In (Caught "metadata" reset) (fst (run bad_tags_env)) /\
  In (Stdout (LSizePass (Int 4))) (fst (run bad_tags_env)) /\
  declared_size bad_tags_env = Int 4.
Proof.
  vm_compute. repeat split; auto 40.
Qed.

End ReadFacts.

(* ===================================================================== *)
(** * Errors that reach the top level *)
(* ===================================================================== *)

Module ErrorHandling.
Import Js Run.
Local Open Scope list_scope.

(** C9: an error that leaves the body of the outer [try] of the upload
    test, or the body of the download [try] of the read test, is caught
    once by the [catch] of that [try] and logged; an error report that
    holds the timestamp and the error message is then handed to
    [writeFile], and the process exits with code 1.  When that write
    fails, the failure is logged (by the inner [catch] in the upload
    test, by the outer [catch] in the read test) and the exit code is
    still 1.  The outer [catch] of the read test is entered for nothing
    but such a failed write of an error report. *)
Theorem top_level_errors_reported :
  (forall env w' e,
      Latency.main_body env Latency.start = (w', Throw e) ->
      exists path r tail,
        Latency.run env =
          (trace w' ++ [Caught "top" e; Stderr (Latency.LError e);
                        WriteFile path (Latency.ErrorJson r)] ++ tail, 1) /\
        Latency.error_timestamp r
          = Latency.epoch env + Z.of_N (clock w' / 1000000)%N /\
        includes (message e) (Latency.error r) = true /\
        (message e <> EmptyString -> Latency.error r = message e) /\
        ((Latency.writeFile env path = Resolved tt /\
          tail = [Stderr (Latency.LErrorSaved path)]) \/
         (exists writeErr,
             Latency.writeFile env path = Rejected writeErr /\
             tail = [Caught "writeErr" writeErr;
                     Stderr (Latency.LWriteFailed writeErr)])) /\
        count Latency.is_top_catch (fst (Latency.run env)) = 1%nat) /\
  (forall env w0 t w' e,
      Read.before_download env Read.start = (w0, Val t) ->
      Read.download_try env t (clock w0) (Read.downloading w0) = (w', Throw e) ->
      exists path r tail,
        Read.run env =
          (trace w' ++ [Caught "download" e;
                        Stderr (Read.LDownloadError (message e));
                        WriteFile path (Read.ErrorJson r)] ++ tail, 1) /\
        Read.error_timestamp r = Read.epoch env + Z.of_N (clock w' / 1000000)%N /\
        includes (message e) (Read.error_message r) = true /\
        (message e <> EmptyString -> Read.error_message r = message e) /\
        ((Read.writeFile env path = Resolved tt /\
          tail = [Stderr (Read.LErrorSaved path)]) \/
         (exists writeErr,
             Read.writeFile env path = Rejected writeErr /\
             tail = [Caught "outer" writeErr; Stderr (Read.LFatal writeErr)])) /\
        count (Read.is_catch "download") (fst (Read.run env)) = 1%nat) /\
  (forall env e,
      In (Caught "outer" e) (fst (Read.run env)) ->
      exists path r,
        In (WriteFile path (Read.ErrorJson r)) (fst (Read.run env)) /\
        Read.writeFile env path = Rejected e).
Proof.
  split; [| split].
  - exact LatencyFacts.upload_error_reported.
  - exact ReadFacts.read_error_reported.
  - exact ReadFacts.outer_catch_is_write_failure.
Qed.

Lemma top_level_errors_reported_witness :
  exists path r tail,
    Latency.run (Latency.sample_env ["key.json"; "5XB"] 0 Latency.payload) =
      (trace (mkWorld 0%N [] tt : Latency.World)
         ++ [Caught "top" SizeParser.invalid_size;
             Stderr (Latency.LError SizeParser.invalid_size);
             WriteFile path (Latency.ErrorJson r)] ++ tail, 1) /\
    Latency.error_timestamp r
      = Latency.epoch (Latency.sample_env ["key.json"; "5XB"] 0 Latency.payload)
        + Z.of_N (clock (mkWorld 0%N [] tt : Latency.World) / 1000000)%N /\
    includes (message SizeParser.invalid_size) (Latency.error r) = true /\
    (message SizeParser.invalid_size <> EmptyString ->
     Latency.error r = message SizeParser.invalid_size) /\
    ((Latency.writeFile (Latency.sample_env ["key.json"; "5XB"] 0 Latency.payload) path
        = Resolved tt /\
      tail = [Stderr (Latency.LErrorSaved path)]) \/
     (exists writeErr,
         Latency.writeFile (Latency.sample_env ["key.json"; "5XB"] 0 Latency.payload) path
           = Rejected writeErr /\
         tail = [Caught "writeErr" writeErr;
                 Stderr (Latency.LWriteFailed writeErr)])) /\
    count Latency.is_top_catch
          (fst (Latency.run (Latency.sample_env ["key.json"; "5XB"] 0 Latency.payload)))
      = 1%nat.
Proof.
  destruct top_level_errors_reported as [H _].
  apply (H (Latency.sample_env ["key.json"; "5XB"] 0 Latency.payload)
           (mkWorld 0%N [] tt) SizeParser.invalid_size).
  vm_compute. reflexivity.
Defined.

End ErrorHandling.

(* ===================================================================== *)
(** * The size parser as a whole *)
(* ===================================================================== *)

Module SizeParserMore.
Import Js SizeParser SizeParserFacts.
Local Open Scope string_scope.
Local Open Scope Z_scope.

Lemma code_unit_lang u : code_unit u -> unit_lang u.
Proof.
  unfold code_unit. intros H.
  destruct u as [| c [| d [| x r]]]; simpl in H.
  - constructor.
  - destruct H as [H | [H | [H | [H | [H | [H | [H | H]]]]]]]; inversion H as [H1];
      first [ apply UL_b; unfold is_B; rewrite H1; reflexivity
            | apply UL_k; unfold is_KMG; rewrite H1; reflexivity ].
  - destruct H as [H | [H | [H | [H | [H | [H | [H | H]]]]]]]; inversion H as [[H1 H2]];
      apply UL_kb; unfold is_KMG, is_B; rewrite ?H1, ?H2; reflexivity.
  - destruct H as [H | [H | [H | [H | [H | [H | [H | H]]]]]]]; inversion H.
Qed.

(** What a returned byte count comes from. *)
Lemma parseSize_returned str n :
  parseSize str = Returned n ->
  exists ds u z,
    str = ds ++ u /\ ds <> EmptyString /\ all_chars is_digit ds = true /\
    code_unit u /\ n = Int z /\ 0 <= z.
Proof.
  intros H.
  destruct (size_match str) as [[ds u] |] eqn:Hm;
    [| unfold parseSize in H; rewrite Hm in H; discriminate].
  apply size_match_spec in Hm. destruct Hm as (-> & Hne & Hds & Hu).
  destruct (parseSize_matched_nonneg Hne Hds Hu) as (z & Hz & H0).
  exists ds, u, z. rewrite Hz in H. inversion H.
  repeat split; auto using code_unit_of_lang.
Qed.

Lemma multiplier_pos u : 0 < multiplier u.
Proof.
  unfold multiplier.
  repeat (destruct (String.eqb _ _)); lia.
Qed.

(** A byte count below 2^53 has digits below 2^53. *)
Lemma digits_below_bound ds u :
  all_chars is_digit ds = true ->
  digits_value 0 ds * multiplier u < safe_bound -> digits_value 0 ds < safe_bound.
Proof.
  intros Hds Hb.
  pose proof (@digits_value_nonneg ds 0 ltac:(lia) Hds).
  pose proof (multiplier_pos u). nia.
Qed.

Lemma parseSize_threw str e : parseSize str = Threw e -> e = invalid_size.
Proof.
  unfold parseSize.
  destruct (size_match str) as [[ds u] |]; [| intros H; inversion H; reflexivity].
  destruct (String.eqb _ _); [discriminate |].
  destruct (String.eqb _ _); [discriminate |].
  destruct (String.eqb _ _); discriminate.
Qed.

(** X1: [parseSize] returns a byte count exactly on the tokens made of a
    non-empty run of decimal digits followed by one of (none), B, K, M,
    G, KB, MB, GB in any letter case; the count is then the value of the
    digits times the multiplier of the unit (taken below 2^53, where
    JavaScript numbers are exact integers); and the only error it ever
    throws is the format error. *)
Theorem parseSize_characterized str :
  ((exists n, parseSize str = Returned n) <->
   exists ds u,
     str = ds ++ u /\ ds <> EmptyString /\ all_chars is_digit ds = true /\
     code_unit u) /\
  (forall ds u,
      str = ds ++ u -> ds <> EmptyString -> all_chars is_digit ds = true ->
      code_unit u ->
      digits_value 0 ds * multiplier u < safe_bound ->
      parseSize str = Returned (Int (digits_value 0 ds * multiplier u))) /\
  (forall e, parseSize str = Threw e -> e = invalid_size).
Proof.
  split; [| split].
  - split.
    + intros (n & H).
      destruct (parseSize_returned str n H) as (ds & u & z & H1 & H2 & H3 & H4 & _).
      exists ds, u. auto.
    + intros (ds & u & -> & Hne & Hds & Hu).
      destruct (parseSize_matched_nonneg Hne Hds (code_unit_lang u Hu)) as (z & Hz & _).
      eauto.
  - intros ds u -> Hne Hds Hu Hb.
    apply parseSize_matched; eauto using code_unit_lang, digits_below_bound.
  - apply parseSize_threw.
Qed.

Lemma parseSize_characterized_witness :
  parseSize "20m" = Returned (Int (digits_value 0 "20" * multiplier "m")).
Proof.
  destruct (parseSize_characterized "20m") as (_ & H & _).
  apply (H "20" "m").
  - reflexivity.
  - discriminate.
  - reflexivity.
  - unfold code_unit. simpl. auto 10.
  - vm_compute. reflexivity.
Defined.

(** X2: a byte count returned by [parseSize] is never [NaN] and never
    negative. *)
Theorem parseSize_nonnegative str n :
  parseSize str = Returned n -> exists z, n = Int z /\ 0 <= z.
Proof.
  intros H. apply parseSize_returned in H.
  destruct H as (ds & u & z & _ & _ & _ & _ & -> & Hz).
  exists z. split; [reflexivity | exact Hz].
Qed.

Lemma parseSize_nonnegative_witness :
  exists z, Int 20971520 = Int z /\ 0 <= z.
Proof. apply (@parseSize_nonnegative "20MB"). reflexivity. Defined.

Lemma upper_char_idem c : upper_char (upper_char c) = upper_char c.
Proof. destruct c as [[] [] [] [] [] [] [] []]; reflexivity. Qed.

Lemma upper_char_digit c : is_digit (upper_char c) = is_digit c.
Proof. destruct c as [[] [] [] [] [] [] [] []]; reflexivity. Qed.

Lemma upper_char_of_digit c : is_digit c = true -> upper_char c = c.
Proof. destruct c as [[] [] [] [] [] [] [] []]; intros H; first [reflexivity | discriminate H]. Qed.

Lemma toUpperCase_idem s : toUpperCase (toUpperCase s) = toUpperCase s.
Proof. induction s; simpl; [| rewrite upper_char_idem, IHs]; reflexivity. Qed.

Lemma span_toUpperCase s :
  span is_digit (toUpperCase s) =
  (fst (span is_digit s), toUpperCase (snd (span is_digit s))).
Proof.
  induction s as [| c r IH]; simpl; [reflexivity |].
  rewrite upper_char_digit.
  destruct (is_digit c) eqn:Hc.
  - rewrite IH. destruct (span is_digit r) as [a b]. simpl.
    rewrite (upper_char_of_digit _ Hc). reflexivity.
  - reflexivity.
Qed.

Lemma size_match_toUpperCase s :
  size_match (toUpperCase s) =
  match size_match s with
  | Some (ds, u) => Some (ds, toUpperCase u)
  | None => None
  end.
Proof.
  unfold size_match. rewrite span_toUpperCase.
  destruct (span is_digit s) as [ds rest]. simpl.
  destruct ds as [| d ds']; [reflexivity |].
  assert (K : forall c, is_KMG (upper_char c) = is_KMG c)
    by (intros c; unfold is_KMG; rewrite upper_char_idem; reflexivity).
  assert (B : forall c, is_B (upper_char c) = is_B c)
    by (intros c; unfold is_B; rewrite upper_char_idem; reflexivity).
  destruct rest as [| c r]; simpl; [reflexivity |].
  rewrite K. destruct (is_KMG c).
  - destruct r as [| c' r']; simpl; [reflexivity |].
    rewrite B. destruct (is_B c').
    + destruct r'; reflexivity.
    + reflexivity.
  - rewrite B. destruct (is_B c).
    + destruct r; reflexivity.
    + reflexivity.
Qed.

Lemma parseSize_toUpperCase s : parseSize (toUpperCase s) = parseSize s.
Proof.
  unfold parseSize. rewrite size_match_toUpperCase.
  destruct (size_match s) as [[ds u] |]; [| reflexivity].
  rewrite toUpperCase_idem. reflexivity.
Qed.

(** X3: two tokens that differ only in the case of their letters get the
    same answer from [parseSize], a byte count or the format error. *)
Theorem parseSize_case_insensitive a b :
  toUpperCase a = toUpperCase b -> parseSize a = parseSize b.
Proof.
  intros H. rewrite <- (parseSize_toUpperCase a), <- (parseSize_toUpperCase b), H.
  reflexivity.
Qed.

Lemma parseSize_case_insensitive_witness : parseSize "70mb" = parseSize "70Mb".
Proof. apply parseSize_case_insensitive. reflexivity. Defined.

(** X4: a unit of one letter does not scale: digits followed by a
    single K, M, G or B in either case are read as that many bytes. *)
Theorem parseSize_single_letter_unit ds c :
  ds <> EmptyString -> all_chars is_digit ds = true ->
  is_KMG c = true \/ is_B c = true ->
  digits_value 0 ds < safe_bound ->
  parseSize (ds ++ String c EmptyString) = Returned (Int (digits_value 0 ds)).
Proof.
  intros Hne Hds Hc Hb.
  assert (Hu : unit_lang (String c EmptyString))
    by (destruct Hc; [apply UL_k | apply UL_b]; assumption).
  rewrite (parseSize_matched Hne Hds Hu Hb).
  replace (multiplier (String c EmptyString)) with 1; [do 2 f_equal; lia |].
  unfold multiplier. simpl.
  destruct (upper_char c) as [[] [] [] [] [] [] [] []]; reflexivity.
Qed.

Lemma parseSize_single_letter_unit_witness :
  parseSize ("130" ++ "g") = Returned (Int 130).
Proof.
  apply (@parseSize_single_letter_unit "130" "g"%char).
  - discriminate.
  - reflexivity.
  - left. reflexivity.
  - vm_compute. reflexivity.
Defined.

(** ** Sizes written by the script itself *)

Ltac eval_digit :=
  match goal with
  | |- context [digit_val ?c] =>
      let v := eval vm_compute in (digit_val c) in change (digit_val c) with v
  end.

Lemma digits_value_of_uint_acc d :
  forall acc,
    digits_value (Zpos acc) (NilEmpty.string_of_uint d) = Zpos (Pos.of_uint_acc d acc).
Proof.
  induction d; intros acc;
    cbn [NilEmpty.string_of_uint digits_value Pos.of_uint_acc]; try reflexivity;
    rewrite <- IHd; f_equal; eval_digit; lia.
Qed.

Lemma digits_value_of_uint d :
  digits_value 0 (NilEmpty.string_of_uint d) = Z.of_N (Pos.of_uint d).
Proof.
  induction d; cbn [NilEmpty.string_of_uint digits_value Pos.of_uint];
    try reflexivity; eval_digit; first [exact IHd | apply (digits_value_of_uint_acc d)].
Qed.

Lemma digits_of_uint d : all_chars is_digit (NilEmpty.string_of_uint d) = true.
Proof. induction d; simpl; auto. Qed.

Lemma show_Z_digits z :
  0 <= z ->
  show_Z z <> EmptyString /\ all_chars is_digit (show_Z z) = true /\
  digits_value 0 (show_Z z) = z.
Proof.
  intros Hz. unfold show_Z.
  destruct z as [| p | p]; [repeat split; discriminate | | lia].
  simpl. pose proof (Unsigned.to_uint_nonnil p) as Hn.
  assert (E : NilZero.string_of_uint (Pos.to_uint p) =
              NilEmpty.string_of_uint (Pos.to_uint p))
    by (destruct (Pos.to_uint p); [congruence | reflexivity ..]).
  rewrite E.
  assert (V : digits_value 0 (NilEmpty.string_of_uint (Pos.to_uint p)) = Zpos p)
    by (rewrite digits_value_of_uint, Unsigned.of_to; reflexivity).
  split; [| split; [apply digits_of_uint | exact V]].
  intros Hs. rewrite Hs in V. discriminate V.
Qed.

(** X5: a whole number of units written in decimal parses back to itself:
    for every integer z >= 0 and every unit the pattern accepts, the
    decimal rendering of z followed by the unit is read as z times the
    multiplier of the unit (below 2^53). *)
Theorem parseSize_show_round_trip z u :
  0 <= z -> code_unit u -> z * multiplier u < safe_bound ->
  parseSize (show_Z z ++ u) = Returned (Int (z * multiplier u)).
Proof.
  intros Hz Hu Hb. destruct (show_Z_digits z Hz) as (Hne & Hds & Hv).
  assert (Hd : digits_value 0 (show_Z z) < safe_bound)
    by (apply (digits_below_bound _ u Hds); rewrite Hv; exact Hb).
  rewrite (parseSize_matched Hne Hds (code_unit_lang u Hu) Hd), Hv. reflexivity.
Qed.

Lemma parseSize_show_round_trip_witness :
  parseSize (show_Z 30 ++ "MB") = Returned (Int (30 * multiplier "MB")).
Proof.
  apply parseSize_show_round_trip; [lia | | vm_compute; reflexivity].
  unfold code_unit. simpl. auto 10.
Defined.

End SizeParserMore.

(* ===================================================================== *)
(** * The gateway address *)
(* ===================================================================== *)

Module JsMore.
Import Js.
Local Open Scope string_scope.

Lemma strip_trailing_slash_append s : strip_trailing_slash (s ++ "/") = s.
Proof.
  induction s as [| c r IH]; [reflexivity |].
  cbn [append strip_trailing_slash]. rewrite IH.
  destruct r; reflexivity.
Qed.

Lemma strip_trailing_slash_cases s :
  strip_trailing_slash s = s \/ s = strip_trailing_slash s ++ "/".
Proof.
  induction s as [| c r IH]; [left; reflexivity |].
  cbn [strip_trailing_slash]. destruct r as [| d r'].
  - destruct (Ascii.eqb c "/") eqn:Hc; [| left; reflexivity].
    apply Ascii.eqb_eq in Hc. subst c. right. reflexivity.
  - destruct IH as [IH | IH].
    + left. rewrite IH. reflexivity.
    + right. cbn [append]. rewrite <- IH. reflexivity.
Qed.

(** X6: the gateway address is used with one slash at its end removed: a
    gateway written with a trailing slash gives the addresses of the same
    gateway written without it, nothing but a final slash is ever
    removed, and of two trailing slashes one is kept. *)
Theorem strip_trailing_slash_spec s :
  strip_trailing_slash (s ++ "/") = s /\
  (strip_trailing_slash s = s \/ s = strip_trailing_slash s ++ "/") /\
  strip_trailing_slash (s ++ "//") = s ++ "/".
Proof.
  split; [apply strip_trailing_slash_append |].
  split; [apply strip_trailing_slash_cases |].
  replace (s ++ "//") with ((s ++ "/") ++ "/").
  - apply strip_trailing_slash_append.
  - induction s as [| c r IH]; [reflexivity |]. cbn [append]. rewrite IH. reflexivity.
Qed.

End JsMore.

(* ===================================================================== *)
(** * Reasoning about how a script starts and ends *)
(* ===================================================================== *)

Module EndsFacts.
Import Js Run Ends RunFacts.
Local Open Scope run_scope.
Local Open Scope list_scope.

Section EndsFacts.
Context {Line File Vars : Type}.
Abbreviation M := (Run.M Line File Vars).
Abbreviation Event := (Run.Event Line File).

Lemma last_event_snoc (tr : list Event) ev : last_event (tr ++ [ev]) = Some ev.
Proof. unfold last_event. rewrite map_app. simpl. apply last_last. Qed.

Lemma returns_elapsedMs (s : N) : returns (fun ms => (0 <= ms)%Z) (elapsedMs s : M Z).
Proof. intros w w' a H. inversion H. apply N2Z.is_nonneg. Qed.

Variable Q : list Event -> Z -> Prop.

Lemma exits_bind {A B} (m : M A) (f : A -> M B) :
  exits Q m -> (forall a, exits Q (f a)) -> exits Q (bind m f).
Proof.
  intros Hm Hf w w' c E. unfold bind in E.
  destruct (m w) as [w1 [a | e | c1]] eqn:E1.
  - exact (Hf a _ _ _ E).
  - discriminate.
  - inversion E; subst. exact (Hm _ _ _ E1).
Qed.

(** [console.error(...); process.exit(c)] *)
Lemma exits_emit_exit {A} ev c :
  (forall tr, Q (tr ++ [ev]) c) -> exits Q (emit ev ;; exit c : M A).
Proof. intros H w w' c' E. inversion E; subst. apply H. Qed.

Lemma exits_try_catch {A} h (m : M A) k :
  exits Q m -> (forall e, exits Q (k e)) -> exits Q (try_catch h m k).
Proof.
  intros Hm Hk w w' c E. unfold try_catch in E.
  destruct (m w) as [w1 [a | e | c1]] eqn:E1.
  - discriminate.
  - unfold bind, emit in E. exact (Hk e _ _ _ E).
  - inversion E; subst. exact (Hm _ _ _ E1).
Qed.

Lemma exits_ret {A} (a : A) : exits Q (ret a : M A).
Proof. intros w w' c E. discriminate. Qed.

Lemma exits_throw {A} e : exits Q (throw e : M A).
Proof. intros w w' c E. discriminate. Qed.

Lemma exits_emit ev : exits Q (emit ev : M unit).
Proof. intros w w' c E. discriminate. Qed.

Lemma exits_tick d : exits Q (tick d : M unit).
Proof. intros w w' c E. discriminate. Qed.

Lemma exits_now : exits Q (now : M N).
Proof. intros w w' c E. discriminate. Qed.

Lemma exits_elapsedMs s : exits Q (elapsedMs s : M Z).
Proof. intros w w' c E. discriminate. Qed.

Lemma exits_date_now e : exits Q (date_now e : M Z).
Proof. intros w w' c E. discriminate. Qed.

Lemma exits_read_vars : exits Q (read_vars : M Vars).
Proof. intros w w' c E. discriminate. Qed.

Lemma exits_assign f : exits Q (assign f : M unit).
Proof. intros w w' c E. discriminate. Qed.

Lemma exits_await {A} (p : N * Outcome A) : exits Q (await p : M A).
Proof. intros w w' c E. unfold await in E. destruct (snd p); discriminate. Qed.

Lemma exits_settle {A} (o : Outcome A) : exits Q (settle o : M A).
Proof. apply exits_await. Qed.

Variable R : list Event -> Prop.

Lemma yields_bind {A B} (m : M A) (f : A -> M B) :
  (forall a, yields R (f a)) -> yields R (bind m f).
Proof.
  intros Hf w w' b E. unfold bind in E.
  destruct (m w) as [w1 [a | e | c1]]; try discriminate.
  exact (Hf a _ _ _ E).
Qed.

Lemma yields_emit ev : (forall tr, R (tr ++ [ev])) -> yields R (emit ev : M unit).
Proof. intros H w w' a E. inversion E; subst. apply H. Qed.

Lemma yields_exit {A} c : yields R (exit c : M A).
Proof. intros w w' a E. discriminate. Qed.

Lemma yields_throw {A} e : yields R (throw e : M A).
Proof. intros w w' a E. discriminate. Qed.

Lemma yields_try_catch {A} h (m : M A) k :
  yields R m -> (forall e, yields R (k e)) -> yields R (try_catch h m k).
Proof.
  intros Hm Hk w w' a E. unfold try_catch in E.
  destruct (m w) as [w1 [a1 | e | c1]] eqn:E1.
  - inversion E; subst. exact (Hm _ _ _ E1).
  - unfold bind, emit in E. exact (Hk e _ _ _ E).
  - discriminate.
Qed.

Lemma starts_bind {A B} ev (m : M A) (f : A -> M B) :
  starts ev m -> (forall a, emits (fun _ => True) (fun _ => True) (f a)) -> starts ev (bind m f).
Proof.
  intros Hm Hf w w' r E. unfold bind in E.
  destruct (m w) as [w1 [a | e | c]] eqn:E1;
    destruct (Hm _ _ _ E1) as (evs1 & T1).
  - destruct (Hf a _ _ _ I E) as (_ & evs2 & T2 & _).
    exists (evs1 ++ evs2). rewrite T2, T1, <- app_assoc. reflexivity.
  - inversion E; subst. eauto.
  - inversion E; subst. eauto.
Qed.

Lemma starts_emit_bind {B} ev (f : unit -> M B) :
  (forall a, emits (fun _ => True) (fun _ => True) (f a)) -> starts ev (bind (emit ev) f).
Proof.
  intros Hf. apply starts_bind; [| exact Hf].
  intros w w' r E. inversion E; subst. exists []. reflexivity.
Qed.

Lemma starts_ret_bind {A B} ev (a : A) (f : A -> M B) :
  starts ev (f a) -> starts ev (bind (ret a) f).
Proof. intros H w w' r E. exact (H _ _ _ E). Qed.

Lemma starts_try_catch {A} ev h (m : M A) k :
  starts ev m -> (forall e, emits (fun _ => True) (fun _ => True) (k e)) -> starts ev (try_catch h m k).
Proof.
  intros Hm Hk w w' r E. unfold try_catch in E.
  destruct (m w) as [w1 [a | e | c]] eqn:E1;
    destruct (Hm _ _ _ E1) as (evs1 & T1).
  - inversion E; subst. eauto.
  - assert (Hb : emits (fun _ => True) (fun _ => True)
                     (bind (emit (Caught h e)) (fun _ => k e))).
    { apply emits_bind; [apply emits_emit; exact I | intros _; apply Hk]. }
    destruct (Hb _ _ _ I E) as (_ & evs2 & T2 & _).
    exists (evs1 ++ evs2). rewrite T2, T1, <- app_assoc. reflexivity.
  - inversion E; subst. eauto.
Qed.

End EndsFacts.

Create HintDb exits.

#[export] Hint Resolve exits_ret exits_throw exits_emit exits_tick exits_now
  exits_elapsedMs exits_date_now exits_read_vars exits_assign exits_await
  exits_settle : exits.

(** Walks through a script along its exits. *)
Ltac exits_step :=
  match goal with
  | |- exits _ (bind (emit _) (fun _ => exit _)) => apply exits_emit_exit; intros ?
  | |- exits _ (bind _ _) => apply exits_bind; [| intros ?]
  | |- exits _ (try_catch _ _ _) => apply exits_try_catch; [| intros ?]
  | |- exits _ (if ?c then _ else _) => destruct c eqn:?
  | |- exits _ (match ?x with _ => _ end) => destruct x eqn:?
  | |- exits _ _ => solve [auto with exits]
  end.

Ltac exits_walk := repeat exits_step.

Ltac yields_step :=
  match goal with
  | |- yields _ (bind _ _) => apply yields_bind; intros ?
  | |- yields _ (try_catch _ _ _) => apply yields_try_catch; [| intros ?]
  | |- yields _ (emit _) => apply yields_emit; intros ?
  | |- yields _ (exit _) => apply yields_exit
  | |- yields _ (throw _) => apply yields_throw
  | |- yields _ (if ?c then _ else _) => destruct c eqn:?
  | |- yields _ (match ?x with _ => _ end) => destruct x eqn:?
  end.

Ltac yields_walk := repeat yields_step.

End EndsFacts.

(* ===================================================================== *)
(** * The poll loop on any gateway *)
(* ===================================================================== *)

Module PollFacts.
Import Js SizeParser Run Latency LatencyVocab JsFacts RunFacts LatencyFacts.
Local Open Scope string_scope.
Local Open Scope Z_scope.
Local Open Scope list_scope.

Lemma attempt_effect env url v w b v1 w1 :
  attempt env url v w = (b, v1, w1) ->
  waitedMs v1 = waitedMs v /\ attempts v1 = S (attempts v) /\ sleeps v1 = sleeps v /\
  statusText v1 = probe_status env (attempts v) /\
  b = probe_ok env (attempts v) /\
  available v1 = (b || available v)%bool /\
  (clock w <= clock w1)%N /\
  count is_probe (trace w1) = S (count is_probe (trace w)) /\
  count is_sleep (trace w1) = count is_sleep (trace w).
Proof.
  unfold attempt, probe_status, probe_ok.
  destruct (head env (attempts v)) as [d [hd | e]]; cbn [snd];
    [destruct (ok hd) |];
    intros H; inversion H; subst;
    cbn [fst snd waitedMs attempts sleeps statusText available clock trace orb];
    rewrite ?count_app; unfold count; simpl; repeat split; first [reflexivity | lia].
Qed.

Lemma poll_loop_bounded env url v w :
  waitedMs v = Z.of_nat (sleeps v) * pollIntervalMs ->
  attempts v = sleeps v ->
  waitedMs v <= maxWaitMs + pollIntervalMs ->
  bounded v w (poll_loop env url v w).
Proof.
  revert v w.
  apply (poll_loop_induction env url
    (fun v w r =>
       waitedMs v = Z.of_nat (sleeps v) * pollIntervalMs ->
       attempts v = sleeps v ->
       waitedMs v <= maxWaitMs + pollIntervalMs -> bounded v w r)).
  - intros v w Hgt Hw Ha Hm. split; cbn [fst snd]; auto; lia.
  - intros v w v1 w1 Hle E Hw Ha Hm.
    destruct (attempt_effect _ _ _ _ _ _ _ E)
      as (Hw1 & Ha1 & Hs1 & _ & _ & Hav & Hc & Hp & Hsl).
    split; cbn [fst snd]; try lia.
    right. simpl in Hav. repeat split; try lia. exact Hav.
  - intros v w v1 w1 Hle E IH Hw Ha Hm.
    destruct (attempt_effect _ _ _ _ _ _ _ E)
      as (Hw1 & Ha1 & Hs1 & _ & _ & Hav & Hc & Hp & Hsl).
    destruct IH as [B1 B2 B3 B4 B5 B6 B7];
      cbn [fst snd sleep_step waitedMs attempts sleeps clock trace] in *;
      try (unfold pollIntervalMs in *; lia).
    set (r := poll_loop env url _ _) in *.
    rewrite !count_app in B4, B5. unfold count in *. simpl in B4, B5.
    unfold pollIntervalMs in *.
    split; cbn [fst snd]; unfold count; try assumption; lia.
Qed.

(** X7: whatever the gateway answers, the availability phase ends with
    a value: it sends between 1 and 301 HEAD probes and awaits at most
    301 sleeps, one sleep after each probe but a successful one;
    [waitedMs] is 2000 times the number of sleeps and never exceeds
    602000; and the measured time is at least [waitedMs]. *)
Theorem poll_always_bounded env url w :
  exists p availabilityMs w',
    wait_for_gateway env url w = (w', Val (p, availabilityMs)) /\
    (1 <= attempts p <= 301)%nat /\
    (sleeps p <= 301)%nat /\
    (attempts p = sleeps p \/ attempts p = S (sleeps p)) /\
    waitedMs p = Z.of_nat (sleeps p) * pollIntervalMs /\
    waitedMs p <= maxWaitMs + pollIntervalMs /\
    count is_probe (trace w') = (count is_probe (trace w) + attempts p)%nat /\
    count is_sleep (trace w') = (count is_sleep (trace w) + sleeps p)%nat /\
    waitedMs p <= availabilityMs.
Proof.
  rewrite wait_for_gateway_eq.
  destruct (poll_loop_bounded env url poll_init w) as [B1 B2 B3 B4 B5 B6 B7];
    [reflexivity | reflexivity | vm_compute; discriminate |].
  set (r := poll_loop env url poll_init w) in *.
  cbn [poll_init attempts sleeps] in B4, B5, B6.
  eexists. eexists. eexists. split; [reflexivity |].
  unfold maxWaitMs, pollIntervalMs in *.
  repeat split; try lia.
  rewrite B1. apply (elapsed_lower_bound (clock w) (clock (snd r)) (sleeps (fst r))).
  rewrite Nat.sub_0_r in B6. exact B6.
Qed.

Lemma first_success (f : nat -> bool) (n : nat) :
  (forall k, (k < n)%nat -> f k = false) \/
  (exists k, (k < n)%nat /\ f k = true /\ forall j, (j < k)%nat -> f j = false).
Proof.
  induction n as [| n [IH | (k & Hk & Hf & Hj)]].
  - left. intros k Hk. lia.
  - destruct (f n) eqn:Hn.
    + right. exists n. auto.
    + left. intros k Hk. destruct (Nat.eq_dec k n) as [-> | Hne]; [exact Hn |].
      apply IH. lia.
  - right. exists k. auto.
Qed.

(** X8: the availability phase ends with [available = true] exactly when
    one of the first 301 HEAD probes succeeds.  It then stops at the
    first probe that succeeds, all probes before it having failed; and
    when it ends with [available = false] it has sent 301 probes, all
    of which failed. *)
Theorem poll_available_iff env url w :
  exists p availabilityMs w',
    wait_for_gateway env url w = (w', Val (p, availabilityMs)) /\
    (available p = true <-> exists k, (k < 301)%nat /\ probe_ok env k = true) /\
    (available p = true ->
       probe_ok env (attempts p - 1) = true /\
       forall k, (k < attempts p - 1)%nat -> probe_ok env k = false) /\
    (available p = false ->
       attempts p = 301%nat /\ forall k, (k < 301)%nat -> probe_ok env k = false).
Proof.
  rewrite wait_for_gateway_eq.
  eexists. eexists. eexists. split; [reflexivity |].
  destruct (first_success (probe_ok env) 301) as [Hall | (k & Hk & Hok & Hbefore)].
  - destruct (failed_iterations env url 301 poll_init w) as (v1 & w1 & E1 & A1).
    { vm_compute. discriminate. }
    { intros k Hk. apply Hall, Hk. }
    destruct A1 as [Hw Ha Hat Hs _ _ _].
    cbn [waitedMs poll_init attempts sleeps available] in *.
    rewrite E1, poll_loop_exit by (rewrite Hw; reflexivity). cbn [fst].
    rewrite Ha, Hat. split; [| split].
    + split; [discriminate |]. intros (k & Hk & Hok). rewrite Hall in Hok by exact Hk.
      discriminate.
    + discriminate.
    + auto.
  - destruct (failed_iterations env url k poll_init w) as (v1 & w1 & E1 & A1).
    { cbn [waitedMs poll_init]. unfold maxWaitMs, pollIntervalMs. lia. }
    { intros j Hj. apply Hbefore, Hj. }
    destruct A1 as [Hw Ha Hat Hs _ _ _].
    cbn [waitedMs poll_init attempts sleeps available] in *.
    destruct (successful_iteration env url v1 w1) as
      (v2 & w2 & E2 & Hav & _ & Hat2 & _).
    { rewrite Hw. unfold maxWaitMs, pollIntervalMs. lia. }
    { rewrite Hat. exact Hok. }
    rewrite E1, E2. cbn [fst]. rewrite Hav, Hat2, Hat. cbn [Nat.sub].
    rewrite Nat.sub_0_r. split; [| split].
    + split; [intros _; exists k; auto | reflexivity].
    + intros _. auto.
    + discriminate.
Qed.

Lemma probe_status_nonempty env k : probe_status env k <> EmptyString.
Proof.
  unfold probe_status. destruct (snd (head env k)) as [hd | e].
  - destruct (show_Z (resp_status hd)); discriminate.
  - destruct (message e); discriminate.
Qed.

Lemma poll_loop_status env url v w :
  (attempts v = 0%nat \/ statusText v = probe_status env (attempts v - 1)) ->
  attempts (fst (poll_loop env url v w)) = 0%nat \/
  statusText (fst (poll_loop env url v w))
    = probe_status env (attempts (fst (poll_loop env url v w)) - 1).
Proof.
  revert v w.
  apply (poll_loop_induction env url
    (fun v w r =>
       (attempts v = 0%nat \/ statusText v = probe_status env (attempts v - 1)) ->
       attempts (fst r) = 0%nat \/
       statusText (fst r) = probe_status env (attempts (fst r) - 1))).
  - intros v w _ H. exact H.
  - intros v w v1 w1 _ E _.
    destruct (attempt_effect _ _ _ _ _ _ _ E) as (_ & Ha1 & _ & Hst & _).
    right. cbn [fst]. rewrite Hst, Ha1. f_equal. lia.
  - intros v w v1 w1 _ E IH _.
    destruct (attempt_effect _ _ _ _ _ _ _ E) as (_ & Ha1 & _ & Hst & _).
    apply IH. right. cbn [fst sleep_step statusText attempts].
    rewrite Hst, Ha1. f_equal. lia.
Qed.

(** X9: the last status the availability phase reports is that of the
    last probe it sent (the status line of the response, or the message
    of the error, or "fetch error"), and it is never empty. *)
Theorem poll_last_status env url w :
  exists p availabilityMs w',
    wait_for_gateway env url w = (w', Val (p, availabilityMs)) /\
    statusText p = probe_status env (attempts p - 1) /\
    statusText p <> EmptyString.
Proof.
  rewrite wait_for_gateway_eq.
  eexists. eexists. eexists. split; [reflexivity |].
  destruct (poll_loop_bounded env url poll_init w) as [B1 _ B3 _ _ _ _];
    [reflexivity | reflexivity | vm_compute; discriminate |].
  destruct (poll_loop_status env url poll_init w (or_introl eq_refl)) as [H0 | Hs].
  - exfalso. unfold maxWaitMs, pollIntervalMs in *. lia.
  - split; [exact Hs |]. rewrite Hs. apply probe_status_nonempty.
Qed.

(** What the script goes on with after the availability phase. *)
Lemma wait_for_gateway_returns env url :
  returns (fun r => statusText (fst r) <> EmptyString /\ 0 <= snd r)
          (wait_for_gateway env url).
Proof.
  intros w w' [p ms] E. rewrite wait_for_gateway_eq in E.
  inversion E as [[Hw Hp Hms]]. cbn [fst snd]. split; [| apply N2Z.is_nonneg].
  destruct (poll_loop_bounded env url poll_init w) as [B1 _ B3 _ _ _ _];
    [reflexivity | reflexivity | vm_compute; discriminate |].
  destruct (poll_loop_status env url poll_init w (or_introl eq_refl)) as [H0 | Hs].
  - exfalso. unfold maxWaitMs, pollIntervalMs in *. lia.
  - rewrite Hs. apply probe_status_nonempty.
Qed.

End PollFacts.

(* ===================================================================== *)
(** * Runs of the upload test *)
(* ===================================================================== *)

Module UploadRunFacts.
Import Js SizeParser Run Latency Ends LatencyVocab JsFacts RunFacts EndsFacts LatencyFacts
  PollFacts.
Local Open Scope string_scope.
Local Open Scope Z_scope.
Local Open Scope run_scope.
Local Open Scope list_scope.

(** ** The command line *)

Lemma upload_phase_no_usage env :
  missing_args env = false ->
  emits any (fun ev => is_usage ev = false) (upload_phase env).
Proof.
  intros Hargs. unfold upload_phase, call_parseSize. fold (missing_args env).
  rewrite Hargs. emits_walk. apply upload_loop_emits. reflexivity.
Qed.

Lemma main_no_usage env :
  missing_args env = false ->
  emits any (fun ev => is_usage ev = false) (main env).
Proof.
  intros Hargs. unfold main. apply emits_try_catch.
  - unfold main_body. apply emits_bind; [apply upload_phase_no_usage, Hargs |].
    intros u. apply emits_bind.
    + apply wait_for_gateway_emits; intros; reflexivity.
    + intros [p ms]. unfold after_poll, download_phase, save_results. emits_walk.
  - intros e. reflexivity.
  - intros e. unfold top_catch. emits_walk.
Qed.

(** X10: when the key file or the size is missing from the command
    line, the upload test prints the usage line on the error stream and
    exits with code 1 without doing anything else; and the usage line is
    printed in no other run. *)
Theorem usage_error_iff env :
  (missing_args env = true -> run env = ([Stderr LUsage], 1)) /\
  (In (Stderr LUsage) (fst (run env)) -> missing_args env = true).
Proof.
  split.
  - intros Hargs. unfold run, main, try_catch, main_body, upload_phase.
    fold (missing_args env). rewrite Hargs. reflexivity.
  - intros Hin. destruct (missing_args env) eqn:Hargs; [reflexivity |].
    pose proof (emits_from_empty _ _ (main env) start (main_no_usage env Hargs)
                  eq_refl I) as Hall.
    unfold run in Hin. destruct (main env start) as [w r]. cbn [fst] in *.
    rewrite Forall_forall in Hall. specialize (Hall _ Hin). discriminate.
Qed.

Lemma usage_error_iff_witness :
  run (sample_env ["key.json"] 0 payload) = ([Stderr LUsage], 1).
Proof.
  apply (proj1 (usage_error_iff (sample_env ["key.json"] 0 payload))).
  reflexivity.
Defined.

(** ** A size that does not parse *)

(** X11: a size that [parseSize] does not accept is not a usage error:
    with both arguments present, the run goes straight to the top-level
    [catch] with the format error, hands an error report with the
    message of that error to [writeFile] and exits with code 1; the key
    file is not read and nothing is sent. *)
Theorem invalid_size_reported env :
  missing_args env = false ->
  (forall n, parseSize (str_of (nth_error (argv env) 1)) <> Returned n) ->
  exists path r tail,
    run env =
      ([Caught "top" invalid_size; Stderr (LError invalid_size);
        WriteFile path (ErrorJson r)] ++ tail, 1) /\
    error r = "Invalid size, e.g. 512KB, 5MB, 1GB" /\
    (tail = [Stderr (LErrorSaved path)] \/
     exists writeErr, tail = [Caught "writeErr" writeErr; Stderr (LWriteFailed writeErr)]).
Proof.
  intros Hargs Hbad.
  assert (Hp : parseSize (str_of (nth_error (argv env) 1)) = Threw invalid_size).
  { unfold parseSize in *.
    destruct (size_match (str_of (nth_error (argv env) 1))) as [[ds u] |];
      [| reflexivity].
    exfalso. repeat (destruct (String.eqb _ _); [eapply Hbad; reflexivity |]).
    eapply Hbad; reflexivity. }
  assert (Hbody : main_body env start = (start, Throw invalid_size)).
  { unfold main_body, upload_phase, call_parseSize. fold (missing_args env).
    rewrite Hargs, Hp. reflexivity. }
  unfold run, main, try_catch. rewrite Hbody.
  unfold top_catch, try_catch, bind, emit, date_now, settle, await, exit.
  cbn [fst snd clock trace vars start message invalid_size or_else stack].
  destruct (writeFile env _) as [[] | writeErr];
    cbn [fst snd clock trace vars exit_code app];
    eexists; eexists; eexists; (split; [reflexivity | split; [reflexivity | eauto]]).
Qed.

Lemma invalid_size_reported_witness :
  exists path r tail,
    run (sample_env ["key.json"; "12TB"] 0 payload) =
      ([Caught "top" invalid_size; Stderr (LError invalid_size);
        WriteFile path (ErrorJson r)] ++ tail, 1) /\
    error r = "Invalid size, e.g. 512KB, 5MB, 1GB" /\
    (tail = [Stderr (LErrorSaved path)] \/
     exists writeErr, tail = [Caught "writeErr" writeErr; Stderr (LWriteFailed writeErr)]).
Proof.
  apply (invalid_size_reported (sample_env ["key.json"; "12TB"] 0 payload)).
  - reflexivity.
  - intros n. vm_compute. discriminate.
Defined.

(** ** How a run ends *)

Lemma proper_end_stderr tr l : proper_end (tr ++ [Stderr l]) 1.
Proof. unfold proper_end. rewrite last_event_snoc. reflexivity. Qed.

Lemma upload_loop_exits Q chunks : exits Q (upload_loop chunks).
Proof. induction chunks as [| c rest IH]; simpl; exits_walk; exact IH. Qed.

Lemma upload_phase_exits env : exits proper_end (upload_phase env).
Proof.
  unfold upload_phase, call_parseSize. exits_walk;
    auto using proper_end_stderr, upload_loop_exits.
Qed.

Lemma wait_for_gateway_exits Q env url : exits Q (wait_for_gateway env url).
Proof. intros w w' c E. rewrite wait_for_gateway_eq in E. discriminate. Qed.

Lemma after_poll_exits env u p ms : exits proper_end (after_poll env u p ms).
Proof.
  unfold after_poll, download_phase, save_results. exits_walk.
  - unfold proper_end. rewrite last_event_snoc. reflexivity.
  - apply proper_end_stderr.
Qed.

Lemma after_poll_yields env u p ms :
  yields (fun tr => proper_end tr 0) (after_poll env u p ms).
Proof.
  unfold after_poll, download_phase, save_results. yields_walk.
  unfold proper_end. rewrite last_event_snoc. reflexivity.
Qed.

Lemma top_catch_run env e w :
  exists w', top_catch env e w = (w', Exit 1) /\ proper_end (trace w') 1.
Proof.
  unfold top_catch, try_catch, bind, emit, date_now, settle, await, exit.
  cbn [fst snd clock trace vars].
  destruct (writeFile env _) as [[] | writeErr]; cbn [fst snd clock trace vars];
    eexists; (split; [reflexivity | apply proper_end_stderr]).
Qed.

Lemma main_ends env :
  exists w r, main env start = (w, r) /\ proper_end (trace w) (exit_code r).
Proof.
  unfold main, try_catch.
  destruct (main_body env start) as [w [[] | e | c]] eqn:Hb.
  - eexists. eexists. split; [reflexivity |]. cbn [exit_code].
    revert Hb. unfold main_body. intros Hb.
    eapply (yields_bind (fun tr => proper_end tr 0)); [| exact Hb].
    intros u. apply yields_bind. intros [p ms]. apply after_poll_yields.
  - unfold bind at 1, emit at 1. cbn [fst snd].
    match goal with |- context [top_catch env e ?w0] =>
      destruct (top_catch_run env e w0) as (w' & -> & Hend) end.
    eexists. eexists. split; [reflexivity | exact Hend].
  - eexists. eexists. split; [reflexivity |]. cbn [exit_code].
    revert Hb. unfold main_body. intros Hb.
    eapply (exits_bind proper_end); [| | exact Hb].
    + apply upload_phase_exits.
    + intros u. apply exits_bind; [apply wait_for_gateway_exits |].
      intros [p ms]. apply after_poll_exits.
Qed.

(** X12: the upload test exits with code 0 or 1.  It exits with 0 only
    right after the line that says it stops before the download or the
    line that says the results were saved, and with 1 only right after a
    line on the error stream. *)
Theorem upload_exit_status env :
  proper_end (fst (run env)) (snd (run env)) /\
  (snd (run env) = 0 \/ snd (run env) = 1).
Proof.
  destruct (main_ends env) as (w & r & Hmain & H).
  unfold run. rewrite Hmain. cbn [fst snd].
  split; [exact H |].
  unfold proper_end in H.
  destruct (last_event (trace w)) as [[[] | l | | | | |] |]; auto; contradiction.
Qed.

(** ** A download that is refused *)

Lemma upload_phase_no_write env :
  emits any (fun ev => is_write ev = false) (upload_phase env).
Proof.
  apply upload_phase_emits; intros; reflexivity.
Qed.

(** X13: when the gateway became available and then answers the
    download with a status that is not ok, the upload test prints that
    status on the error stream right after the GET and exits with code
    1; no file is written, neither a report nor an error report. *)
Theorem download_refused_not_reported env w1 u resp :
  upload_phase env start = (w1, Val u) ->
  available (fst (poll_loop env (url_of u) poll_init w1)) = true ->
  snd (get env) = Resolved resp ->
  ok resp = false ->
  snd (run env) = 1 /\
  Forall (fun ev => is_write ev = false) (fst (run env)) /\
  exists tr,
    fst (run env) =
    tr ++ [Fetch "GET" (url_of u);
           Stderr (LUnexpectedStatus (resp_status resp) (resp_statusText resp))].
Proof.
  intros Hup Hav Hget Hok.
  pose proof (upload_phase_no_write env _ _ _ I Hup) as (_ & evs1 & T1 & F1).
  pose proof (wait_for_gateway_emits (fun ev => is_write ev = false) env (url_of u)
                ltac:(reflexivity) ltac:(reflexivity) ltac:(reflexivity)
                w1 _ _ I (wait_for_gateway_eq env (url_of u) w1))
    as (_ & evs2 & T2 & F2).
  set (r := poll_loop env (url_of u) poll_init w1) in *.
  assert (E : main env start =
              (mkWorld (clock (snd r) + fst (get env))%N
                 (trace (snd r) ++
                  [Stdout (LAvailability true (statusText (fst r)));
                   Stdout (LTimeUntil (Z.of_N ((clock (snd r) - clock w1) / 1000000)%N));
                   Fetch "GET" (url_of u);
                   Stderr (LUnexpectedStatus (resp_status resp) (resp_statusText resp))])
                 (vars (snd r)),
               Exit 1)).
  { unfold main, try_catch, main_body. unfold bind at 1. rewrite Hup.
    unfold bind at 1. rewrite wait_for_gateway_eq. fold r. cbn [fst snd].
    unfold after_poll, download_phase, bind, emit, exit, now, await.
    cbn [fst snd clock trace vars].
    rewrite Hav, Hget. cbn [negb clock trace vars]. rewrite Hok.
    cbn [negb clock trace vars]. rewrite <- !app_assoc. reflexivity. }
  unfold run. rewrite E. cbn [fst snd trace exit_code]. split; [reflexivity |].
  split.
  - cbn [fst snd] in T2. rewrite T2, T1. cbn [trace start app].
    repeat (apply Forall_app; split); auto; repeat constructor.
  - exists (trace (snd r) ++
            [Stdout (LAvailability true (statusText (fst r)));
             Stdout (LTimeUntil (Z.of_N ((clock (snd r) - clock w1) / 1000000)%N))]).
    rewrite <- app_assoc. reflexivity.
Qed.

Lemma download_refused_not_reported_witness :
  snd (run broken_download_env) = 1 /\
  Forall (fun ev => is_write ev = false) (fst (run broken_download_env)) /\
  exists tr,
    fst (run broken_download_env) =
    tr ++ [Fetch "GET" "http://localhost:1984/TXID";
           Stderr (LUnexpectedStatus 502 "Bad Gateway")].
Proof.
  apply (download_refused_not_reported broken_download_env
           (mkWorld 5000000
              [Call "readFile"; Stdout (LGenerating (Int 3));
               Call "randomBytes"; Stdout (LGateway "http://localhost:1984/");
               Call "createTransaction"; Call "sign";
               Call "getUploader"; Call "uploadChunk"; Stdout (LTxId "TXID");
               Stdout (LUploadLatency 5); Stdout LUploadThroughput] tt)
           (mkUploaded "http://localhost:1984/" "3" (Int 3) payload "TXID" 5)
           (response 502 "Bad Gateway" [])).
  - vm_compute. reflexivity.
  - vm_compute. reflexivity.
  - reflexivity.
  - reflexivity.
Defined.

(** ** A download that does not match *)

(** X14: the verdict of the integrity check does not change how the run
    ends: when the download is served and the report can be written, the
    run prints the verdict, writes the report with that verdict and
    exits with code 0, whether the verdict is PASS or FAIL. *)
Theorem integrity_failure_not_fatal env w1 u resp dlBuf :
  upload_phase env start = (w1, Val u) ->
  available (fst (poll_loop env (url_of u) poll_init w1)) = true ->
  snd (get env) = Resolved resp ->
  ok resp = true ->
  resp_body resp = Resolved dlBuf ->
  writeFile env ("arweave-test-" ++ up_txid u ++ ".json")%string = Resolved tt ->
  snd (run env) = 0 /\
  In (Stdout (LIntegrity (verdict (same (up_sizeBytes u) (up_data u) dlBuf))))
     (fst (run env)) /\
  exists r,
    In (WriteFile ("arweave-test-" ++ up_txid u ++ ".json")%string (ResultsJson r))
       (fst (run env)) /\
    integrityCheck r = verdict (same (up_sizeBytes u) (up_data u) dlBuf).
Proof.
  intros Hup Hav Hget Hok Hbody Hwrite.
  set (r := poll_loop env (url_of u) poll_init w1) in *.
  assert (E : exists w' res,
             main env start = (w', Val tt) /\
             In (WriteFile ("arweave-test-" ++ up_txid u ++ ".json")%string
                           (ResultsJson res)) (trace w') /\
             integrityCheck res = verdict (same (up_sizeBytes u) (up_data u) dlBuf) /\
             In (Stdout (LIntegrity (verdict (same (up_sizeBytes u) (up_data u) dlBuf))))
                (trace w')).
  { unfold main, try_catch, main_body. unfold bind at 1. rewrite Hup.
    unfold bind at 1. rewrite wait_for_gateway_eq. fold r. cbn [fst snd].
    unfold after_poll, download_phase, save_results, bind, emit, exit, now, await,
      settle, elapsedMs, date_now.
    cbn [fst snd clock trace vars].
    rewrite Hav, Hget. cbn [negb clock trace vars]. rewrite Hok.
    cbn [negb clock trace vars]. rewrite Hbody.
    cbn [fst snd clock trace vars transaction_id].
    rewrite Hwrite. cbn [fst snd clock trace vars].
    eexists. eexists. split; [reflexivity |]. cbn [trace].
    split; [| split].
    - repeat (apply in_or_app; first [right; left; reflexivity | left]).
    - reflexivity.
    - repeat (apply in_or_app; first [right; left; reflexivity | left]). }
  destruct E as (w' & res & E & Hw & Hres & Hi).
  unfold run. rewrite E. cbn [fst snd exit_code].
  split; [reflexivity |]. split; [exact Hi |].
  exists res. auto.
Qed.

Lemma integrity_failure_not_fatal_witness :
  snd (run (sample_env ["key.json"; "3"] 0 ["x"%byte; "y"%byte; "x"%byte])) = 0 /\
  In (Stdout (LIntegrity "FAIL"))
     (fst (run (sample_env ["key.json"; "3"] 0 ["x"%byte; "y"%byte; "x"%byte]))) /\
  exists r,
    In (WriteFile "arweave-test-TXID.json" (ResultsJson r))
       (fst (run (sample_env ["key.json"; "3"] 0 ["x"%byte; "y"%byte; "x"%byte]))) /\
    integrityCheck r = "FAIL".
Proof.
  apply (integrity_failure_not_fatal
           (sample_env ["key.json"; "3"] 0 ["x"%byte; "y"%byte; "x"%byte])
           (mkWorld 12000000
              [Call "readFile"; Stdout (LGenerating (Int 3));
               Call "randomBytes"; Stdout (LGateway "https://arweave.net");
               Call "createTransaction"; Call "sign";
               Call "getUploader"; Call "uploadChunk"; Call "uploadChunk";
               Stdout (LTxId "TXID");
               Stdout (LUploadLatency 12); Stdout LUploadThroughput] tt)
           (mkUploaded "https://arweave.net" "3" (Int 3) payload "TXID" 12)
           (response 200 "OK" ["x"%byte; "y"%byte; "x"%byte])
           ["x"%byte; "y"%byte; "x"%byte]).
  - vm_compute. reflexivity.
  - vm_compute. reflexivity.
  - reflexivity.
  - reflexivity.
  - reflexivity.
  - reflexivity.
Defined.

(** ** What a report says *)

Lemma upload_phase_uploaded env : returns (uploaded_from env) (upload_phase env).
Proof.
  intros w w' u H. unfold upload_phase, call_parseSize, uploaded_from in *.
  set (sizeArg := nth_error (argv env) 1) in *.
  set (gatewayArg := nth_error (argv env) 2) in *.
  run_inv H.
  inversion H; subst; clear H.
  cbn [up_gateway up_sizeArg up_sizeBytes up_txid up_uploadMs].
  match goal with
  | E : match parseSize ?x with _ => _ end _ = _ |- _ =>
      destruct (parseSize x); inversion E; subst
  end.
  match goal with
  | E : match sign ?e with _ => _ end = _ |- _ =>
      destruct (sign e); inversion E; subst
  end.
  repeat split. apply N2Z.is_nonneg.
Qed.

Lemma download_phase_consistent env u p ms :
  uploaded_from env u -> available p = true -> statusText p <> EmptyString ->
  0 <= ms ->
  emits any (report_consistent env) (download_phase env u p ms).
Proof.
  intros (Hg & Ha & Hp & Hs & Hu) Hav Hst Hms. unfold download_phase.
  apply emits_bind; [auto with emits | intros tDlStart].
  apply emits_bind; [emits_walk | intros _].
  apply emits_bind; [auto with emits | intros resp].
  destruct (negb (ok resp)); [emits_walk |].
  apply emits_bind; [auto with emits | intros dlBuf].
  apply (emits_bind_returns _ _ (fun ms => 0 <= ms));
    [auto with emits | apply returns_elapsedMs | intros downloadMs Hdl].
  do 4 (apply emits_bind; [emits_walk | intros _]).
  apply emits_bind; [auto with emits | intros ts].
  unfold save_results. emits_walk.
  cbn [report_consistent transaction_id].
  split; cbn [transaction_id gateway transaction_url fileSize_humanReadable
              fileSize_bytes gatewayAvailability_available
              gatewayAvailability_lastStatus upload_latencyMs
              gatewayAvailability_latencyMs download_latencyMs];
    auto.
Qed.

Lemma main_report_consistent env : emits any (report_consistent env) (main env).
Proof.
  unfold main. apply emits_try_catch.
  - unfold main_body.
    apply (emits_bind_returns _ _ (uploaded_from env)).
    + apply upload_phase_emits; intros; exact I.
    + apply upload_phase_uploaded.
    + intros u Hu.
      apply (emits_bind_returns _ _
               (fun r => statusText (fst r) <> EmptyString /\ 0 <= snd r)).
      * apply wait_for_gateway_emits; intros; exact I.
      * apply wait_for_gateway_returns.
      * intros [p ms] [Hst Hms]. unfold after_poll. cbn [fst snd] in *.
        do 2 (apply emits_bind; [emits_walk | intros _]).
        destruct (available p) eqn:Hav; cbn [negb]; [| emits_walk].
        apply download_phase_consistent; assumption.
  - intros e. exact I.
  - intros e. apply top_catch_emits; intros; exact I.
Qed.

(** X15: every report the upload test writes goes to the file named
    after the transaction id; it holds the id the signing gave, the
    gateway of the command line or the default one, the transaction
    address built from the two, the size argument and the byte count
    [parseSize] gives for it, [available = true], a last status that is
    not empty, and latencies that are not negative. *)
Theorem upload_report_consistent env path r :
  In (WriteFile path (ResultsJson r)) (fst (run env)) -> consistent env path r.
Proof.
  intros Hin.
  pose proof (emits_from_empty _ _ (main env) start (main_report_consistent env)
                eq_refl I) as Hall.
  unfold run in Hin. destruct (main env start) as [w r0]. cbn [fst] in *.
  rewrite Forall_forall in Hall. exact (Hall _ Hin).
Qed.

Lemma upload_report_consistent_witness :
  consistent (sample_env ["key.json"; "3"] 2 payload) "arweave-test-TXID.json"
    (mkResults 1700000004195 "https://arweave.net" (Int 3) "3" 12 4093
               true "200 OK" 90 "PASS" "TXID" "https://arweave.net/TXID").
Proof.
  apply upload_report_consistent.
  vm_compute. do 24 right. left. reflexivity.
Defined.

(** ** The first thing a run does *)

Lemma upload_starts_with_key env n :
  missing_args env = false ->
  parseSize (str_of (nth_error (argv env) 1)) = Returned n ->
  exists tr, fst (run env) = Call "readFile" :: tr.
Proof.
  intros Hargs Hp.
  assert (H : starts (Call "readFile") (main env)).
  { unfold main. apply starts_try_catch;
      [| intros e; apply top_catch_emits; intros; exact I].
    unfold main_body. apply starts_bind.
    - unfold upload_phase, call_parseSize. fold (missing_args env).
      rewrite Hargs, Hp. apply starts_ret_bind. apply starts_emit_bind.
      intros _. emits_walk. apply upload_loop_emits. exact I.
    - intros u. apply emits_bind.
      + apply wait_for_gateway_emits; intros; exact I.
      + intros [p ms]. unfold after_poll, download_phase, save_results. emits_walk. }
  unfold run. destruct (main env start) as [w r] eqn:E.
  destruct (H _ _ _ E) as (evs & T). exists evs. exact T.
Qed.

(** ** The requests of a run *)

Lemma main_requests env : emits any (request_to env) (main env).
Proof.
  unfold main. apply emits_try_catch.
  - unfold main_body.
    apply (emits_bind_returns _ _ (uploaded_from env)).
    + apply upload_phase_emits; intros; exact I.
    + apply upload_phase_uploaded.
    + intros u (Hg & _ & _ & Hs & _).
      assert (Hurl : forall m, m = "HEAD" \/ m = "GET" ->
                               request_to env (Fetch m (url_of u))).
      { intros m Hm. split; [exact Hm |]. exists (up_txid u).
        unfold url_of. rewrite Hg. auto. }
      apply emits_bind.
      * apply wait_for_gateway_emits; intros; try exact I. apply Hurl. auto.
      * intros [p ms]. unfold after_poll, download_phase, save_results.
        emits_walk. apply Hurl. auto.
  - intros e. exact I.
  - intros e. apply top_catch_emits; intros; exact I.
Qed.

(** X16: every request the upload script itself sends with [fetch],
    the HEAD probes and the download alike, goes to one address: the
    gateway of the command line or the default one, one trailing slash
    removed, followed by the id of the signed transaction.  The requests
    the Arweave client makes to upload are calls of that client, not
    fetches of the script; they are not covered. *)
Theorem requests_same_address env method url :
  In (Fetch method url) (fst (run env)) ->
  (method = "HEAD" \/ method = "GET") /\
  exists txid,
    sign env = Resolved txid /\
    url = (strip_trailing_slash
             (or_else (str_of (nth_error (argv env) 2)) "https://arweave.net")
           ++ "/" ++ txid)%string.
Proof.
  intros Hin.
  pose proof (emits_from_empty _ _ (main env) start (main_requests env) eq_refl I)
    as Hall.
  unfold run in Hin. destruct (main env start) as [w r0]. cbn [fst] in *.
  rewrite Forall_forall in Hall. exact (Hall _ Hin).
Qed.

Lemma requests_same_address_witness :
  ("GET" = "HEAD" \/ "GET" = "GET") /\
  exists txid,
    sign broken_download_env = Resolved txid /\
    "http://localhost:1984/TXID"
    = (strip_trailing_slash
         (or_else (str_of (nth_error (argv broken_download_env) 2)) "https://arweave.net")
       ++ "/" ++ txid)%string.
Proof.
  apply (requests_same_address broken_download_env "GET" "http://localhost:1984/TXID").
  vm_compute. do 14 right. left. reflexivity.
Defined.

(** ** A call of the uploader that fails *)

Lemma upload_loop_resolved done : forall w,
  Forall call_resolves done ->
  forall rest,
    upload_loop (done ++ rest) w =
    upload_loop rest
      (mkWorld (clock w + fold_right (fun c t => fst c + t) 0 done)%N
               (trace w ++ repeat (Call "uploadChunk") (List.length done)) (vars w)).
Proof.
  induction done as [| [d o] done IH]; intros w F rest.
  - cbn [app fold_right List.length repeat]. rewrite N.add_0_r, app_nil_r.
    destruct w; reflexivity.
  - inversion F as [| ? ? Hc Fd]; subst. unfold call_resolves in Hc. cbn [snd] in Hc. subst o.
    cbn [app upload_loop]. unfold bind at 1. unfold emit at 1. cbn [fst snd].
    unfold bind at 1, await. cbn [fst snd clock trace vars].
    rewrite (IH _ Fd). cbn [clock trace vars fold_right List.length repeat fst].
    rewrite <- app_assoc, N.add_assoc. reflexivity.
Qed.

Lemma count_repeat_upload n :
  count is_upload_call (repeat (Call "uploadChunk" : Event) n) = n.
Proof.
  induction n as [| n IH]; [reflexivity |].
  unfold count in *. cbn [repeat filter is_upload_call String.eqb]. simpl.
  rewrite IH. reflexivity.
Qed.

Lemma no_fetch_repeat_upload n :
  Forall (fun ev => is_fetch ev = false) (repeat (Call "uploadChunk" : Event) n).
Proof. induction n; constructor; auto. Qed.

(** X17: when a call of [uploader.uploadChunk()] rejects, the upload
    test does not call it again and does not go on: after the calls that
    resolved and the one that rejected, the run enters the top-level
    [catch] with that error, hands an error report to [writeFile] and
    exits with code 1, and it sends no HEAD probe and no download
    request. *)
Theorem upload_call_failure_aborts env done d e rest :
  reaches_upload env ->
  uploadChunk env = done ++ (d, Rejected e) :: rest ->
  Forall call_resolves done ->
  exists pre path r tail,
    run env =
      (pre ++ [Caught "top" e; Stderr (LError e); WriteFile path (ErrorJson r)]
           ++ tail, 1) /\
    (tail = [Stderr (LErrorSaved path)] \/
     exists writeErr,
       tail = [Caught "writeErr" writeErr; Stderr (LWriteFailed writeErr)]) /\
    count is_upload_call (fst (run env)) = S (List.length done) /\
    Forall (fun ev => is_fetch ev = false) (fst (run env)).
Proof.
  intros [Hargs (n & data & Hsize & Hrandom & Hcreate) Hkey (txid & Hsign) Hup]
         Hchunks Hdone.
  assert (Hbody : exists w',
             main_body env start = (w', Throw e) /\
             trace w' =
             [Call "readFile"; Stdout (LGenerating n); Call "randomBytes";
              Stdout (LGateway (or_else (str_of (nth_error (argv env) 2))
                                        "https://arweave.net"));
              Call "createTransaction"; Call "sign"; Call "getUploader"]
               ++ repeat (Call "uploadChunk") (S (List.length done))).
  { unfold main_body, upload_phase, call_parseSize. fold (missing_args env).
    rewrite Hargs, Hsize, Hchunks. unfold start.
    unfold bind at 1. unfold bind at 1. unfold ret at 1.
    unfold bind at 1. unfold emit at 1. cbn [fst snd clock trace vars].
    unfold bind at 1. unfold settle at 1, await at 1. rewrite Hkey. cbn [fst snd clock trace vars].
    unfold bind at 1. unfold emit at 1. cbn [fst snd clock trace vars].
    unfold bind at 1. unfold emit at 1. cbn [fst snd clock trace vars].
    unfold bind at 1. unfold settle at 1, await at 1. rewrite Hrandom. cbn [fst snd clock trace vars].
    unfold bind at 1. unfold emit at 1. cbn [fst snd clock trace vars].
    unfold bind at 1. unfold emit at 1. cbn [fst snd clock trace vars].
    unfold bind at 1. unfold settle at 1, await at 1. rewrite Hcreate. cbn [fst snd clock trace vars].
    unfold bind at 1. unfold emit at 1. cbn [fst snd clock trace vars].
    unfold bind at 1. unfold settle at 1, await at 1. rewrite Hsign. cbn [fst snd clock trace vars].
    unfold bind at 1. unfold emit at 1. cbn [fst snd clock trace vars].
    unfold bind at 1. unfold settle at 1, await at 1. rewrite Hup. cbn [fst snd clock trace vars].
    unfold bind at 1. unfold now at 1. cbn [fst snd clock trace vars].
    unfold bind at 1. rewrite (upload_loop_resolved done _ Hdone).
    cbn [upload_loop]. unfold bind at 1. unfold emit at 1. cbn [fst snd].
    unfold bind at 1. unfold await at 1. cbn [fst snd clock trace vars].
    eexists. split; [reflexivity |]. cbn [trace app].
    change (S (List.length done)) with (1 + List.length done)%nat.
    rewrite Nat.add_comm, repeat_app. cbn [repeat].
    repeat (rewrite <- app_assoc; cbn [app]). reflexivity. }
  destruct Hbody as (w' & Hbody & T).
  destruct (upload_error_reported env w' e Hbody)
    as (path & r & tail & Hrun & _ & _ & _ & Htail & _).
  assert (Htail' : tail = [Stderr (LErrorSaved path)] \/
                   exists writeErr,
                     tail = [Caught "writeErr" writeErr; Stderr (LWriteFailed writeErr)]).
  { destruct Htail as [[_ ->] | (writeErr & _ & ->)]; eauto. }
  exists (trace w'), path, r, tail.
  split; [exact Hrun |]. split; [exact Htail' |].
  rewrite Hrun. cbn [fst]. rewrite T. split.
  - rewrite !count_app, count_repeat_upload.
    destruct Htail' as [-> | (writeErr & ->)]; unfold count; cbn; lia.
  - repeat (apply Forall_app; split); auto using no_fetch_repeat_upload;
      try (repeat constructor).
    destruct Htail' as [-> | (writeErr & ->)]; repeat constructor.
Qed.

Lemma upload_call_failure_aborts_witness :
  exists pre path r tail,
    run failing_upload_env =
      (pre ++ [Caught "top" hang_up; Stderr (LError hang_up);
               WriteFile path (ErrorJson r)] ++ tail, 1) /\
    (tail = [Stderr (LErrorSaved path)] \/
     exists writeErr,
       tail = [Caught "writeErr" writeErr; Stderr (LWriteFailed writeErr)]) /\
    count is_upload_call (fst (run failing_upload_env)) = 2%nat /\
    Forall (fun ev => is_fetch ev = false) (fst (run failing_upload_env)).
Proof.
  apply (upload_call_failure_aborts failing_upload_env
           [(5000000%N, Resolved tt)] 7000000%N hang_up [(5000000%N, Resolved tt)]).
  - split.
    + reflexivity.
    + exists (Int 3), payload. repeat split; reflexivity.
    + reflexivity.
    + exists "TXID". reflexivity.
    + reflexivity.
  - reflexivity.
  - repeat constructor.
Defined.

End UploadRunFacts.

(* ===================================================================== *)
(** * Runs of the read test *)
(* ===================================================================== *)

Module ReadRunFacts.
Import Js Run Read Ends ReadVocab JsFacts RunFacts EndsFacts ReadFacts.
Local Open Scope string_scope.
Local Open Scope Z_scope.
Local Open Scope run_scope.
Local Open Scope list_scope.

(** ** The command line *)

Lemma read_main_no_usage env :
  truthy (nth_error (argv env) 0) = true ->
  emits any (fun ev => is_usage ev = false) (main env).
Proof.
  intros Hargs.
  unfold main, main_body, before_download, setup, metadata_phase, head_phase,
    download_phase, download_try, download_catch, receive, outer_catch,
    log_content_type_tag, when, log, log_error.
  rewrite Hargs. cbn [negb].
  emits_walk.
  - apply parse_tags_emits. intros; exact I.
  - apply read_loop_emits; intros; try exact I; reflexivity.
Qed.

(** X18: without a transaction id the read test prints its two usage
    lines on the error stream and exits with code 1 without doing
    anything else; and the usage line is printed in no other run. *)
Theorem read_usage_error_iff env :
  (truthy (nth_error (argv env) 0) = false ->
   run env = ([Stderr LUsage; Stderr LUsageExample], 1)) /\
  (In (Stderr LUsage) (fst (run env)) -> truthy (nth_error (argv env) 0) = false).
Proof.
  split.
  - intros Hargs. unfold run, main, try_catch, main_body, before_download, setup.
    rewrite Hargs. reflexivity.
  - intros Hin. destruct (truthy (nth_error (argv env) 0)) eqn:Hargs; [| reflexivity].
    pose proof (emits_from_empty _ _ (main env) start (read_main_no_usage env Hargs)
                  eq_refl I) as Hall.
    unfold run in Hin. destruct (main env start) as [w r]. cbn [fst] in *.
    rewrite Forall_forall in Hall. specialize (Hall _ Hin). discriminate.
Qed.

Lemma read_usage_error_iff_witness :
  run bare_env = ([Stderr LUsage; Stderr LUsageExample], 1).
Proof.
  apply (proj1 (read_usage_error_iff bare_env)). reflexivity.
Defined.

(** ** The metadata request *)

Lemma parse_tags_run env l : forall w,
  exists w' r,
    parse_tags env l w = (w', r) /\
    expectedSize (vars w') = expectedSize (vars w) /\
    trace w' = trace w /\
    (r = Val tt \/ exists e, r = Throw e).
Proof.
  induction l as [| [n x | e] rest IH]; intros w.
  - exists w, (Val tt). repeat split; auto.
  - cbn [parse_tags]. unfold bind at 1, assign at 1. cbn [fst snd].
    match goal with |- context [parse_tags env rest ?w0] =>
      destruct (IH w0) as (w' & r & E & He & Ht & Hr) end.
    exists w', r. cbn [clock trace vars set_tag expectedSize] in He, Ht.
    repeat split; auto.
  - exists w, (Throw e). cbn [parse_tags]. unfold throw. repeat split; eauto.
Qed.

Ltac run_step :=
  cbv beta iota delta [bind emit now await settle assign elapsedMs date_now read_vars
                       ret throw exit when log log_error fst snd];
  cbn [clock trace vars].

Lemma metadata_phase_run env g t w :
  expectedSize (vars w) = Int 0 ->
  exists w',
    metadata_phase env g t w = (w', Val tt) /\
    expectedSize (vars w') = declared_size env.
Proof.
  intros Hw.
  destruct (metadata_phase_returns env g t w) as (w' & E).
  exists w'. split; [exact E |].
  revert E. unfold declared_size, metadata_phase, try_catch, log_content_type_tag.
  destruct (meta env) as [d [metaResp | e1]]; run_step.
  - destruct (ok metaResp); run_step.
    + destruct (meta_json env) as [metadata | e2]; run_step.
      * destruct (tags_field metadata) as [l |].
        -- match goal with |- context [parse_tags env l ?w0] =>
             destruct (parse_tags_run env l w0) as (w1 & r & -> & He & _ & Hr) end.
           cbn [vars set_expectedSize expectedSize] in He.
           destruct Hr as [-> | (e & ->)]; run_step.
           ++ destruct (truthy _); run_step;
                intros E; inversion E; subst; exact He.
           ++ intros E; inversion E; subst; exact He.
        -- run_step. cbn [set_expectedSize expectedSize].
           destruct (truthy _); run_step;
             intros E; inversion E; subst; reflexivity.
      * intros E; inversion E; subst; exact Hw.
    + intros E; inversion E; subst; exact Hw.
  - intros E; inversion E; subst; exact Hw.
Qed.

(** X19: the metadata phase of the read test always runs to its end,
    whatever the metadata request does (it throws, answers with a
    status that is not ok, gives no JSON, or carries a tag that cannot
    be decoded); started with an expected size of 0 it leaves the
    declared size as the expected size. *)
Theorem metadata_never_fatal env g t w :
  expectedSize (vars w) = Int 0 ->
  exists w',
    metadata_phase env g t w = (w', Val tt) /\
    expectedSize (vars w') = declared_size env.
Proof. apply metadata_phase_run. Qed.

Lemma metadata_never_fatal_witness :
  exists w',
    metadata_phase bad_tags_env "https://arweave.net" "TXID" start = (w', Val tt) /\
    expectedSize (vars w') = declared_size bad_tags_env.
Proof. apply metadata_never_fatal. reflexivity. Defined.

(** ** The HEAD probe *)

Lemma setup_run env w :
  setup env w =
  if truthy (nth_error (argv env) 0)
  then (mkWorld (clock w)
          (trace w ++ [Stdout (LReading (txid (target_of env)));
                       Stdout (LGateway (gateway (target_of env)));
                       Stdout (LRawUrl (rawUrl (target_of env)));
                       Stdout (LTxUrl (txUrl (target_of env)));
                       Stdout LBlank])
          (vars w), Val (target_of env))
  else (mkWorld (clock w) (trace w ++ [Stderr LUsage; Stderr LUsageExample]) (vars w),
        Exit 1).
Proof.
  unfold setup. destruct (truthy (nth_error (argv env) 0)); cbn [negb]; run_step;
    rewrite <- !app_assoc; reflexivity.
Qed.

Lemma before_download_not_download env :
  emits any (fun ev => is_download ev = false) (before_download env).
Proof.
  unfold before_download, setup, metadata_phase, head_phase, log_content_type_tag,
    when, log, log_error.
  emits_walk. apply parse_tags_emits. intros; exact I.
Qed.




Lemma head_phase_probes env url w :
  exists w' r evs,
    head_phase env url w = (w', r) /\
    trace w' = trace w ++ [Stdout LCheckingAvailability; Fetch "HEAD" url] ++ evs.
Proof.
  unfold head_phase, try_catch. destruct (head env) as [d [hd | e]]; run_step.
  - destruct (ok hd); cbn [negb]; run_step;
      eexists; eexists; eexists; (split; [reflexivity |]);
      cbn [trace]; repeat (rewrite <- app_assoc; cbn [app]); reflexivity.
  - eexists. eexists. eexists. split; [reflexivity |].
    cbn [trace]. repeat (rewrite <- app_assoc; cbn [app]). reflexivity.
Qed.

Lemma read_download_grows env t : emits any (fun _ => True) (download_phase env t).
Proof.
  unfold download_phase, download_try, download_catch, receive, when, log, log_error.
  emits_walk. apply read_loop_emits; intros; exact I.
Qed.

Lemma read_requests env : emits any (request_of env) (main env).
Proof.
  unfold main. apply emits_try_catch;
    [| intros e; exact I | intros e; unfold outer_catch, log_error; emits_walk].
  unfold main_body, before_download.
  apply (emits_bind_returns _ _ (fun t => t = target_of env)).
  - apply (emits_bind_returns _ _ (fun t => t = target_of env)).
    + unfold setup, log, log_error. emits_walk.
    + intros w w' t E. rewrite setup_run in E.
      destruct (truthy _); inversion E. reflexivity.
    + intros t ->. unfold metadata_phase, head_phase, log_content_type_tag, when,
        log, log_error.
      emits_walk.
      all: first [ apply parse_tags_emits; intros; exact I
                 | left; split; reflexivity
                 | right; left; split; reflexivity ].
  - intros w w' t E. unfold bind at 1 in E.
    rewrite setup_run in E. destruct (truthy _); [| discriminate].
    run_inv E. inversion E. reflexivity.
  - intros t ->. unfold download_phase, download_try, download_catch, receive, when,
      log, log_error.
    emits_walk.
    all: first [ apply read_loop_emits; intros; exact I
               | right; right; split; reflexivity ].
Qed.

(** X21: the read test sends no request but these three: the GET of the
    metadata under /tx/, the HEAD probe and the GET of the raw endpoint,
    all on the gateway of the command line with one trailing slash
    removed; and whenever a transaction id is given the HEAD probe is
    sent, whatever became of the metadata request. *)
Theorem read_requests_known env :
  Forall (request_of env) (fst (run env)) /\
  (truthy (nth_error (argv env) 0) = true ->
   In (Fetch "HEAD" (rawUrl (target_of env))) (fst (run env))).
Proof.
  split.
  - pose proof (emits_from_empty _ _ (main env) start (read_requests env) eq_refl I)
      as Hall.
    unfold run. destruct (main env start) as [w r]. exact Hall.
  - intros Hargs.
    assert (Hin : forall w0 r, before_download env start = (w0, r) ->
                               In (Fetch "HEAD" (rawUrl (target_of env))) (trace w0)).
    { intros w0 r. unfold before_download. unfold bind at 1.
      rewrite setup_run, Hargs. unfold bind at 1.
      match goal with |- context [metadata_phase env ?g ?t ?w1] =>
        destruct (metadata_phase_returns env g t w1) as (w2 & ->) end.
      unfold bind at 1.
      destruct (head_phase_probes env (rawUrl (target_of env)) w2)
        as (w3 & r3 & evs & -> & T).
      intros E.
      assert (Hw : trace w0 = trace w3) by (destruct r3; inversion E; reflexivity).
      rewrite Hw, T. apply in_or_app. right. right. left. reflexivity. }
    destruct (before_download env start) as [w0 r] eqn:Hb.
    specialize (Hin w0 r eq_refl).
    unfold run, main, try_catch, main_body. unfold bind at 1. rewrite Hb.
    destruct r as [t | e | c]; cbn [fst trace]; [| | exact Hin].
    + destruct (download_phase env t w0) as [w1 r1] eqn:Hd.
      destruct (read_download_grows env t _ _ _ I Hd) as (_ & evs1 & T1 & _).
      destruct r1 as [[] | e | c]; cbn [fst trace].
      * rewrite T1. apply in_or_app. left. exact Hin.
      * unfold outer_catch. run_step. cbn [fst trace].
        rewrite T1. repeat (apply in_or_app; left). exact Hin.
      * rewrite T1. apply in_or_app. left. exact Hin.
    + exfalso. exact (before_download_never_throws env _ _ _ Hb).
Qed.

Lemma read_requests_known_witness :
  In (Fetch "HEAD" "https://arweave.net/raw/TXID") (fst (run refusing_env)).
Proof.
  apply (proj2 (read_requests_known refusing_env)). reflexivity.
Defined.

(** ** How a run ends *)

Lemma read_proper_end_stderr tr l : proper_end (tr ++ [Stderr l]) 1.
Proof. unfold proper_end. rewrite last_event_snoc. reflexivity. Qed.

Lemma parse_tags_exits Q env l : exits Q (parse_tags env l).
Proof.
  induction l as [| [n x | e] rest IH]; simpl; exits_walk; exact IH.
Qed.

Lemma read_loop_exits Q s : forall chunks, exits Q (read_loop s chunks).
Proof.
  induction s as [d | d e | d value rest IH]; intros chunks; simpl;
    unfold on_chunk, when, log; exits_walk; apply IH.
Qed.

Lemma read_main_exits env : exits proper_end (main env).
Proof.
  unfold main, main_body, before_download, setup, metadata_phase, head_phase,
    download_phase, download_try, download_catch, receive, outer_catch,
    log_content_type_tag, when, log, log_error.
  exits_walk;
    auto using read_proper_end_stderr, parse_tags_exits, read_loop_exits.
Qed.

Lemma read_main_yields env : yields (fun tr => proper_end tr 0) (main env).
Proof.
  unfold main, main_body, download_phase, download_try, download_catch, receive,
    outer_catch, log, log_error.
  yields_walk.
  unfold proper_end. rewrite last_event_snoc. reflexivity.
Qed.

Lemma read_main_never_throws env : never_throws (main env).
Proof.
  unfold main. apply never_throws_try_catch. intros e.
  unfold outer_catch, log_error.
  apply never_throws_bind; [apply never_throws_emit | intros _; apply never_throws_exit].
Qed.

(** X22: the read test exits with code 0 or 1.  It exits with 0 only
    right after the line that says the results were saved, and with 1
    only right after a line on the error stream. *)
Theorem read_exit_status env :
  proper_end (fst (run env)) (snd (run env)) /\
  (snd (run env) = 0 \/ snd (run env) = 1).
Proof.
  assert (H : proper_end (fst (run env)) (snd (run env))).
  { unfold run. destruct (main env start) as [w [[] | e | c]] eqn:E;
      cbn [fst snd exit_code].
    - exact (read_main_yields env _ _ _ E).
    - exfalso. exact (read_main_never_throws env _ _ _ E).
    - exact (read_main_exits env _ _ _ E). }
  split; [exact H |].
  unfold proper_end in H.
  destruct (last_event (fst (run env))) as [[[] | l | | | | |] |]; auto; contradiction.
Qed.

(** ** The download *)

Lemma or_else_default s d : d <> EmptyString -> or_else s d <> EmptyString.
Proof. intros Hd. destruct s; [exact Hd | discriminate]. Qed.

Lemma before_download_ready env w0 t :
  before_download env start = (w0, Val t) ->
  t = target_of env /\ ready env (vars w0).
Proof.
  unfold before_download. unfold bind at 1.
  rewrite setup_run. destruct (truthy (nth_error (argv env) 0)); [| discriminate].
  unfold bind at 1.
  match goal with |- context [metadata_phase env ?g ?t ?w0] =>
    destruct (metadata_phase_run env g t w0 eq_refl) as (w2 & -> & He) end.
  unfold bind at 1. unfold head_phase, try_catch.
  destruct (head env) as [d [hd | e]]; run_step; [| discriminate].
  destruct (ok hd); cbn [negb]; run_step; [| discriminate].
  intros H. inversion H; subst. split; [reflexivity |].
  unfold ready. cbn [vars set_head expectedSize contentType].
  split; [exact He | apply or_else_default; discriminate].
Qed.

(** X23: when the HEAD probe passed and the download is answered with a
    status that is not ok, the read test prints that status on the error
    stream right after the GET and exits with code 1; no file is
    written, neither a report nor an error report. *)
Theorem read_download_refused env w0 t resp :
  before_download env start = (w0, Val t) ->
  snd (get env) = Resolved resp ->
  ok resp = false ->
  run env =
    (trace w0 ++ [Stdout LDownloading; Fetch "GET" (rawUrl (target_of env));
                  Stderr (LDownloadFailed (resp_status resp) (resp_statusText resp))],
     1) /\
  Forall no_write (fst (run env)).
Proof.
  intros Hb Hget Hok.
  destruct (before_download_ready env w0 t Hb) as [-> _].
  pose proof (before_download_no_write env _ _ _ I Hb) as (_ & evs & T & F).
  cbn [trace start app] in T.
  assert (E : main env start =
              (mkWorld (clock w0 + fst (get env))%N
                 (trace w0 ++ [Stdout LDownloading; Fetch "GET" (rawUrl (target_of env));
                    Stderr (LDownloadFailed (resp_status resp) (resp_statusText resp))])
                 (vars w0), Exit 1)).
  { rewrite (main_unfold env w0 _ Hb). unfold try_catch, download_try, downloading.
    revert Hget. destruct (get env) as [d o]. cbn [snd]. intros ->. run_step.
    rewrite Hok. cbn [negb]. run_step. rewrite <- !app_assoc. reflexivity. }
  unfold run. rewrite E. cbn [fst snd trace exit_code]. split; [reflexivity |].
  rewrite T. apply Forall_app. split; [exact F |]. repeat constructor.
Qed.

Lemma read_download_refused_witness :
  run refusing_env =
    (trace (mkWorld 30000000
              [Stdout (LReading "TXID"); Stdout (LGateway "https://arweave.net");
               Stdout (LRawUrl "https://arweave.net/raw/TXID");
               Stdout (LTxUrl "https://arweave.net/TXID"); Stdout LBlank;
               Stdout LFetchingMetadata; Fetch "GET" "https://arweave.net/tx/TXID";
               Caught "metadata" reset; Stdout (LMetadataFailed "terminated");
               Stdout LBlank;
               Stdout LCheckingAvailability;
               Fetch "HEAD" "https://arweave.net/raw/TXID";
               Stdout (LStatus 200 "OK"); Stdout (LResponseContentType "unknown");
               Stdout (LResponseContentLength (Int 0)); Stdout (LHeadLatency 10);
               Stdout LBlank]
              (mkVars (Int 0) [] (Int 0) "unknown" 0 []) : World)
     ++ [Stdout LDownloading; Fetch "GET" (rawUrl (target_of refusing_env));
         Stderr (LDownloadFailed (resp_status (response 503 "Service Unavailable"))
                                 (resp_statusText (response 503 "Service Unavailable")))],
     1) /\
  Forall no_write (fst (run refusing_env)).
Proof.
  apply (read_download_refused refusing_env _ (target_of refusing_env)
           (response 503 "Service Unavailable")).
  - vm_compute. reflexivity.
  - reflexivity.
  - reflexivity.
Defined.

(** ** A body stream that fails *)

Lemma read_loop_result s : forall chunks w,
  snd (read_loop s chunks w) =
  match stream_error s with
  | Some e => Throw e
  | None => Val (chunks ++ received s)
  end.
Proof.
  induction s as [d | d e | d value rest IH]; intros chunks w.
  - cbn [read_loop stream_error received]. run_step. rewrite app_nil_r. reflexivity.
  - reflexivity.
  - cbn [read_loop stream_error received]. unfold bind at 1. unfold emit at 1.
    cbn [fst snd]. unfold bind at 1. unfold tick at 1. cbn [fst snd clock trace vars].
    unfold bind at 1. rewrite on_chunk_run. cbn [fst snd].
    rewrite IH. destruct (stream_error rest); [reflexivity |].
    rewrite <- app_assoc. reflexivity.
Qed.

Lemma policy_events_no_report expected chunks : forall d,
  Forall (fun ev => is_report ev = false) (policy_events expected d chunks).
Proof.
  induction chunks as [| value rest IH]; intros d; cbn [policy_events].
  - constructor.
  - constructor; [reflexivity |]. apply Forall_app. split; [| apply IH].
    destruct (progress_dueb _ _ _); repeat constructor.
Qed.

Lemma policy_events_reads expected chunks : forall d,
  count is_read (policy_events expected d chunks) = List.length chunks.
Proof.
  induction chunks as [| value rest IH]; intros d; cbn [policy_events].
  - reflexivity.
  - change (Call "read" :: ?l) with ([Call "read"] ++ l).
    rewrite !count_app, IH.
    destruct (progress_dueb _ _ _); reflexivity.
Qed.

Lemma no_download_no_report (tr : list Event) :
  Forall (fun ev => is_download ev = false) tr ->
  Forall (fun ev => is_report ev = false) tr /\ count is_read tr = 0%nat.
Proof.
  induction 1 as [| ev l Hev _ [IH1 IH2]]; [split; [constructor | reflexivity] |].
  split.
  - constructor; [| exact IH1]. destruct ev as [| | | | | p [] |]; try reflexivity;
      discriminate.
  - unfold count in *. cbn [filter].
    destruct ev; try exact IH2. discriminate.
Qed.

(** X24: when the body stream fails after some chunks, the read test
    has read all the chunks before the failing read, enters the [catch]
    of the download with the error of the stream, hands an error report
    to [writeFile] and exits with code 1; what was received is dropped:
    no report is written. *)
Theorem stream_failure_reported env w0 t resp e :
  before_download env start = (w0, Val t) ->
  snd (get env) = Resolved resp ->
  ok resp = true ->
  stream_error (reads env) = Some e ->
  exists pre path r tail,
    run env =
      (pre ++ [Caught "download" e; Stderr (LDownloadError (message e));
               WriteFile path (ErrorJson r)] ++ tail, 1) /\
    count is_read pre = S (List.length (received (reads env))) /\
    Forall (fun ev => is_report ev = false) (fst (run env)).
Proof.
  intros Hb Hget Hok Herr.
  pose proof (before_download_not_download env _ _ _ I Hb) as (_ & evs & T & F).
  cbn [trace start app] in T.
  destruct (no_download_no_report _ F) as [F0 C0].
  destruct (get env) as [d o] eqn:Hg. cbn [snd] in Hget. subst o.
  set (wd := mkWorld (clock w0 + d)%N
                     ((trace w0 ++ [Stdout LDownloading]) ++ [Fetch "GET" (rawUrl t)])
                     (vars w0)).
  destruct (read_loop_run (reads env) [] wd) as (w' & r & E & Tr & _ & _ & _).
  pose proof (read_loop_result (reads env) [] wd) as Hr.
  rewrite E, Herr in Hr. cbn [snd] in Hr. subst r.
  assert (Hd : download_try env t (clock w0) (downloading w0) = (w', Throw e)).
  { unfold download_try, downloading. rewrite Hg. run_step. rewrite Hok. cbn [negb].
    unfold receive. unfold bind at 1. fold wd. rewrite E. reflexivity. }
  destruct (read_error_reported env w0 t w' e Hb Hd)
    as (path & r & tail & Hrun & _ & _ & _ & Htail & _).
  exists (trace w'), path, r, tail. split; [exact Hrun |].
  assert (Fpre : Forall (fun ev => is_report ev = false) (trace w') /\
                 count is_read (trace w') = S (List.length (received (reads env)))).
  { rewrite Tr. subst wd. cbn [trace vars]. rewrite T. split.
    - repeat (apply Forall_app; split); auto using policy_events_no_report;
        repeat constructor.
    - rewrite !count_app, C0, policy_events_reads. unfold count. simpl. lia. }
  split; [apply Fpre |].
  rewrite Hrun. cbn [fst].
  repeat (apply Forall_app; split); [apply Fpre | repeat constructor |].
  destruct Htail as [[_ ->] | (writeErr & _ & ->)]; repeat constructor.
Qed.

Lemma stream_failure_reported_witness :
  exists pre path r tail,
    run (sample_env (Some "6") (Chunk 5 (repeat "x"%byte 4) (Failed 6 reset))
           (fun _ => Rejected disk_full)) =
      (pre ++ [Caught "download" reset; Stderr (LDownloadError (message reset));
               WriteFile path (ErrorJson r)] ++ tail, 1) /\
    count is_read pre = 2%nat /\
    Forall (fun ev => is_report ev = false)
           (fst (run (sample_env (Some "6") (Chunk 5 (repeat "x"%byte 4) (Failed 6 reset))
                        (fun _ => Rejected disk_full)))).
Proof.
  apply (stream_failure_reported
           (sample_env (Some "6") (Chunk 5 (repeat "x"%byte 4) (Failed 6 reset))
              (fun _ => Rejected disk_full))
           (fst (before_download
                   (sample_env (Some "6") (Chunk 5 (repeat "x"%byte 4) (Failed 6 reset))
                      (fun _ => Rejected disk_full)) start))
           (target_of (sample_env (Some "6") (Chunk 5 (repeat "x"%byte 4) (Failed 6 reset))
                         (fun _ => Rejected disk_full)))
           (response 200 "OK")).
  - vm_compute. reflexivity.
  - reflexivity.
  - reflexivity.
  - reflexivity.
Defined.

(** ** What a report says *)

Lemma concat_length (chunks : list Buffer) :
  buffer_length (List.concat chunks) = total chunks.
Proof.
  unfold buffer_length. induction chunks as [| value rest IH]; [reflexivity |].
  cbn [List.concat total]. rewrite length_app, Nat2Z.inj_add, IH. reflexivity.
Qed.

Lemma read_loop_returns s :
  returns (fun chunks => chunks = received s /\ stream_error s = None)
          (read_loop s []).
Proof.
  intros w w' chunks E. pose proof (read_loop_result s [] w) as H.
  rewrite E in H. cbn [snd app] in H.
  destruct (stream_error s); [discriminate |]. inversion H. auto.
Qed.

Lemma ready_add_chunk env len v : ready env v -> ready env (add_chunk len v).
Proof. auto. Qed.

Lemma receive_consistent env tstart :
  emits (ready env) (report_consistent env) (receive env (target_of env) tstart).
Proof.
  unfold receive.
  apply (emits_bind_returns _ _
           (fun chunks => chunks = received (reads env) /\
                          stream_error (reads env) = None)).
  - apply read_loop_emits; [apply ready_add_chunk | |]; intros; exact I.
  - apply read_loop_returns.
  - intros chunks [-> Hdone]. apply emits_read. intros v [He Ht].
    apply emits_bind; [unfold when, log; emits_walk | intros _].
    apply (emits_bind_returns _ _ (fun ms => 0 <= ms));
      [auto with emits | apply returns_elapsedMs | intros downloadMs Hms].
    unfold when, log. emits_walk.
    all: cbn [report_consistent];
      split; cbn [transaction_id transaction_gateway transaction_rawUrl
                  transaction_txUrl metadata_expectedSize metadata_responseContentType
                  download_actualSize download_chunks fileSize_bytes
                  verification_sha256Hash verification_looksLikeHTML
                  verification_sizeMatch download_downloadLatencyMs
                  target_of txid gateway rawUrl txUrl];
      rewrite ?concat_length, ?He; eauto.
Qed.

Lemma read_download_consistent env :
  emits (ready env) (report_consistent env) (download_phase env (target_of env)).
Proof.
  unfold download_phase, download_try, download_catch, log, log_error.
  emits_walk. apply receive_consistent.
Qed.

Lemma no_write_consistent env (tr : list Event) :
  Forall no_write tr -> Forall (report_consistent env) tr.
Proof.
  intros F. eapply Forall_impl; [| exact F].
  intros [| | | | | p f |]; try (intros; exact I). discriminate.
Qed.

Lemma read_run_consistent env : Forall (report_consistent env) (fst (run env)).
Proof.
  destruct (before_download env start) as [w0 [t | e | c]] eqn:Hb.
  - destruct (before_download_ready env w0 t Hb) as [-> Hready].
    pose proof (before_download_no_write env _ _ _ I Hb) as (_ & evs0 & T0 & F0).
    cbn [trace start app] in T0.
    destruct (download_phase env (target_of env) w0) as [w1 r] eqn:Hd.
    destruct (read_download_consistent env _ _ _ Hready Hd) as (_ & evs1 & T1 & F1).
    assert (E : main env start =
                match r with
                | Throw e => (mkWorld (clock w1)
                                (trace w1 ++ [Caught "outer" e; Stderr (LFatal e)])
                                (vars w1), Exit 1)
                | _ => (w1, r)
                end).
    { unfold main, try_catch, main_body. unfold bind at 1. rewrite Hb, Hd.
      destruct r; [reflexivity | | reflexivity].
      unfold outer_catch. run_step. rewrite <- !app_assoc. reflexivity. }
    unfold run. rewrite E.
    assert (Fw : Forall (report_consistent env) (trace w1)).
    { rewrite T1, T0. apply Forall_app. split; [apply no_write_consistent, F0 | exact F1]. }
    destruct r; cbn [fst trace]; [exact Fw | | exact Fw].
    apply Forall_app. split; [exact Fw | repeat constructor].
  - exfalso. exact (before_download_never_throws env _ _ _ Hb).
  - pose proof (before_download_no_write env _ _ _ I Hb) as (_ & evs0 & T0 & F0).
    cbn [trace start app] in T0.
    assert (E : main env start = (w0, Exit c)).
    { unfold main, try_catch, main_body. unfold bind at 1. rewrite Hb. reflexivity. }
    unfold run. rewrite E. cbn [fst]. rewrite T0. apply no_write_consistent, F0.
Qed.

(** X25: every report the read test writes comes from a body stream
    that was read to its end, and says so: the actual size and the file
    size are the total length of the chunks received, the number of
    chunks is their number, the hash and the HTML flag are those of
    their concatenation, the expected size is the declared size,
    [sizeMatch] compares these two, the response content type is not
    empty, the addresses are those built from the command line, and the
    file name is built from the transaction id. *)
Theorem read_report_consistent env path r :
  In (WriteFile path (ResultsJson r)) (fst (run env)) -> consistent env path r.
Proof.
  intros Hin. pose proof (read_run_consistent env) as Hall.
  rewrite Forall_forall in Hall. exact (Hall _ Hin).
Qed.

Lemma read_report_consistent_witness :
  consistent
    (sample_env (Some "6")
       (Chunk 5 (repeat "x"%byte 4) (Chunk 6 (repeat "y"%byte 2) (Done 1)))
       (fun _ => Resolved tt))
    "arweave-read-TXID-1700000000070.json"
    (mkResults 1700000000070 "TXID" "https://arweave.net/raw/TXID"
               "https://arweave.net/TXID" "https://arweave.net"
               (Int 6) [] "unknown" (Int 0) 6 40 2 (Some true) "00ff" false 6).
Proof.
  apply read_report_consistent.
  vm_compute. do 32 right. left. reflexivity.
Defined.

(** ** Progress lines *)

Lemma blocks_crossing d len : d mod 10485760 < len <-> blocks (d - len) < blocks d.
Proof.
  unfold blocks.
  pose proof (Z.div_mod d 10485760 ltac:(lia)) as Hd.
  pose proof (Z.mod_pos_bound d 10485760 ltac:(lia)) as Hr.
  split; intros H.
  - apply Z.div_lt_upper_bound; lia.
  - destruct (Z_lt_ge_dec (d mod 10485760) len) as [Hlt | Hge]; [exact Hlt |].
    exfalso.
    assert (d / 10485760 <= (d - len) / 10485760)
      by (apply Z.div_le_lower_bound; lia).
    lia.
Qed.

(** X26: the read loop prints a progress line after a chunk exactly when
    the expected size is positive and the chunk took the number of bytes
    downloaded into a new block of 10485760 bytes; so with a positive
    expected size a chunk of at least 10485760 bytes always gets its
    progress line, and an empty chunk never does. *)
Theorem progress_line_on_crossing value w :
  exists w' evs,
    on_chunk value w = (w', Val tt) /\
    trace w' = trace w ++ evs /\
    downloadedBytes (vars w') = downloadedBytes (vars w) + buffer_length value /\
    (evs = [Stdout (LProgress (downloadedBytes (vars w')) (expectedSize (vars w)))]
     \/ evs = []) /\
    (evs <> [] <->
     num_gtb (expectedSize (vars w)) (Int 0) = true /\
     blocks (downloadedBytes (vars w)) < blocks (downloadedBytes (vars w'))) /\
    (num_gtb (expectedSize (vars w)) (Int 0) = true ->
     10485760 <= buffer_length value -> evs <> []) /\
    (value = [] -> evs = []).
Proof.
  rewrite on_chunk_run. eexists. eexists. split; [reflexivity |].
  cbn [clock trace vars add_chunk expectedSize downloadedBytes].
  split; [reflexivity |]. split; [reflexivity |].
  set (d := downloadedBytes (vars w)). set (len := buffer_length value).
  assert (Hdue : progress_dueb (expectedSize (vars w)) (d + len) len = true <->
                 num_gtb (expectedSize (vars w)) (Int 0) = true /\
                 blocks d < blocks (d + len)).
  { rewrite progress_dueb_spec. unfold progress_due. rewrite blocks_crossing.
    replace (d + len - len) with d by lia. reflexivity. }
  assert (Hbig : 10485760 <= len -> blocks d < blocks (d + len)).
  { intros Hlen. unfold blocks.
    replace (d + len) with ((d + (len - 10485760)) + 1 * 10485760) by lia.
    rewrite Z.div_add by lia.
    assert (d / 10485760 <= (d + (len - 10485760)) / 10485760)
      by (apply Z.div_le_mono; lia).
    lia. }
  destruct (progress_dueb (expectedSize (vars w)) (d + len) len) eqn:Hd.
  - split; [left; reflexivity |]. split; [| split].
    + split; [intros _; apply Hdue; reflexivity | discriminate].
    + discriminate.
    + intros Hv. exfalso. subst value.
      destruct (proj1 Hdue eq_refl) as [_ Hc].
      replace (d + len) with d in Hc by (subst len; cbn; lia). lia.
  - split; [right; reflexivity |]. split; [| split].
    + split; [congruence |]. intros H. apply Hdue in H. discriminate.
    + intros He Hlen. exfalso.
      assert (Ht : false = true) by (apply Hdue; auto).
      discriminate.
    + reflexivity.
Qed.

Lemma blocks_mono a b : a <= b -> blocks a <= blocks b.
Proof. intros H. unfold blocks. apply Z.div_le_mono; lia. Qed.

Lemma blocks_step a len : len <= 10485760 -> blocks (a + len) <= blocks a + 1.
Proof.
  intros H. unfold blocks.
  replace (a / 10485760 + 1) with ((a + 1 * 10485760) / 10485760)
    by (rewrite Z.div_add; lia).
  apply Z.div_le_mono; lia.
Qed.

Lemma buffer_length_nonneg (b : Buffer) : 0 <= buffer_length b.
Proof. unfold buffer_length. lia. Qed.

Lemma policy_events_progress expected chunks : forall d,
  Z.of_nat (count is_progress (policy_events expected d chunks))
    <= blocks (d + total chunks) - blocks d /\
  (num_gtb expected (Int 0) = true ->
   Forall (fun value => buffer_length value <= 10485760) chunks ->
   Z.of_nat (count is_progress (policy_events expected d chunks))
     = blocks (d + total chunks) - blocks d) /\
  (num_gtb expected (Int 0) = false ->
   count is_progress (policy_events expected d chunks) = 0%nat).
Proof.
  induction chunks as [| value rest IH]; intros d; cbn [policy_events total].
  - rewrite Z.add_0_r. unfold count. simpl. repeat split; intros; lia.
  - change (Call "read" :: ?l) with ([Call "read"] ++ l).
    rewrite !count_app.
    destruct (IH (d + buffer_length value)) as (IH1 & IH2 & IH3).
    pose proof (buffer_length_nonneg value) as Hlen.
    pose proof (blocks_mono d (d + buffer_length value) ltac:(lia)) as Hmono.
    rewrite Z.add_assoc.
    destruct (progress_dueb expected (d + buffer_length value) (buffer_length value))
      eqn:Hdue.
    + apply progress_dueb_spec in Hdue. destruct Hdue as [He Hc].
      apply blocks_crossing in Hc.
      replace (d + buffer_length value - buffer_length value) with d in Hc by lia.
      unfold count at 1 2. cbn [filter is_progress is_read List.length app].
      split; [| split].
      * cbn. lia.
      * intros _ F. inversion F as [| ? ? Hv Fr]; subst.
        specialize (IH2 He Fr).
        pose proof (blocks_step d (buffer_length value) Hv). cbn. lia.
      * intros Hn. rewrite He in Hn. discriminate.
    + unfold count at 1 2. cbn [filter is_progress is_read List.length app].
      split; [| split].
      * cbn. lia.
      * intros He F. inversion F as [| ? ? Hv Fr]; subst.
        specialize (IH2 He Fr).
        assert (Hno : ~ blocks d < blocks (d + buffer_length value)).
        { intros Hc.
          assert (Ht : progress_dueb expected (d + buffer_length value)
                         (buffer_length value) = true).
          { apply progress_dueb_spec. split; [exact He |]. apply blocks_crossing.
            replace (d + buffer_length value - buffer_length value) with d by lia.
            exact Hc. }
          rewrite Ht in Hdue. discriminate. }
        cbn. lia.
      * intros Hn. cbn. exact (IH3 Hn).
Qed.

(** X27: over a whole download the read loop prints at most one
    progress line for each block of 10485760 bytes the download enters;
    exactly one when the expected size is positive and no chunk is
    longer than a block; and none when the expected size is not
    positive. *)
Theorem progress_lines_counted s chunks w :
  exists w' r,
    read_loop s chunks w = (w', r) /\
    Z.of_nat (count is_progress (trace w'))
      <= Z.of_nat (count is_progress (trace w))
         + (blocks (downloadedBytes (vars w')) - blocks (downloadedBytes (vars w))) /\
    (num_gtb (expectedSize (vars w)) (Int 0) = true ->
     Forall (fun value => buffer_length value <= 10485760) (received s) ->
     Z.of_nat (count is_progress (trace w'))
       = Z.of_nat (count is_progress (trace w))
         + (blocks (downloadedBytes (vars w')) - blocks (downloadedBytes (vars w)))) /\
    (num_gtb (expectedSize (vars w)) (Int 0) = false ->
     count is_progress (trace w') = count is_progress (trace w)).
Proof.
  destruct (read_loop_run s chunks w) as (w' & r & E & T & _ & Hd & _).
  exists w', r. split; [exact E |].
  destruct (policy_events_progress (expectedSize (vars w)) (received s)
              (downloadedBytes (vars w))) as (H1 & H2 & H3).
  rewrite T, Hd, !count_app.
  assert (Hlast : count is_progress ([Call "read"] : list Event) = 0%nat) by reflexivity.
  rewrite Hlast, Nat.add_0_r.
  split; [lia |]. split.
  - intros He F. specialize (H2 He F). lia.
  - intros He. rewrite (H3 He). lia.
Qed.

Lemma progress_lines_counted_witness :
  exists w' r,
    read_loop (Chunk 5 (repeat "x"%byte 4) (Chunk 6 (repeat "y"%byte 2) (Done 1))) []
              (mkWorld 0 [] (mkVars (Int 20971520) [] (Int 0) EmptyString 10485758 []))
      = (w', r) /\
    Z.of_nat (count is_progress (trace w')) = 0 + (blocks (downloadedBytes (vars w')) - 0).
Proof.
  destruct (progress_lines_counted
              (Chunk 5 (repeat "x"%byte 4) (Chunk 6 (repeat "y"%byte 2) (Done 1))) []
              (mkWorld 0 [] (mkVars (Int 20971520) [] (Int 0) EmptyString 10485758 [])))
    as (w' & r & E & _ & H & _).
  exists w', r. split; [exact E |].
  apply H; [reflexivity |].
  repeat constructor; vm_compute; discriminate.
Defined.

(** ** The HTML check *)

Lemma prefix_append (n r : string) : String.prefix n (n ++ r)%string = true.
Proof.
  induction n as [| c n IH]; [destruct r; reflexivity |].
  cbn [append String.prefix]. destruct (ascii_dec c c); [exact IH | congruence].
Qed.

Lemma includes_prefix (n r : string) : includes n (n ++ r)%string = true.
Proof.
  destruct (n ++ r)%string eqn:E; cbn [includes]; rewrite <- E, prefix_append; reflexivity.
Qed.

Lemma includes_first_char c n hay :
  includes (String c n) hay = true -> In c (list_ascii_of_string hay).
Proof.
  induction hay as [| d h IH]; cbn [includes String.prefix]; [discriminate |].
  destruct (ascii_dec c d) as [-> | Hne].
  - intros _. left. reflexivity.
  - intros H. right. apply IH. exact H.
Qed.

Lemma string_of_list_byte_app (a b : list byte) :
  string_of_list_byte (a ++ b) = (string_of_list_byte a ++ string_of_list_byte b)%string.
Proof.
  unfold string_of_list_byte.
  induction a as [| x a IH]; [reflexivity |].
  cbn [app map string_of_list_ascii append]. rewrite IH. reflexivity.
Qed.

Lemma chars_of_bytes (l : list byte) :
  list_ascii_of_string (string_of_list_byte l) = map ascii_of_byte l.
Proof.
  unfold string_of_list_byte. apply list_ascii_of_string_of_list_ascii.
Qed.

Lemma no_angle_bracket (l : list byte) c n :
  byte_of_ascii c = "<"%byte ->
  Forall (fun b => b <> "<"%byte) l ->
  includes (String c n) (string_of_list_byte l) = false.
Proof.
  intros Hc F. destruct (includes (String c n) (string_of_list_byte l)) eqn:E;
    [| reflexivity].
  exfalso. apply includes_first_char in E. rewrite chars_of_bytes in E.
  apply in_map_iff in E. destruct E as (b & Hb & Hin).
  rewrite Forall_forall in F. apply (F b Hin).
  rewrite <- Hc, <- Hb. symmetry. apply byte_of_ascii_of_byte.
Qed.

(** X28: the HTML check looks at the first 1000 bytes only: what follows
    them does not change its answer; it answers no when none of these
    bytes is an opening angle bracket, and yes when the data starts with
    one of the two markers. *)
Theorem looksLikeHTML_first_bytes :
  (forall seen rest,
      List.length seen = 1000%nat ->
      looksLikeHTML (seen ++ rest) = looksLikeHTML seen) /\
  (forall buffer,
      Forall (fun b => b <> "<"%byte) (firstn 1000 buffer) ->
      looksLikeHTML buffer = false) /\
  (forall rest,
      looksLikeHTML (list_byte_of_string "<!DOCTYPE" ++ rest) = true /\
      looksLikeHTML (list_byte_of_string "<html" ++ rest) = true).
Proof.
  split; [| split].
  - intros seen rest Hlen. unfold looksLikeHTML, first1000.
    rewrite firstn_app, Hlen, Nat.sub_diag, firstn_0, app_nil_r. reflexivity.
  - intros buffer F. unfold looksLikeHTML, first1000.
    rewrite !no_angle_bracket by (try reflexivity; exact F). reflexivity.
  - intros rest. unfold looksLikeHTML, first1000. split.
    + rewrite firstn_app, string_of_list_byte_app.
      change (firstn 1000 (list_byte_of_string "<!DOCTYPE"))
        with (list_byte_of_string "<!DOCTYPE").
      change (string_of_list_byte (list_byte_of_string "<!DOCTYPE")) with "<!DOCTYPE".
      rewrite includes_prefix. reflexivity.
    + rewrite firstn_app, string_of_list_byte_app.
      change (firstn 1000 (list_byte_of_string "<html"))
        with (list_byte_of_string "<html").
      change (string_of_list_byte (list_byte_of_string "<html")) with "<html".
      rewrite includes_prefix. apply orb_true_r.
Qed.

Lemma looksLikeHTML_first_bytes_witness :
  looksLikeHTML (repeat "x"%byte 1000 ++ list_byte_of_string "<html>")
    = looksLikeHTML (repeat "x"%byte 1000) /\
  looksLikeHTML (repeat "x"%byte 4) = false.
Proof.
  destruct looksLikeHTML_first_bytes as (H1 & H2 & _). split.
  - apply H1. apply repeat_length.
  - apply H2. repeat constructor; discriminate.
Defined.

End ReadRunFacts.

(* ===================================================================== *)
(** * Runs of the test driver *)
(* ===================================================================== *)

Module DriverFacts.
Import Js SizeParser Run Driver RunFacts UploadRunFacts.
Local Open Scope string_scope.
Local Open Scope Z_scope.
Local Open Scope list_scope.

Lemma invocations_app a b : invocations (a ++ b) = invocations a ++ invocations b.
Proof.
  induction a as [| [l | args | n] a IH]; cbn [app invocations]; rewrite ?IH; reflexivity.
Qed.

Lemma verdicts_app a b : verdicts (a ++ b) = verdicts a ++ verdicts b.
Proof.
  induction a as [| [[] | args | n] a IH]; cbn [app verdicts]; rewrite ?IH; reflexivity.
Qed.

Lemma tests_run env sizes : forall k,
  invocations (tests env k sizes) = map (fun size => [WALLET_FILE; size]) sizes /\
  verdicts (tests env k sizes) = expected_verdicts env k sizes.
Proof.
  induction sizes as [| size rest IH]; intros k; [split; reflexivity |].
  destruct (IH (S k)) as [IHi IHv].
  cbn [tests expected_verdicts map]. rewrite invocations_app, verdicts_app, IHi, IHv.
  split; [reflexivity |].
  destruct (node env k [WALLET_FILE; size] =? 0); reflexivity.
Qed.

(** X29: without the wallet file the shell script exits with status 1
    and starts no upload test.  With it, the script starts one upload
    test for each of the six sizes, in their order, each with the wallet
    file and the size as arguments; it prints for each the verdict its
    exit status calls for and goes on after a failed test; and it exits
    with status 0 whatever the tests did. *)
Theorem driver_runs_every_size env :
  (wallet_exists env = false ->
   snd (script env) = 1 /\ invocations (fst (script env)) = []) /\
  (wallet_exists env = true ->
   snd (script env) = 0 /\
   invocations (fst (script env)) = map (fun size => [WALLET_FILE; size]) SIZES /\
   verdicts (fst (script env)) = expected_verdicts env 0 SIZES).
Proof.
  unfold script. split; intros ->; cbn [negb fst snd].
  - split; reflexivity.
  - split; [reflexivity |].
    rewrite !invocations_app, !verdicts_app.
    destruct (tests_run env SIZES 0) as [-> ->].
    split; [reflexivity |].
    cbn [verdicts app]. rewrite app_nil_r. reflexivity.
Qed.

Lemma driver_runs_every_size_witness :
  (snd (script no_wallet_env) = 1 /\ invocations (fst (script no_wallet_env)) = []) /\
  (snd (script sample_env) = 0 /\
   invocations (fst (script sample_env))
     = map (fun size => [WALLET_FILE; size]) SIZES /\
   verdicts (fst (script sample_env)) = expected_verdicts sample_env 0 SIZES).
Proof.
  split.
  - apply (proj1 (driver_runs_every_size no_wallet_env)). reflexivity.
  - apply (proj2 (driver_runs_every_size sample_env)). reflexivity.
Defined.

(** X30: every size the shell script passes to the upload test is a size
    [parseSize] accepts, with a positive byte count; so each of these
    tests gets past its usage check and its size check, and the first
    thing it does is read the key file. *)
Theorem driver_tests_reach_upload env k size :
  In size SIZES ->
  exists z tr,
    parseSize size = Returned (Int z) /\ 0 < z /\
    fst (Latency.run (with_argv [WALLET_FILE; size] (outside env k)))
      = Call "readFile" :: tr.
Proof.
  intros Hin.
  assert (Hp : exists z, parseSize size = Returned (Int z) /\ 0 < z).
  { cbn [SIZES In] in Hin.
    destruct Hin as [<- | [<- | [<- | [<- | [<- | [<- | []]]]]]];
      eexists; (split; [vm_compute; reflexivity | reflexivity]). }
  destruct Hp as (z & Hp & Hz).
  destruct (upload_starts_with_key (with_argv [WALLET_FILE; size] (outside env k)) (Int z))
    as (tr & Htr).
  - unfold LatencyVocab.missing_args. cbn [with_argv Latency.argv nth_error].
    cbn [SIZES In] in Hin.
    destruct Hin as [<- | [<- | [<- | [<- | [<- | [<- | []]]]]]]; reflexivity.
  - exact Hp.
  - exists z, tr. auto.
Qed.

Lemma driver_tests_reach_upload_witness :
  exists z tr,
    parseSize "70MB" = Returned (Int z) /\ 0 < z /\
    fst (Latency.run (with_argv [WALLET_FILE; "70MB"] (outside sample_env 4)))
      = Call "readFile" :: tr.
Proof.
  apply (driver_tests_reach_upload sample_env 4 "70MB").
  cbn. auto 10.
Defined.

End DriverFacts.
